(** * FileOrganizer: a shallow embedding of [src/FileOrganizer.py]

    The first part holds the definitions, in the order of the program:

    - [Py] and [Path]: the few [str] and [pathlib] primitives the program
      calls;
    - the classifier ([EXT_MAP], [MULTI_EXTENSIONS], [get_extension_lower],
      [resolve_category]);
    - [FileSystem], the interface of the platform calls ([exists], [is_dir],
      [iterdir], [mkdir], [shutil.move], ...);
    - the collision resolver [make_unique_target] and the walker
      [organize_iterative], written in a small exception monad over the file
      system, the output and the local variables of the walker;
    - the walker once more as step relations, and the predicates the
      properties are stated with;
    - [SimpleFS], an in-memory instance of [FileSystem], and a few file
      systems used as examples.

    The second part holds the properties: strings, the classifier, the
    collision resolver, the walker step by step, what a run skips, counts and
    records, and that a run on [SimpleFS] ends.

    The third part holds further properties of the same code: the shape of
    the extensions and of the table, the names the resolver returns, what a
    run prints and where it goes, and, on [SimpleFS], what a run changes,
    that a run without errors leaves no file behind, and that a second run
    finds nothing to do. *)

From stdpp Require Import gmap strings list fin_maps pretty.
From Stdlib Require Import Ascii.

Local Open Scope stdpp_scope.

(** ** Python [str] and [pathlib.PurePath] primitives *)

Module Py.

(** [str.lower] on ASCII text: the letters [A]..[Z] are mapped to
    [a]..[z], every other character is kept. *)
Definition lower_char (c : ascii) : ascii :=
  let n := nat_of_ascii c in
  if (65 <=? n)%nat && (n <=? 90)%nat then ascii_of_nat (n + 32) else c.

Fixpoint lower (s : string) : string :=
  match s with
  | EmptyString => EmptyString
  | String c s' => String (lower_char c) (lower s')
  end.

(** [s.endswith(t)]: [s] is [t], or the tail of [s] ends with [t]. *)
Fixpoint endswith (s t : string) : bool :=
  if bool_decide (s = t) then true
  else match s with
       | EmptyString => false
       | String _ s' => endswith s' t
       end.

(** [s.startswith(t)]. *)
Definition startswith (s t : string) : bool := String.prefix t s.

(** [s.rfind(c)]: the index of the last occurrence of [c], [None] for
    Python's [-1]. *)
Fixpoint rfind (c : ascii) (s : string) : option nat :=
  match s with
  | EmptyString => None
  | String a s' =>
      match rfind c s' with
      | Some i => Some (S i)
      | None => if bool_decide (a = c) then Some 0 else None
      end
  end.

(** The slices [s[i:]] and [s[:i]]. *)
Fixpoint slice_from (i : nat) (s : string) : string :=
  match i, s with
  | 0, _ => s
  | S _, EmptyString => EmptyString
  | S i', String _ s' => slice_from i' s'
  end.

Fixpoint slice_to (i : nat) (s : string) : string :=
  match i, s with
  | 0, _ => EmptyString
  | S _, EmptyString => EmptyString
  | S i', String a s' => String a (slice_to i' s')
  end.

(** [PurePath.suffix] and [PurePath.stem], as functions of the final
    component [name] (CPython's [pathlib], up to 3.13):
    [i = name.rfind('.')], and the name is split at [i] when
    [0 < i < len(name) - 1]. *)
Definition splits_at (name : string) : option nat :=
  match rfind "."%char name with
  | Some i =>
      if (0 <? i)%nat && (i <? String.length name - 1)%nat then Some i else None
  | None => None
  end.

Definition suffix_of (name : string) : string :=
  match splits_at name with
  | Some i => slice_from i name
  | None => ""
  end.

Definition stem_of (name : string) : string :=
  match splits_at name with
  | Some i => slice_to i name
  | None => name
  end.

(** The last character of a string, and strings without a dot: used to
    state where a name splits. *)
Fixpoint last_char (s : string) : option ascii :=
  match s with
  | EmptyString => None
  | String a s' => match s' with EmptyString => Some a | _ => last_char s' end
  end.

Fixpoint dot_free (s : string) : bool :=
  match s with
  | EmptyString => true
  | String a s' => negb (bool_decide (a = "."%char)) && dot_free s'
  end.

(** [f"{i}"] for a non-negative [int]. *)
Definition str_of_int (i : nat) : string := pretty i.

End Py.

(** A path is the list of its components below the file-system root. *)
Definition path := list string.

Module Path.

(** [p.name]: the final component, [''] when there is none. *)
Definition name (p : path) : string := default "" (last p).

(** [p.parent]. *)
Definition parent (p : path) : path := removelast p.

(** [p / s]. *)
Definition join (p : path) (s : string) : path := p ++ [s].

Definition suffix (p : path) : string := Py.suffix_of (name p).
Definition stem (p : path) : string := Py.stem_of (name p).

(** [str(p)] on a POSIX system. *)
Definition str (p : path) : string :=
  match p with
  | [] => "/"
  | _ => String.concat "" ((λ s, "/" +:+ s) <$> p)
  end.

End Path.

Notation "p // s" := (Path.join p s) (at level 40, left associativity).

(** ** The classifier *)

Definition EXT_MAP : gmap string string :=
  list_to_map
    [ (".jpg", "Images"); (".jpeg", "Images"); (".png", "Images");
      (".gif", "Images"); (".bmp", "Images"); (".tiff", "Images");
      (".svg", "Images");
      (".pdf", "Documents"); (".doc", "Documents"); (".docx", "Documents");
      (".txt", "Documents"); (".odt", "Documents"); (".rtf", "Documents");
      (".xls", "Documents"); (".xlsx", "Documents"); (".ppt", "Documents");
      (".pptx", "Documents");
      (".mp3", "Audio"); (".wav", "Audio"); (".aac", "Audio");
      (".flac", "Audio"); (".ogg", "Audio");
      (".mp4", "Video"); (".mkv", "Video"); (".mov", "Video");
      (".avi", "Video"); (".wmv", "Video");
      (".zip", "Archives"); (".rar", "Archives"); (".7z", "Archives");
      (".tar", "Archives"); (".gz", "Archives");
      (".py", "Code"); (".js", "Code"); (".java", "Code"); (".c", "Code");
      (".cpp", "Code"); (".html", "Code"); (".css", "Code"); (".sh", "Code") ].

(** [MULTI_EXTENSIONS] is a Python [set]; its iteration order is not fixed by
    the language, so the scan below takes the order as an argument and
    [MULTI_EXTENSIONS] is one of the two possible orders. *)
Definition MULTI_EXTENSIONS : list string := [".tar.gz"; "tar.bz2"].

Fixpoint first_endswith (name : string) (types : list string) : option string :=
  match types with
  | [] => None
  | type :: types' =>
      if Py.endswith name type then Some type else first_endswith name types'
  end.

Definition get_extension_lower_in (order : list string) (p : path) : string :=
  let name := Py.lower (Path.name p) in
  match first_endswith name order with
  | Some type => type
  | None => Py.lower (Path.suffix p)
  end.

Definition get_extension_lower : path → string :=
  get_extension_lower_in MULTI_EXTENSIONS.

Definition resolve_category (ext : string) : string :=
  default "Others" (EXT_MAP !! ext).

(** The category a file is routed to: lines 74-75 of the walker. *)
Definition classify (p : path) : string :=
  resolve_category (get_extension_lower p).

(** The names of the folders the organizer creates:
    [set(EXT_MAP.values()) | {"Others"}]. *)
Definition category_dirs : gset string :=
  list_to_set (snd <$> map_to_list EXT_MAP) ∪ {["Others"]}.

(** ** Exceptions and the platform interface *)

(** The exceptions that reach the program's handlers.  [PermissionError] is
    the one class a handler of the program names, [FileNotFoundError] the one
    [Path.mkdir] tells apart; [OSError] stands for every other subclass of
    [Exception] a platform call raises ([FileExistsError],
    [NotADirectoryError], [shutil.Error], ...);
    [ValueError] is raised by the program itself. *)
Inductive exn :=
  | PermissionError (msg : string)
  | FileNotFoundError (msg : string)
  | OSError (msg : string)
  | ValueError (msg : string).

(** [str(e)]. *)
Definition exn_str (e : exn) : string :=
  match e with
  | PermissionError msg | FileNotFoundError msg | OSError msg
  | ValueError msg => msg
  end.

Definition is_PermissionError (e : exn) : bool :=
  match e with PermissionError _ => true | _ => false end.

(** What the platform offers.  The queries return a [bool] ([pathlib] answers
    [False] for what it cannot stat); listing returns the snapshot of the
    children or raises; [mkdir] and [move] may change the file system and
    raise, in that order. *)
Class FileSystem (W : Type) := {
  fs_exists : W → path → bool;
  fs_is_dir : W → path → bool;
  fs_is_file : W → path → bool;
  fs_is_symlink : W → path → bool;
  (** [list(p.iterdir())] *)
  fs_iterdir : W → path → exn + list path;
  (** [p.mkdir(parents=True, exist_ok=True)] *)
  fs_mkdir : W → path → W * option exn;
  (** [shutil.move(str(src), str(dst))] *)
  fs_move : W → path → path → W * option exn;
}.

(** ** The collision resolver *)

Section resolver.
Context `{FileSystem W}.

(** The [while True] loop of [make_unique_target], from counter [i];
    [None] when [fuel] iterations did not reach a free candidate. *)
Definition candidate (target : path) (i : nat) : path :=
  Path.parent target
    // (Path.stem target +:+ "_" +:+ Py.str_of_int i +:+ Path.suffix target).

Fixpoint unique_from (fuel : nat) (fs : W) (target : path) (i : nat)
  : option path :=
  match fuel with
  | 0 => None
  | S fuel' =>
      if negb (fs_exists fs (candidate target i)) then Some (candidate target i)
      else unique_from fuel' fs target (S i)
  end.

Definition make_unique_target (fuel : nat) (fs : W) (target : path)
  : option path :=
  if negb (fs_exists fs target) then Some target
  else unique_from fuel fs target 1.

End resolver.

(** ** The walker *)

(** What the program prints, one constructor per [print] call. *)
Inductive line :=
  | DryWouldMove (src dst : path)
  | Moved (src dst : path)
  | ErrorMoving (src : path) (msg : string)
  | PermissionErrorAccessing (dir : path) (msg : string)
  | ErrorReading (dir : path) (msg : string)
  | Report (root : path) (processed : nat) (items : list (string * nat))
      (nerrors : nat) (first_errors : list (path * string)).

(** The file system, the output, and the local variables of
    [organize_iterative].  The head of [stack] is the top of the Python list
    (its last element).  [visited] is a history variable: the values
    [current] has taken, latest first. *)
Record state (W : Type) := State {
  fs : W;
  stdout : list line;
  stack : list path;
  summary : gmap string nat;
  errors : list (path * string);
  processed : nat;
  visited : list path;
}.
Arguments State {W}.
Arguments fs {W}.
Arguments stdout {W}.
Arguments stack {W}.
Arguments summary {W}.
Arguments errors {W}.
Arguments processed {W}.
Arguments visited {W}.

(** How a computation ends: with a value, with a raised exception, or with
    the fuel of a loop used up. *)
Inductive outcome (A : Type) :=
  | Ok (a : A)
  | Raise (e : exn)
  | OutOfFuel.
Arguments Ok {A}.
Arguments Raise {A}.
Arguments OutOfFuel {A}.

Definition M (W A : Type) : Type := state W → state W * outcome A.

Global Instance M_ret {W} : MRet (M W) := λ A a s, (s, Ok a).
Global Instance M_bind {W} : MBind (M W) := λ A B f m s,
  match m s with
  | (s', Ok a) => f a s'
  | (s', Raise e) => (s', Raise e)
  | (s', OutOfFuel) => (s', OutOfFuel)
  end.

Section walker.
Context `{FileSystem W}.

Definition raise {A} (e : exn) : M W A := λ s, (s, Raise e).

(** [try: body  except Exception as e: handler(e)] *)
Definition try_except {A} (body : M W A) (handler : exn → M W A) : M W A :=
  λ s, match body s with
       | (s', Raise e) => handler e s'
       | r => r
       end.

Definition query {A} (f : W → A) : M W A := λ s, (s, Ok (f (fs s))).

Definition update (f : state W → state W) : M W () := λ s, (f s, Ok ()).

Definition set_fs (w : W) (s : state W) : state W :=
  State w (stdout s) (stack s) (summary s) (errors s) (processed s) (visited s).

Definition effect (f : W → W * option exn) : M W () := λ s,
  match f (fs s) with
  | (w, None) => (set_fs w s, Ok ())
  | (w, Some e) => (set_fs w s, Raise e)
  end.

Definition print (l : line) : M W () := update (λ s,
  State (fs s) (stdout s ++ [l]) (stack s) (summary s) (errors s)
    (processed s) (visited s)).

(** [stack.append(entry)] *)
Definition push (entry : path) : M W () := update (λ s,
  State (fs s) (stdout s) (entry :: stack s) (summary s) (errors s)
    (processed s) (visited s)).

(** [summary[category] += 1] on a [defaultdict(int)] *)
Definition bump (category : string) (m : gmap string nat) : gmap string nat :=
  <[category := S (default 0 (m !! category))]> m.

Definition count (category : string) : M W () := update (λ s,
  State (fs s) (stdout s) (stack s) (bump category (summary s)) (errors s)
    (processed s) (visited s)).

(** [errors.append((p, msg))] *)
Definition record_error (p : path) (msg : string) : M W () := update (λ s,
  State (fs s) (stdout s) (stack s) (summary s) (errors s ++ [(p, msg)])
    (processed s) (visited s)).

(** [processed += 1] *)
Definition inspect : M W () := update (λ s,
  State (fs s) (stdout s) (stack s) (summary s) (errors s)
    (S (processed s)) (visited s)).

Definition unique_target (fuel : nat) (target : path) : M W path := λ s,
  match make_unique_target fuel (fs s) target with
  | Some p => (s, Ok p)
  | None => (s, OutOfFuel)
  end.

Section flags.
Variables (root : path) (dry_run include_hidden follow_symlinks : bool).
Variable fuel : nat.

(** Lines 73-91: a regular file. *)
Definition handle_file (entry : path) : M W () :=
  inspect ;;
  let ext := get_extension_lower entry in
  let category := resolve_category ext in
  let target_dir := root // category in
  effect (λ w, fs_mkdir w target_dir) ;;
  let target_path := target_dir // Path.name entry in
  if dry_run then
    print (DryWouldMove entry target_path) ;;
    count category
  else
    try_except
      (unique_target ← unique_target fuel target_path;
       effect (λ w, fs_move w entry unique_target) ;;
       print (Moved entry unique_target) ;;
       count category)
      (λ e,
         record_error entry (exn_str e) ;;
         print (ErrorMoving entry (exn_str e))).

(** Lines 62-93: the body of the [for] loop. *)
Definition handle_entry (entry : path) : M W () :=
  if negb include_hidden && Py.startswith (Path.name entry) "." then mret ()
  else
    is_link ← query (λ w, fs_is_symlink w entry);
    if is_link && negb follow_symlinks then mret ()
    else
      is_d ← query (λ w, fs_is_dir w entry);
      if (is_d : bool) then
        if bool_decide (Path.name entry ∈ category_dirs) then mret ()
        else push entry
      else
        is_f ← query (λ w, fs_is_file w entry);
        if (is_f : bool) then handle_file entry else mret ().

(** [for entry in entries: ...] *)
Fixpoint for_each (entries : list path) : M W () :=
  match entries with
  | [] => mret ()
  | entry :: rest => handle_entry entry ;; for_each rest
  end.

Definition iterdir (p : path) : M W (list path) := λ s,
  match fs_iterdir (fs s) p with
  | inr entries => (s, Ok entries)
  | inl e => (s, Raise e)
  end.

(** Lines 59-100: one iteration of [while stack], for [current] just
    popped. *)
Definition visit_dir (current : path) : M W () :=
  try_except
    (entries ← iterdir current;
     for_each entries)
    (λ e,
       if is_PermissionError e then
         record_error current ("PermissionError: " +:+ exn_str e) ;;
         print (PermissionErrorAccessing current (exn_str e))
       else
         record_error current (exn_str e) ;;
         print (ErrorReading current (exn_str e))).

(** [current = stack.pop()] *)
Definition pop (current : path) (rest : list path) : M W () := update (λ s,
  State (fs s) (stdout s) rest (summary s) (errors s) (processed s)
    (current :: visited s)).

(** Lines 58-100: [while stack], at most [n] iterations. *)
Fixpoint while_stack (n : nat) : M W () := λ s,
  match stack s with
  | [] => (s, Ok ())
  | current :: rest =>
      match n with
      | 0 => (s, OutOfFuel)
      | S n' => (pop current rest ;; visit_dir current ;; while_stack n') s
      end
  end.

(** Lines 102-111. *)
Definition report : M W () := λ s,
  print (Report root (processed s) (map_to_list (summary s))
           (length (errors s)) (take 10 (errors s))) s.

Definition organize_body : M W () :=
  root_exists ← query (λ w, fs_exists w root);
  root_is_dir ← query (λ w, fs_is_dir w root);
  if negb root_exists || negb root_is_dir then
    raise (ValueError ("Path does not exist or is not a directory: "
                       +:+ Path.str root))
  else
    update (λ s, State (fs s) (stdout s) [root] ∅ [] 0 (visited s)) ;;
    while_stack fuel ;;
    report.
End flags.

Definition init_state (w : W) : state W := State w [] [] ∅ [] 0 [].

(** [organize_iterative(root, dry_run, include_hidden, follow_symlinks)]
    started on the file system [w]; [fuel] bounds every loop. *)
Definition organize_iterative (fuel : nat) (root : path)
    (dry_run include_hidden follow_symlinks : bool) (w : W)
  : state W * outcome () :=
  organize_body root dry_run include_hidden follow_symlinks fuel (init_state w).

End walker.

(** ** An in-memory file system

    A finite map from paths to nodes: regular files, FIFOs (an entry that is
    neither a file nor a directory) and directories with their read and write
    permission.  There are no links.  [[]] is the root directory. *)

Inductive node :=
  | File
  | Fifo
  | Dir (readable writable : bool).

Global Instance node_eq_dec : EqDecision node.
Proof. solve_decision. Defined.

Module SimpleFS.

Abbreviation t := (gmap path node).

Definition is_Dir (n : option node) : bool :=
  match n with Some (Dir _ _) => true | _ => false end.

Definition exists_ (w : t) (p : path) : bool := bool_decide (is_Some (w !! p)).
Definition is_dir (w : t) (p : path) : bool := is_Dir (w !! p).
Definition is_file (w : t) (p : path) : bool :=
  match w !! p with Some File => true | _ => false end.

(** [q] is an entry of the directory [p]. *)
Definition is_child (p q : path) : bool :=
  bool_decide (q ≠ [] ∧ Path.parent q = p).

Definition children (w : t) (p : path) : list path :=
  filter (λ q, is_child p q) (map_to_list w).*1.

Definition errno (no : string) (what : string) (p : path) : string :=
  "[Errno " +:+ no +:+ "] " +:+ what +:+ ": '" +:+ Path.str p +:+ "'".
Definition EACCES := PermissionError ∘ errno "13" "Permission denied".
Definition ENOENT := FileNotFoundError ∘ errno "2" "No such file or directory".
Definition ENOTDIR := OSError ∘ errno "20" "Not a directory".
Definition EEXIST := OSError ∘ errno "17" "File exists".
Definition EISDIR := OSError ∘ errno "21" "Is a directory".
Definition EINVAL := OSError ∘ errno "22" "Invalid argument".

(** [os.listdir(p)] *)
Definition iterdir (w : t) (p : path) : exn + list path :=
  match w !! p with
  | Some (Dir true _) => inr (children w p)
  | Some (Dir false _) => inl (EACCES p)
  | Some _ => inl (ENOTDIR p)
  | None => inl (ENOENT p)
  end.

(** [os.mkdir(p)] *)
Definition os_mkdir (w : t) (p : path) : t * option exn :=
  match w !! p with
  | Some _ => (w, Some (EEXIST p))
  | None =>
      match w !! Path.parent p with
      | Some (Dir _ true) => (<[p := Dir true true]> w, None)
      | Some (Dir _ false) => (w, Some (EACCES p))
      | Some _ => (w, Some (ENOTDIR p))
      | None => (w, Some (ENOENT p))
      end
  end.

(** [Path.mkdir(parents=True, exist_ok=True)]: [os.mkdir]; on
    [FileNotFoundError] the parent is made first (unless the path is its
    own parent) and [os.mkdir] is tried again; any other [OSError] is
    swallowed when the path is a directory.  [depth] bounds the recursion
    on the parent and is the number of components of [p]. *)
Definition exist_ok (r : t * option exn) (p : path) : t * option exn :=
  match r with
  | (w, Some (FileNotFoundError msg)) => (w, Some (FileNotFoundError msg))
  | (w, Some e) => if is_dir w p then (w, None) else (w, Some e)
  | (w, None) => (w, None)
  end.

Fixpoint mkdir_parents (depth : nat) (w : t) (p : path) : t * option exn :=
  match os_mkdir w p with
  | (w', Some (FileNotFoundError msg)) =>
      match depth with
      | 0 => (w', Some (FileNotFoundError msg))
      | S depth' =>
          if bool_decide (Path.parent p = p) then
            (w', Some (FileNotFoundError msg))
          else
            match mkdir_parents depth' w' (Path.parent p) with
            | (w'', None) => exist_ok (os_mkdir w'' p) p
            | r => r
            end
      end
  | r => exist_ok r p
  end.

Definition mkdir (w : t) (p : path) : t * option exn :=
  mkdir_parents (length p) w p.

(** [os.rename(src, dst)] for the calls [shutil.move] makes: [dst] is not a
    directory.  A source other than a directory replaces [dst]; a
    directory is renamed with everything below it, onto a free name
    outside itself. *)
Definition rebase (src dst q : path) : path :=
  if bool_decide (src `prefix_of` q) then dst ++ drop (length src) q else q.

Definition os_rename (w : t) (src dst : path) : t * option exn :=
  match w !! src with
  | None => (w, Some (ENOENT src))
  | Some n =>
      match w !! Path.parent src, w !! Path.parent dst with
      | _, None => (w, Some (ENOENT dst))
      | Some (Dir _ ws), Some (Dir _ wd) =>
          if ws && wd then
            match n with
            | Dir _ _ =>
                if bool_decide (src = dst) then (w, None)
                else if exists_ w dst then (w, Some (ENOTDIR dst))
                else if bool_decide (src `prefix_of` dst) then
                  (w, Some (EINVAL dst))
                else
                  (list_to_map (prod_map (rebase src dst) id <$> map_to_list w),
                   None)
            | _ => (<[dst := n]> (delete src w), None)
            end
          else (w, Some (EACCES dst))
      | _, _ => (w, Some (ENOTDIR dst))
      end
  end.

(** [shutil.move(src, dst)]: into [dst] when that is a directory (and the
    name is free there); [os.rename], and when that is refused, for a
    regular file, [copy2] followed by [os.unlink].  A FIFO cannot be
    copied.  For a directory only the [os.rename] route is modelled: the
    walker moves entries for which [is_file()] holds. *)
Definition move (w : t) (src dst : path) : t * option exn :=
  let real_dst := if is_dir w dst then dst // Path.name src else dst in
  if is_dir w dst && exists_ w real_dst then
    (w, Some (OSError ("Destination path '" +:+ Path.str real_dst
                       +:+ "' already exists")))
  else
    match os_rename w src real_dst with
    | (w', None) => (w', None)
    | (_, Some e) =>
        match w !! src with
        | Some File =>
            match w !! Path.parent real_dst with
            | Some (Dir _ true) =>
                let copied := <[real_dst := File]> w in
                match w !! Path.parent src with
                | Some (Dir _ true) => (delete src copied, None)
                | _ => (copied, Some (EACCES src))
                end
            | Some (Dir _ false) => (w, Some (EACCES real_dst))
            | _ => (w, Some (ENOENT real_dst))
            end
        | Some Fifo =>
            (w, Some (OSError ("`" +:+ Path.str src +:+ "` is a named pipe")))
        | _ => (w, Some e)
        end
    end.

Global Instance file_system : FileSystem t := {|
  fs_exists := exists_;
  fs_is_dir := is_dir;
  fs_is_file := is_file;
  fs_is_symlink := λ _ _, false;
  fs_iterdir := iterdir;
  fs_mkdir := mkdir;
  fs_move := move;
|}.

End SimpleFS.

(** ** The walker as a step relation

    The cases of the loop body, of the [for] loop and of one iteration of
    [while stack], as relations between the state before and after.  They are
    shown below to describe what the functions above compute. *)

Section steps.
Context `{FileSystem W}.
Variables (root : path) (dry_run : bool) (fuel : nat).

(** Where a file goes. *)
Definition target_of (entry : path) : path :=
  root // classify entry // Path.name entry.

(** What one pass of the [for] body does to the state: the cases of
    [handle_entry], read off the code. *)
Inductive entry_step (entry : path) (s : state W)
  : state W → outcome () → Prop :=
  | step_skip :
      entry_step entry s s (Ok ())
  | step_push :
      fs_is_dir (fs s) entry = true →
      Path.name entry ∉ category_dirs →
      entry_step entry s
        (State (fs s) (stdout s) (entry :: stack s) (summary s) (errors s)
           (processed s) (visited s))
        (Ok ())
  | step_mkdir_raise w' e :
      fs_is_file (fs s) entry = true →
      fs_mkdir (fs s) (root // classify entry) = (w', Some e) →
      entry_step entry s
        (State w' (stdout s) (stack s) (summary s) (errors s)
           (S (processed s)) (visited s))
        (Raise e)
  | step_dry w' :
      dry_run = true →
      fs_is_file (fs s) entry = true →
      fs_mkdir (fs s) (root // classify entry) = (w', None) →
      entry_step entry s
        (State w' (stdout s ++ [DryWouldMove entry (target_of entry)])
           (stack s) (bump (classify entry) (summary s)) (errors s)
           (S (processed s)) (visited s))
        (Ok ())
  | step_moved w' unique w'' :
      dry_run = false →
      fs_is_file (fs s) entry = true →
      fs_mkdir (fs s) (root // classify entry) = (w', None) →
      make_unique_target fuel w' (target_of entry) = Some unique →
      fs_move w' entry unique = (w'', None) →
      entry_step entry s
        (State w'' (stdout s ++ [Moved entry unique])
           (stack s) (bump (classify entry) (summary s)) (errors s)
           (S (processed s)) (visited s))
        (Ok ())
  | step_move_error w' unique w'' e :
      dry_run = false →
      fs_is_file (fs s) entry = true →
      fs_mkdir (fs s) (root // classify entry) = (w', None) →
      make_unique_target fuel w' (target_of entry) = Some unique →
      fs_move w' entry unique = (w'', Some e) →
      entry_step entry s
        (State w'' (stdout s ++ [ErrorMoving entry (exn_str e)])
           (stack s) (summary s) (errors s ++ [(entry, exn_str e)])
           (S (processed s)) (visited s))
        (Ok ())
  | step_search_out_of_fuel w' :
      dry_run = false →
      fs_is_file (fs s) entry = true →
      fs_mkdir (fs s) (root // classify entry) = (w', None) →
      make_unique_target fuel w' (target_of entry) = None →
      entry_step entry s
        (State w' (stdout s) (stack s) (summary s) (errors s)
           (S (processed s)) (visited s))
        (OutOfFuel).

(** The [for] loop: the entries are handled in order, until one raises. *)
Inductive entries_step : list path → state W → state W → outcome () → Prop :=
  | entries_done s :
      entries_step [] s s (Ok ())
  | entries_next entry rest s s' s'' o :
      entry_step entry s s' (Ok ()) →
      entries_step rest s' s'' o →
      entries_step (entry :: rest) s s'' o
  | entries_raise entry rest s s' e :
      entry_step entry s s' (Raise e) →
      entries_step (entry :: rest) s s' (Raise e)
  | entries_out_of_fuel entry rest s s' :
      entry_step entry s s' OutOfFuel →
      entries_step (entry :: rest) s s' OutOfFuel.

(** The state after a handler of the outer [try] has run for [e]. *)
Definition caught (current : path) (e : exn) (s : state W) : state W :=
  State (fs s)
    (stdout s ++ [if is_PermissionError e
                  then PermissionErrorAccessing current (exn_str e)
                  else ErrorReading current (exn_str e)])
    (stack s) (summary s)
    (errors s ++ [(current, if is_PermissionError e
                            then "PermissionError: " +:+ exn_str e
                            else exn_str e)])
    (processed s) (visited s).

(** The state after [current = stack.pop()]. *)
Definition popped (current : path) (rest : list path) (s : state W) : state W :=
  State (fs s) (stdout s) rest (summary s) (errors s) (processed s)
    (current :: visited s).

(** One iteration of [while stack], after the pop. *)
Inductive dir_step (current : path) (s : state W)
  : state W → outcome () → Prop :=
  | dir_listing_error e :
      fs_iterdir (fs s) current = inl e →
      dir_step current s (caught current e s) (Ok ())
  | dir_listed entries s' :
      fs_iterdir (fs s) current = inr entries →
      entries_step entries s s' (Ok ()) →
      dir_step current s s' (Ok ())
  | dir_entry_error entries s' e :
      fs_iterdir (fs s) current = inr entries →
      entries_step entries s s' (Raise e) →
      dir_step current s (caught current e s') (Ok ())
  | dir_out_of_fuel entries s' :
      fs_iterdir (fs s) current = inr entries →
      entries_step entries s s' OutOfFuel →
      dir_step current s s' OutOfFuel.

End steps.

(** ** States and predicates of a run *)

Section run_states.
Context `{FileSystem W}.

(** The state in which the loop is entered. *)
Definition start_state (w : W) (root : path) : state W :=
  State w [] [root] ∅ [] 0 [].

(** The state after the summary has been printed. *)
Definition reported (root : path) (s : state W) : state W :=
  State (fs s)
    (stdout s ++ [Report root (processed s) (map_to_list (summary s))
                    (length (errors s)) (take 10 (errors s))])
    (stack s) (summary s) (errors s) (processed s) (visited s).

Definition invalid_root (w : W) (root : path) : Prop :=
  fs_exists w root = false ∨ fs_is_dir w root = false.

Definition invalid_root_error (root : path) : exn :=
  ValueError ("Path does not exist or is not a directory: " +:+ Path.str root).

End run_states.

(** The path a printed line says is (to be) moved. *)
Definition move_source (l : line) : option path :=
  match l with
  | DryWouldMove src _ | Moved src _ | ErrorMoving src _ => Some src
  | _ => None
  end.

Section walk_predicates.
Context `{FileSystem W}.
Variable root : path.

(** A directory the walker may list: the root, or one not named like a
    category. *)
Definition enterable (d : path) : Prop :=
  d = root ∨ Path.name d ∉ category_dirs.

Definition only_enterable (s : state W) : Prop :=
  Forall enterable (stack s) ∧ Forall enterable (visited s).

Definition sources_visited (s : state W) : Prop :=
  ∀ l src, l ∈ stdout s → move_source l = Some src →
           Path.parent src ∈ visited s.

End walk_predicates.

(** The sum of the per-category counts. *)
Definition bucket_total (m : gmap string nat) : nat :=
  map_fold (λ _ count acc, count + acc) 0 m.

Section count_predicates.
Context `{FileSystem W}.

(** The files inspected are those counted in a bucket, those whose failure
    is on the error list, and [slack] more. *)
Definition accounted (slack : nat) (s : state W) : Prop :=
  bucket_total (summary s) ≤ processed s
  ∧ processed s ≤ bucket_total (summary s) + length (errors s) + slack.

Definition slack_of (o : outcome ()) : nat :=
  match o with Ok _ => 0 | _ => 1 end.

End count_predicates.

(** The reading of "the bucket counts sum to the total of files inspected"
    on the final state of a run. *)
Definition buckets_sum_to_total `{FileSystem W} (s : state W) : Prop :=
  bucket_total (summary s) = processed s.

(** The reading of "dry-run has no file-system side effects". *)
Definition leaves_untouched `{FileSystem W} (w : W) (s : state W) : Prop :=
  fs s = w.

Definition strict_prefix (d p : path) : Prop := d `prefix_of` p ∧ d ≠ p.

Section walk_order.
Context `{FileSystem W}.

(** A listing yields distinct children of the directory listed. *)
Definition listing_law : Prop :=
  ∀ (w : W) d entries,
    fs_iterdir w d = inr entries →
    NoDup entries ∧ ∀ entry, entry ∈ entries → ∃ x, entry = d // x.

(** Between iterations: the directories pending and listed are pairwise
    distinct, and nothing pending or listed lies below a pending one. *)
Definition untangled (stack visited : list path) : Prop :=
  NoDup (stack ++ visited)
  ∧ ∀ d p, d ∈ stack → p ∈ stack ++ visited → ¬ strict_prefix d p.

(** Within the iteration for [current]: moreover, what lies below [current]
    are the entries pushed so far, which are among [done]. *)
Definition visiting (current : path) (done stack visited : list path) : Prop :=
  untangled stack visited
  ∧ current ∈ visited
  ∧ ∀ p, p ∈ stack ++ visited → strict_prefix current p →
         p ∈ done ∧ length p = S (length current).

End walk_order.

(** ** Predicates on the in-memory file system *)

(** [w'] is [w] with directories added at prefixes of [p]. *)
Definition grown (p : path) (w w' : gmap path node) : Prop :=
  ∀ q : path, w' !! q = w !! q
       ∨ (w !! q = None ∧ w' !! q = Some (Dir true true) ∧ q `prefix_of` p).

(** Moving a regular file onto a free name leaves every directory as it
    was and removes nothing but the file. *)
Definition same_dirs (w w' : gmap path node) : Prop :=
  ∀ q : path, SimpleFS.is_Dir (w' !! q) = SimpleFS.is_Dir (w !! q).

(** All prefixes of a path. *)
Definition prefixes (p : path) : list path :=
  (λ n, take n p) <$> seq 0 (S (length p)).

Section simple_run_predicates.
Variables (root : path) (w0 : gmap path node).

(** The directories a run can come across: those of the file system it
    started on, and the root with its ancestors. *)
Definition known_dirs : list path := (map_to_list w0).*1 ++ prefixes root.

(** The directories of the current file system are those it started with
    and the category folders (with the directories leading to them). *)
Definition dirs_bounded (w : gmap path node) : Prop :=
  ∀ q : path, SimpleFS.is_Dir (w !! q) = true →
       SimpleFS.is_Dir (w0 !! q) = true
       ∨ ∃ category, category ∈ category_dirs ∧ q `prefix_of` root // category.

Definition simple_inv (s : state (gmap path node)) : Prop :=
  untangled (stack s) (visited s)
  ∧ (∀ d, d ∈ stack s ++ visited s → d ∈ known_dirs)
  ∧ dirs_bounded (fs s).

Definition simple_fs_inv (s : state (gmap path node)) : Prop :=
  (∀ d, d ∈ stack s ++ visited s → d ∈ known_dirs) ∧ dirs_bounded (fs s).

End simple_run_predicates.

(** ** File systems used as examples *)

(** Three photos in one folder. *)
Definition photos : gmap path node :=
  list_to_map
    [ ([], Dir true true); (["pics"], Dir true true);
      (["pics"; "photo.png"], File); (["pics"; "photo_1.png"], File);
      (["pics"; "photo_2.png"], File) ].

(** A taken archive. *)
Definition backups : gmap path node :=
  list_to_map [ ([], Dir true true); (["backup.tar.gz"], File) ].

(** A folder with four files to sort, and an [Images] folder left by an
    earlier run. *)
Definition sample : gmap path node :=
  list_to_map
    [ ([], Dir true true); (["r"], Dir true true);
      (["r"; "a.jpg"], File); (["r"; "b.txt"], File);
      (["r"; "c.unknownext"], File);
      (["r"; "sub"], Dir true true); (["r"; "sub"; "d.mp3"], File);
      (["r"; "Images"], Dir true true); (["r"; "Images"; "old.png"], File) ].

(** A folder with a directory that cannot be listed and one that cannot be
    written to. *)
Definition guarded : gmap path node :=
  list_to_map
    [ ([], Dir true true); (["r"], Dir true true);
      (["r"; "a.jpg"], File);
      (["r"; "secret"], Dir false true); (["r"; "secret"; "x.txt"], File);
      (["r"; "frozen"], Dir true false); (["r"; "frozen"; "d.mp3"], File) ].

(** One picture to sort. *)
Definition inbox : gmap path node :=
  list_to_map
    [ ([], Dir true true); (["r"], Dir true true); (["r"; "a.jpg"], File) ].

(** A regular file that bears the name of a category folder. *)
Definition clash : gmap path node :=
  list_to_map
    [ ([], Dir true true); (["r"], Dir true true);
      (["r"; "Others"], File); (["r"; "a.jpg"], File); (["r"; "b"], File) ].

(** ** Predicates on extensions *)

(** An extension of the shape [PurePath.suffix] returns: a dot followed by
    a non-empty text without a dot. *)
Definition single_suffix (ext : string) : bool :=
  match ext with
  | String "." e => negb (bool_decide (e = "")) && Py.dot_free e
  | _ => false
  end.

(** ** Predicates on the lines of a run *)

(** A move line names a destination in the category folder of its source,
    under the source's own name or a numbered variant of it. *)
Definition lands_in_category (root : path) (l : line) : Prop :=
  match l with
  | DryWouldMove src dst => dst = root // classify src // Path.name src
  | Moved src dst =>
      Path.parent dst = root // classify src
      ∧ (dst = root // classify src // Path.name src
         ∨ ∃ i, 1 ≤ i
                ∧ dst = candidate (root // classify src // Path.name src) i)
  | _ => True
  end.

(** The line reports a file routed to [category]. *)
Definition moved_to (category : string) (l : line) : bool :=
  match l with
  | DryWouldMove src _ | Moved src _ => bool_decide (classify src = category)
  | _ => false
  end.

(** The line reports an error. *)
Definition is_error_line (l : line) : bool :=
  match l with
  | ErrorMoving _ _ | PermissionErrorAccessing _ _ | ErrorReading _ _ => true
  | _ => false
  end.

(** The lines each mode may print. *)
Definition line_of_mode (dry_run : bool) (l : line) : bool :=
  match l with
  | DryWouldMove _ _ => dry_run
  | Moved _ _ | ErrorMoving _ _ => negb dry_run
  | _ => true
  end.

(** [entry.name.startswith(".")] *)
Definition hidden (p : path) : bool := Py.startswith (Path.name p) ".".

(** The summary and the error list say what was printed: a category's count
    is the number of move lines for it, and there is one error line for each
    recorded error. *)
Definition counts_agree {W} (s : state W) : Prop :=
  (∀ category,
     default 0 (summary s !! category)
     = length (filter (λ l, moved_to category l) (stdout s)))
  ∧ length (errors s) = length (filter (λ l, is_error_line l) (stdout s)).

(** ** Predicates on what a run has dealt with *)

(** An entry the walker does not pass over as hidden. *)
Definition taken (include_hidden : bool) (p : path) : bool :=
  include_hidden || negb (hidden p).

(** [s'] is a later state of a run on the in-memory file system than [s]:
    the root is a directory; apart from category folders no directory has
    come or gone; no regular file has appeared in a directory the walker
    may list; the stack and the error list have only grown; and every
    directory is as it was. *)
Definition settled_after (root : path) (s s' : state (gmap path node)) : Prop :=
  SimpleFS.is_Dir (fs s' !! root) = true
  ∧ (∀ (d : path) (x : string),
       x ∉ category_dirs →
       SimpleFS.is_Dir (fs s' !! (d // x)) = SimpleFS.is_Dir (fs s !! (d // x)))
  ∧ (∀ (d : path) (x : string),
       enterable root d →
       fs s' !! (d // x) = Some File → fs s !! (d // x) = Some File)
  ∧ visited s' = visited s
  ∧ stack s `suffix_of` stack s'
  ∧ errors s `prefix_of` errors s'
  ∧ (∀ (q : path) (r wr : bool),
       fs s !! q = Some (Dir r wr) → fs s' !! q = Some (Dir r wr)).

(** The directory [d] has been dealt with: it is a directory that can be
    listed, each of its subdirectories that the walker enters is pending or
    listed, and it holds no regular file that the walker takes. *)
Definition dealt_with (include_hidden : bool) (d : path)
    (s : state (gmap path node)) : Prop :=
  (∃ wr : bool, fs s !! d = Some (Dir true wr))
  ∧ ∀ x : string,
      taken include_hidden (d // x) = true →
      (SimpleFS.is_Dir (fs s !! (d // x)) = true → x ∉ category_dirs →
       d // x ∈ stack s ++ visited s)
      ∧ fs s !! (d // x) ≠ Some File.

(** A state of a run that has found nothing to do so far: the file system
    is [w1] still, the directories pending or listed are among [V], and
    nothing has been counted, recorded or printed. *)
Definition idle (w1 : gmap path node) (V : list path)
    (s : state (gmap path node)) : Prop :=
  fs s = w1
  ∧ (∀ d : path, d ∈ stack s ++ visited s → d ∈ V)
  ∧ processed s = 0
  ∧ summary s = ∅
  ∧ errors s = []
  ∧ stdout s = [].

(** ** Predicates on the moves of a run *)

(** The file a [Moved] line says was moved, and where to. *)
Definition moved_from (l : line) : option path :=
  match l with Moved src _ => Some src | _ => None end.

Definition moved_onto (l : line) : option path :=
  match l with Moved _ dst => Some dst | _ => None end.

(** The moves printed so far are to pairwise distinct places, which hold a
    regular file, and of pairwise distinct files, which were entries of
    directories listed and are regular files no more. *)
Definition moves_apart (s : state (gmap path node)) : Prop :=
  NoDup (omap moved_onto (stdout s))
  ∧ (∀ dst : path, dst ∈ omap moved_onto (stdout s) → fs s !! dst = Some File)
  ∧ NoDup (omap moved_from (stdout s))
  ∧ (∀ src : path,
       src ∈ omap moved_from (stdout s) →
       (∃ (d : path) (x : string), src = d // x ∧ d ∈ visited s)
       ∧ fs s !! src ≠ Some File).

(** * Properties *)

(** ** Strings *)

Lemma str_app_nil_l (s : string) : "" +:+ s = s.
Proof. reflexivity. Qed.

Lemma str_app_cons (a : ascii) (s t : string) :
  String a s +:+ t = String a (s +:+ t).
Proof. reflexivity. Qed.

Lemma str_app_nil_r (s : string) : s +:+ "" = s.
Proof. induction s as [|a s IH]; [done|]. by rewrite str_app_cons, IH. Qed.

Lemma str_app_assoc (s t u : string) : (s +:+ t) +:+ u = s +:+ t +:+ u.
Proof. induction s as [|a s IH]; [done|]. by rewrite !str_app_cons, IH. Qed.

Lemma str_app_length (s t : string) :
  String.length (s +:+ t) = String.length s + String.length t.
Proof. induction s as [|a s IH]; [done|]. rewrite str_app_cons. simpl. lia. Qed.

Lemma str_app_eq_nil (s t : string) : s +:+ t = "" → s = "" ∧ t = "".
Proof. destruct s; [done|]. by rewrite str_app_cons. Qed.

Lemma last_char_app (s t : string) : t ≠ "" → Py.last_char (s +:+ t) = Py.last_char t.
Proof.
  intros Ht. induction s as [|a s IH]; [done|].
  rewrite str_app_cons. simpl. rewrite IH.
  destruct (s +:+ t) eqn:E; [|done]. by apply str_app_eq_nil in E as [_ ?].
Qed.

Lemma last_char_snoc (s : string) (c : ascii) :
  Py.last_char (s +:+ String c "") = Some c.
Proof. by rewrite last_char_app. Qed.

Lemma endswith_unfold (s t : string) :
  Py.endswith s t =
    if bool_decide (s = t) then true
    else match s with
         | EmptyString => false
         | String _ s' => Py.endswith s' t
         end.
Proof. by destruct s. Qed.

Lemma endswith_refl (s : string) : Py.endswith s s = true.
Proof. rewrite endswith_unfold. by rewrite bool_decide_eq_true_2. Qed.

Lemma endswith_spec (s t : string) :
  Py.endswith s t = true ↔ ∃ p, s = p +:+ t.
Proof.
  split.
  - induction s as [|a s IH]; rewrite endswith_unfold;
      case_bool_decide as E; intros Hs.
    + exists "". by subst.
    + done.
    + exists "". by subst.
    + destruct (IH Hs) as [p ->]. by exists (String a p).
  - intros [p ->]. induction p as [|a p IH]; [apply endswith_refl|].
    rewrite str_app_cons, endswith_unfold. case_bool_decide; [done|apply IH].
Qed.

Lemma endswith_last_char (s t : string) :
  Py.endswith s t = true → t ≠ "" → Py.last_char s = Py.last_char t.
Proof. intros [p ->]%endswith_spec ?. by apply last_char_app. Qed.

Lemma str_app_inj_r (s t u : string) : s +:+ u = t +:+ u → s = t.
Proof.
  revert t. induction s as [|a s IH]; intros [|b v];
    rewrite ?str_app_cons, ?str_app_nil_l; intros Hu.
  - done.
  - apply (f_equal String.length) in Hu. simpl in Hu.
    rewrite str_app_length in Hu. lia.
  - apply (f_equal String.length) in Hu. simpl in Hu.
    rewrite str_app_length in Hu. lia.
  - injection Hu as -> Hu. f_equal. by apply IH.
Qed.

Lemma endswith_app_inv (s t u : string) :
  Py.endswith (s +:+ u) (t +:+ u) = true → Py.endswith s t = true.
Proof.
  rewrite !endswith_spec. intros [p Hp]. exists p.
  rewrite <-str_app_assoc in Hp. by apply str_app_inj_r in Hp.
Qed.

Lemma lower_app (s t : string) : Py.lower (s +:+ t) = Py.lower s +:+ Py.lower t.
Proof. induction s as [|a s IH]; [done|]. rewrite !str_app_cons. simpl. by rewrite IH, str_app_cons. Qed.

Lemma lower_length (s : string) : String.length (Py.lower s) = String.length s.
Proof. induction s as [|a s IH]; simpl; congruence. Qed.

Lemma lower_char_idemp (c : ascii) : Py.lower_char (Py.lower_char c) = Py.lower_char c.
Proof. by destruct c as [[] [] [] [] [] [] [] []]. Qed.

Lemma lower_char_dot (c : ascii) : Py.lower_char c = "."%char ↔ c = "."%char.
Proof. destruct c as [[] [] [] [] [] [] [] []]; by vm_compute. Qed.

Lemma lower_idemp (s : string) : Py.lower (Py.lower s) = Py.lower s.
Proof. induction s as [|a s IH]; simpl; [done|]. by rewrite lower_char_idemp, IH. Qed.

Lemma rfind_lower (s : string) : Py.rfind "." (Py.lower s) = Py.rfind "." s.
Proof.
  induction s as [|a s IH]; simpl; [done|]. rewrite IH.
  destruct (Py.rfind "." s); [done|].
  destruct (lower_char_dot a) as [H1 H2].
  do 2 case_bool_decide; auto; exfalso; auto.
Qed.

Lemma slice_from_lower (i : nat) (s : string) :
  Py.slice_from i (Py.lower s) = Py.lower (Py.slice_from i s).
Proof. revert s. induction i as [|i IH]; intros [|a s]; simpl; auto. Qed.

Lemma suffix_of_lower (name : string) :
  Py.suffix_of (Py.lower name) = Py.lower (Py.suffix_of name).
Proof.
  unfold Py.suffix_of, Py.splits_at. rewrite rfind_lower, lower_length.
  destruct (Py.rfind "." name) as [i|]; [|done].
  destruct (_ && _); [apply slice_from_lower|done].
Qed.

(** Where [rfind] lands on a name with a dot-free tail. *)
Lemma rfind_dot_free (s : string) : Py.dot_free s = true → Py.rfind "." s = None.
Proof.
  induction s as [|a s IH]; simpl; [done|].
  intros [Ha Hs]%andb_true_iff. rewrite IH by done.
  by destruct (bool_decide (a = "."%char)).
Qed.

Lemma rfind_split (b e : string) :
  Py.dot_free e = true →
  Py.rfind "." (b +:+ String "." e) = Some (String.length b).
Proof.
  intros He. induction b as [|a b IH].
  - rewrite str_app_nil_l. simpl. by rewrite rfind_dot_free.
  - rewrite str_app_cons. simpl. by rewrite IH.
Qed.

Lemma slice_from_app (b s : string) : Py.slice_from (String.length b) (b +:+ s) = s.
Proof. induction b as [|a b IH]; [by destruct s|]. by rewrite str_app_cons. Qed.

Lemma slice_to_app (b s : string) : Py.slice_to (String.length b) (b +:+ s) = b.
Proof.
  induction b as [|a b IH]; [by destruct s|].
  rewrite str_app_cons. simpl. by rewrite IH.
Qed.

Lemma splits_at_split (b e : string) :
  b ≠ "" → e ≠ "" → Py.dot_free e = true →
  Py.splits_at (b +:+ String "." e) = Some (String.length b).
Proof.
  intros Hb He Hfree. unfold Py.splits_at. rewrite rfind_split by done.
  assert (0 < String.length b) as H1%Nat.ltb_lt
    by (destruct b; [done|simpl; lia]).
  assert (String.length b < String.length (b +:+ String "." e) - 1)
    as H2%Nat.ltb_lt.
  { rewrite str_app_length. destruct e; [done|]. simpl. lia. }
  by rewrite H1, H2.
Qed.

Lemma suffix_of_split (b e : string) :
  b ≠ "" → e ≠ "" → Py.dot_free e = true →
  Py.suffix_of (b +:+ String "." e) = String "." e.
Proof.
  intros. unfold Py.suffix_of. rewrite splits_at_split by done.
  apply slice_from_app.
Qed.

Lemma stem_of_split (b e : string) :
  b ≠ "" → e ≠ "" → Py.dot_free e = true →
  Py.stem_of (b +:+ String "." e) = b.
Proof.
  intros. unfold Py.stem_of. rewrite splits_at_split by done.
  apply slice_to_app.
Qed.

(** The name is always its stem followed by its suffix. *)
Lemma slice_to_from (i : nat) (s : string) :
  Py.slice_to i s +:+ Py.slice_from i s = s.
Proof.
  revert s. induction i as [|i IH]; intros [|a s]; simpl; try done.
  by rewrite str_app_cons, IH.
Qed.

Lemma stem_suffix (name : string) : Py.stem_of name +:+ Py.suffix_of name = name.
Proof.
  unfold Py.stem_of, Py.suffix_of. destruct (Py.splits_at name).
  - apply slice_to_from.
  - apply str_app_nil_r.
Qed.

(** ** The classifier *)

Lemma name_join (d : path) (n : string) : Path.name (d // n) = n.
Proof. unfold Path.name, Path.join. by rewrite last_snoc. Qed.

Lemma parent_join (d : path) (n : string) : Path.parent (d // n) = d.
Proof. unfold Path.parent, Path.join. apply removelast_last. Qed.

Lemma dot_free_app (s t : string) :
  Py.dot_free (s +:+ t) = Py.dot_free s && Py.dot_free t.
Proof.
  induction s as [|a s IH]; [done|].
  rewrite str_app_cons. simpl. by rewrite IH, andb_assoc.
Qed.

Lemma dot_free_lower (s : string) : Py.dot_free (Py.lower s) = Py.dot_free s.
Proof.
  induction s as [|a s IH]; simpl; [done|]. rewrite IH. f_equal. f_equal.
  destruct (lower_char_dot a) as [H1 H2].
  do 2 case_bool_decide; auto; exfalso; auto.
Qed.

Lemma dot_free_not_endswith (s t : string) :
  Py.dot_free s = true → Py.dot_free t = false → Py.endswith s t = false.
Proof.
  intros Hs Ht. apply not_true_is_false. intros [q ->]%endswith_spec.
  rewrite dot_free_app, Ht, andb_false_r in Hs. done.
Qed.

(** The table has no entry for either multi-part extension, so both are
    routed to the default folder. *)
Lemma multi_extensions_unmapped :
  EXT_MAP !! ".tar.gz" = None ∧ EXT_MAP !! "tar.bz2" = None
  ∧ resolve_category ".tar.gz" = "Others".
Proof. by vm_compute. Qed.

(** C1: every file name that ends in ".tar.gz", in any letter case, is
    classified by looking ".tar.gz" up in the extension table, whichever
    order the set of multi-part extensions is scanned in, and not by the
    entry of ".gz" (which is "Archives").  The table has no key ".tar.gz",
    so what the lookup gives is the default, "Others". *)
Theorem tar_gz_takes_precedence (p : path) (pre suf : string) :
  Path.name p = pre +:+ suf →
  Py.lower suf = ".tar.gz" →
  get_extension_lower p = ".tar.gz"
  ∧ get_extension_lower_in ["tar.bz2"; ".tar.gz"] p = ".tar.gz"
  ∧ classify p = resolve_category ".tar.gz"
  ∧ classify p = "Others"
  ∧ resolve_category ".gz" = "Archives"
  ∧ classify p ≠ resolve_category ".gz".
Proof.
  intros Hname Hsuf.
  assert (Py.endswith (Py.lower (Path.name p)) ".tar.gz" = true) as Hgz.
  { apply endswith_spec. exists (Py.lower pre). by rewrite Hname, lower_app, Hsuf. }
  assert (Py.endswith (Py.lower (Path.name p)) "tar.bz2" = false) as Hbz.
  { apply not_true_is_false. intros Hbz.
    apply endswith_last_char in Hgz; [|done].
    apply endswith_last_char in Hbz; [|done].
    rewrite Hgz in Hbz. done. }
  assert (get_extension_lower p = ".tar.gz") as Hext.
  { unfold get_extension_lower, get_extension_lower_in. simpl. by rewrite Hgz. }
  split_and!.
  - done.
  - unfold get_extension_lower_in. simpl. by rewrite Hbz, Hgz.
  - unfold classify. by rewrite Hext.
  - unfold classify. rewrite Hext. by vm_compute.
  - by vm_compute.
  - unfold classify. rewrite Hext. by vm_compute.
Qed.

Lemma tar_gz_takes_precedence_witness :
  classify ["home"; "Backup.TAR.gz"] = resolve_category ".tar.gz".
Proof.
  apply (tar_gz_takes_precedence ["home"; "Backup.TAR.gz"] "Backup" ".TAR.gz").
  - reflexivity.
  - reflexivity.
Defined.

(** C8: category lookup is total: the extracted extension is looked up in
    the table and "Others" is the answer whenever it is absent; a name
    without any dot, such as "README", has the empty extension and resolves
    to "Others". *)
Theorem classify_total (p : path) :
  classify p = match EXT_MAP !! get_extension_lower p with
               | Some category => category
               | None => "Others"
               end
  ∧ (EXT_MAP !! get_extension_lower p = None → classify p = "Others")
  ∧ (Py.dot_free (Path.name p) = true →
     get_extension_lower p = "" ∧ classify p = "Others")
  ∧ classify ["README"] = "Others".
Proof.
  split_and!.
  - done.
  - unfold classify, resolve_category. by intros ->.
  - intros Hfree.
    assert (get_extension_lower p = "") as Hext.
    { unfold get_extension_lower, get_extension_lower_in. simpl.
      rewrite !dot_free_not_endswith by (by rewrite ?dot_free_lower).
      unfold Path.suffix, Py.suffix_of, Py.splits_at.
      by rewrite rfind_dot_free. }
    split; [done|]. unfold classify. by rewrite Hext.
  - by vm_compute.
Qed.

Lemma classify_total_witness :
  get_extension_lower ["docs"; "Makefile"] = ""
  ∧ classify ["docs"; "Makefile"] = "Others".
Proof.
  apply (classify_total ["docs"; "Makefile"]). reflexivity.
Defined.

(** C9: classification does not depend on letter case: a name and its
    lowercased form are put in the same category; "A.JPG" and "a.jpg" are
    both "Images". *)
Theorem classify_case_insensitive (d : path) (name : string) :
  classify (d // Py.lower name) = classify (d // name)
  ∧ classify (d // "A.JPG") = "Images"
  ∧ classify (d // "a.jpg") = "Images".
Proof.
  split_and!.
  - unfold classify, get_extension_lower, get_extension_lower_in, Path.suffix.
    by rewrite !name_join, suffix_of_lower, !lower_idemp.
  - unfold classify, get_extension_lower, get_extension_lower_in, Path.suffix.
    rewrite !name_join. by vm_compute.
  - unfold classify, get_extension_lower, get_extension_lower_in, Path.suffix.
    rewrite !name_join. by vm_compute.
Qed.

(** ** The collision resolver *)

Lemma pretty_N_go_suffix (x : N) (s : string) : ∃ q, pretty_N_go x s = q +:+ s.
Proof.
  revert s. induction (N.lt_wf_0 x) as [x _ IH]; intros s.
  destruct (decide (x = 0)%N) as [->|Hx].
  - exists "". by rewrite pretty_N_go_0.
  - rewrite pretty_N_go_step by lia.
    destruct (IH (x `div` 10)%N) with (s := String (pretty_N_char (x `mod` 10)) s)
      as [q ->]; [apply N.div_lt; lia|].
    exists (q +:+ String (pretty_N_char (x `mod` 10)) ""). by rewrite str_app_assoc.
Qed.

Lemma str_of_int_last (i : nat) :
  Py.last_char (Py.str_of_int i) = Some (pretty_N_char (N.of_nat i `mod` 10)).
Proof.
  unfold Py.str_of_int, pretty, pretty_nat, pretty, pretty_N.
  case_decide as Hi; [by rewrite Hi|].
  rewrite pretty_N_go_step by lia.
  destruct (pretty_N_go_suffix (N.of_nat i `div` 10)
              (String (pretty_N_char (N.of_nat i `mod` 10)) "")) as [q ->].
  apply last_char_snoc.
Qed.

Lemma str_of_int_nonempty (i : nat) : Py.str_of_int i ≠ "".
Proof. intros Hi. pose proof (str_of_int_last i) as H. by rewrite Hi in H. Qed.

Lemma pretty_N_char_not_r (x : N) : pretty_N_char x ≠ "r"%char.
Proof. unfold pretty_N_char. by repeat case_match. Qed.

Lemma candidate_inj (target : path) (i j : nat) :
  candidate target i = candidate target j → i = j.
Proof.
  unfold candidate, Path.join. intros [_ Heq]%app_inj_2; [|done].
  injection Heq as Heq.
  apply (inj (String.app _)), (inj (String.app _)), str_app_inj_r in Heq.
  by apply (inj pretty) in Heq.
Qed.

Section resolver_facts.
Context `{FileSystem W}.
Implicit Types (w : W) (target r : path).

Lemma unique_from_spec fuel w target i r :
  unique_from fuel w target i = Some r ↔
  ∃ k, k < fuel ∧ r = candidate target (i + k)
       ∧ fs_exists w (candidate target (i + k)) = false
       ∧ ∀ j, j < k → fs_exists w (candidate target (i + j)) = true.
Proof.
  revert i. induction fuel as [|fuel IH]; intros i; simpl.
  { split; [done|]. intros (k & ? & _). lia. }
  destruct (fs_exists w (candidate target i)) eqn:Hi; simpl.
  - rewrite IH. split.
    + intros (k & Hk & -> & Hfree & Hbusy). exists (S k).
      rewrite Nat.add_succ_r. split_and!; [lia|done|done|].
      intros [|j] Hj; [by rewrite Nat.add_0_r|].
      rewrite Nat.add_succ_r. apply Hbusy. lia.
    + intros ([|k] & Hk & -> & Hfree & Hbusy).
      { rewrite Nat.add_0_r in Hfree. congruence. }
      exists k. rewrite Nat.add_succ_r in *. split_and!; [lia|done|done|].
      intros j Hj. specialize (Hbusy (S j)). rewrite Nat.add_succ_r in Hbusy.
      apply Hbusy. lia.
  - split.
    + intros [= <-]. exists 0. rewrite Nat.add_0_r.
      split_and!; [lia|done|done|]. intros j Hj. lia.
    + intros ([|k] & Hk & -> & Hfree & Hbusy); [by rewrite Nat.add_0_r|].
      specialize (Hbusy 0). rewrite Nat.add_0_r in Hbusy.
      rewrite Hbusy in Hi by lia. done.
Qed.

(** Whatever the resolver returns did not exist when it looked. *)
Lemma make_unique_target_fresh fuel w target r :
  make_unique_target fuel w target = Some r → fs_exists w r = false.
Proof.
  unfold make_unique_target. destruct (fs_exists w target) eqn:Ht; simpl.
  - intros (k & _ & -> & Hfree & _)%unique_from_spec. done.
  - by intros [= <-].
Qed.

Lemma make_unique_target_shape fuel w target r :
  fs_exists w target = true →
  make_unique_target fuel w target = Some r →
  ∃ i, 1 ≤ i ∧ r = candidate target i.
Proof.
  unfold make_unique_target. intros ->. simpl.
  intros (k & _ & -> & _)%unique_from_spec. exists (1 + k). split; [lia|done].
Qed.

(** More fuel does not change an answer. *)
Lemma make_unique_target_mono fuel fuel' w target r :
  fuel ≤ fuel' →
  make_unique_target fuel w target = Some r →
  make_unique_target fuel' w target = Some r.
Proof.
  unfold make_unique_target. intros Hle. destruct (negb _); [done|].
  rewrite !unique_from_spec. intros (k & Hk & Hrest). exists k.
  split; [lia|done].
Qed.

End resolver_facts.

Lemma unique_from_None `{FileSystem W} fuel (w : W) target i :
  unique_from fuel w target i = None →
  ∀ k, k < fuel → fs_exists w (candidate target (i + k)) = true.
Proof.
  revert i. induction fuel as [|fuel IH]; intros i; simpl; [lia|].
  destruct (fs_exists w (candidate target i)) eqn:Hi; simpl; [|done].
  intros Hnone [|k] Hk; [by rewrite Nat.add_0_r|].
  rewrite Nat.add_succ_r. apply (IH (S i)); [done|lia].
Qed.

(** On a finite file system the search always ends: among more candidates
    than there are entries, one is free. *)
Lemma simple_unique_target_total (w : gmap path node) (target : path) :
  is_Some (make_unique_target (S (size w)) w target).
Proof.
  unfold make_unique_target. destruct (negb _); [by eexists|].
  destruct (unique_from _ _ _ _) as [r|] eqn:Hnone; [by eexists|exfalso].
  pose proof (unique_from_None _ _ _ _ Hnone) as Hbusy.
  set (l := (λ k, candidate target (1 + k)) <$> seq 0 (S (size w))).
  assert (NoDup l) as Hnodup.
  { apply NoDup_fmap_2; [|apply NoDup_seq].
    intros j k Hjk%candidate_inj. lia. }
  assert (list_to_set l ⊆ dom w) as Hsub.
  { intros q [k [-> [_ Hk]%elem_of_seq]]%elem_of_list_to_set%list_elem_of_fmap.
    specialize (Hbusy k ltac:(lia)). simpl in Hbusy.
    apply bool_decide_eq_true in Hbusy. by apply elem_of_dom. }
  apply subseteq_size in Hsub.
  rewrite size_list_to_set, size_dom in Hsub by done.
  unfold l in Hsub. rewrite length_fmap, length_seq in Hsub. lia.
Qed.

(** C4: the resolver returns the path it is given when nothing exists
    there, and otherwise the first of the candidates stem_1 suffix,
    stem_2 suffix, ... (counted from 1 at every call) that does not exist;
    with photo.png, photo_1.png and photo_2.png taken, the answer for
    photo.png is photo_3.png. *)
Theorem make_unique_target_first_free `{FileSystem W}
    (w : W) (target r d : path) (fuel : nat) :
  (make_unique_target fuel w target = Some r ↔
     (fs_exists w target = false ∧ r = target)
     ∨ (fs_exists w target = true
        ∧ ∃ i, 1 ≤ i ≤ fuel
               ∧ r = Path.parent target
                       // (Path.stem target +:+ "_" +:+ Py.str_of_int i
                           +:+ Path.suffix target)
               ∧ fs_exists w r = false
               ∧ ∀ j, 1 ≤ j < i → fs_exists w (candidate target j) = true))
  ∧ (fs_exists w (d // "photo.png") = true →
     fs_exists w (d // "photo_1.png") = true →
     fs_exists w (d // "photo_2.png") = true →
     fs_exists w (d // "photo_3.png") = false →
     3 ≤ fuel →
     make_unique_target fuel w (d // "photo.png") = Some (d // "photo_3.png")).
Proof.
  assert (∀ t q, make_unique_target fuel w t = Some q ↔
     (fs_exists w t = false ∧ q = t)
     ∨ (fs_exists w t = true
        ∧ ∃ i, 1 ≤ i ≤ fuel ∧ q = candidate t i ∧ fs_exists w q = false
               ∧ ∀ j, 1 ≤ j < i → fs_exists w (candidate t j) = true)) as Hspec.
  { intros t q. unfold make_unique_target.
    destruct (fs_exists w t) eqn:Ht; simpl.
    - rewrite unique_from_spec. split.
      + intros (k & Hk & -> & Hfree & Hbusy). right. split; [done|].
        exists (1 + k). split_and!; [lia|lia|done|done|].
        intros j Hj. replace j with (1 + (j - 1)) by lia. apply Hbusy. lia.
      + intros [[? _]|[_ (i & Hi & -> & Hfree & Hbusy)]]; [done|].
        exists (i - 1). replace (1 + (i - 1)) with i by lia.
        split_and!; [lia|done|done|]. intros j Hj. apply Hbusy. lia.
    - split.
      + intros [= <-]. by left.
      + intros [[_ ->]|[? _]]; done. }
  split; [apply Hspec|].
  intros H0 H1 H2 H3 Hfuel. apply Hspec. right. split; [done|].
  assert (∀ i, candidate (d // "photo.png") i
               = d // ("photo_" +:+ Py.str_of_int i +:+ ".png")) as Hcand.
  { intros i. unfold candidate, Path.stem, Path.suffix.
    by rewrite parent_join, name_join. }
  exists 3. rewrite !Hcand. split_and!; [lia|lia|done|done|].
  intros j Hj. rewrite Hcand.
  assert (j = 1 ∨ j = 2) as [-> | ->] by lia; done.
Qed.

Lemma make_unique_target_first_free_witness :
  make_unique_target 5 photos ["pics"; "photo.png"]
  = Some ["pics"; "photo_3.png"].
Proof.
  apply (make_unique_target_first_free photos [] [] ["pics"] 5).
  - reflexivity.
  - reflexivity.
  - reflexivity.
  - reflexivity.
  - lia.
Defined.

Lemma last_char_lower (s : string) :
  Py.last_char (Py.lower s) = Py.lower_char <$> Py.last_char s.
Proof.
  induction s as [|a s IH]; [done|]. simpl. rewrite IH. by destruct s.
Qed.

Lemma lower_digit_not_r (x : N) : Py.lower_char (pretty_N_char x) ≠ "r"%char.
Proof. unfold pretty_N_char. by repeat case_match. Qed.

Lemma numbered_not_tar_gz (b : string) (i : nat) :
  Py.endswith (Py.lower (b +:+ ".tar_" +:+ Py.str_of_int i +:+ ".gz")) ".tar.gz"
  = false.
Proof.
  apply not_true_is_false. rewrite <-!str_app_assoc, lower_app.
  change (Py.lower ".gz") with ".gz".
  change ".tar.gz" with (".tar" +:+ ".gz").
  intros Hend%endswith_app_inv%endswith_last_char; [|done].
  rewrite last_char_lower, last_char_app, str_of_int_last in Hend
    by apply str_of_int_nonempty.
  injection Hend. apply lower_digit_not_r.
Qed.

Lemma numbered_extension (d : path) (b : string) (i : nat) :
  get_extension_lower (d // (b +:+ ".tar_" +:+ Py.str_of_int i +:+ ".gz")) = ".gz".
Proof.
  unfold get_extension_lower, get_extension_lower_in. simpl.
  rewrite name_join, numbered_not_tar_gz.
  assert (Py.endswith
            (Py.lower (b +:+ ".tar_" +:+ Py.str_of_int i +:+ ".gz")) "tar.bz2"
          = false) as ->.
  { apply not_true_is_false. intros Hend%endswith_last_char; [|done].
    rewrite last_char_lower, <-!str_app_assoc, last_char_app in Hend; done. }
  unfold Path.suffix. rewrite name_join, <-!str_app_assoc.
  rewrite (suffix_of_split _ "gz"); try done.
  intros [_ ?]%str_app_eq_nil. by eapply str_of_int_nonempty.
Qed.

(** C10: on a collision the counter goes between the stem and the final
    single suffix of the name, also when the name has a multi-part
    extension: a taken backup.tar.gz becomes backup.tar_1.gz, never
    backup_1.tar.gz, and the new name no longer ends in ".tar.gz". *)
Theorem counter_before_last_suffix `{FileSystem W}
    (w : W) (target r : path) (fuel : nat) (b e : string) :
  (Path.name target = b +:+ String "." e →
   b ≠ "" → e ≠ "" → Py.dot_free e = true →
   fs_exists w target = true →
   make_unique_target fuel w target = Some r →
   ∃ i, 1 ≤ i
        ∧ r = Path.parent target
                // (b +:+ "_" +:+ Py.str_of_int i +:+ String "." e))
  ∧ (Path.name target = b +:+ ".tar.gz" →
     fs_exists w target = true →
     make_unique_target fuel w target = Some r →
     (∃ i, 1 ≤ i
           ∧ r = Path.parent target
                   // (b +:+ ".tar_" +:+ Py.str_of_int i +:+ ".gz")
           ∧ r ≠ Path.parent target
                   // (b +:+ "_" +:+ Py.str_of_int i +:+ ".tar.gz"))
     ∧ Py.endswith (Py.lower (Path.name r)) ".tar.gz" = false
     ∧ get_extension_lower r = ".gz")
  ∧ (fs_exists w ["backup.tar.gz"] = true →
     fs_exists w ["backup.tar_1.gz"] = false →
     make_unique_target (S fuel) w ["backup.tar.gz"] = Some ["backup.tar_1.gz"]).
Proof.
  assert (∀ b' e', Path.name target = b' +:+ String "." e' →
            b' ≠ "" → e' ≠ "" → Py.dot_free e' = true →
            fs_exists w target = true →
            make_unique_target fuel w target = Some r →
            ∃ i, 1 ≤ i
                 ∧ r = Path.parent target
                         // (b' +:+ "_" +:+ Py.str_of_int i +:+ String "." e'))
    as Hgeneral.
  { intros b' e' Hname Hb He Hfree Hex Hr.
    destruct (make_unique_target_shape _ _ _ _ Hex Hr) as (i & Hi & ->).
    exists i. split; [done|]. unfold candidate, Path.stem, Path.suffix.
    by rewrite Hname, stem_of_split, suffix_of_split. }
  split_and!.
  - apply Hgeneral.
  - intros Hname Hex Hr.
    destruct (Hgeneral (b +:+ ".tar") "gz") as (i & Hi & ->); try done.
    { by rewrite str_app_assoc. }
    { by intros [_ ?]%str_app_eq_nil. }
    assert ((b +:+ ".tar") +:+ "_" +:+ Py.str_of_int i +:+ String "." "gz"
            = b +:+ ".tar_" +:+ Py.str_of_int i +:+ ".gz") as ->
      by (by rewrite !str_app_assoc).
    split_and!.
    + exists i. split_and!; [done..|].
      unfold Path.join. intros Heq%app_inv_head.
      injection Heq as Heq%(inj (String.app _)). done.
    + rewrite name_join. apply numbered_not_tar_gz.
    + apply numbered_extension.
  - intros Hex Hfree. unfold make_unique_target. rewrite Hex. simpl.
    change (candidate ["backup.tar.gz"] 1) with ["backup.tar_1.gz"].
    by rewrite Hfree.
Qed.

Lemma counter_before_last_suffix_witness :
  Py.endswith (Py.lower (Path.name ["backup.tar_1.gz"])) ".tar.gz" = false
  ∧ get_extension_lower ["backup.tar_1.gz"] = ".gz".
Proof.
  apply (counter_before_last_suffix backups ["backup.tar.gz"]
           ["backup.tar_1.gz"] 4 "backup" "gz").
  - reflexivity.
  - reflexivity.
  - reflexivity.
Defined.

(** ** The walker, step by step *)

Ltac simpl_state :=
  cbn [fs stdout stack summary errors processed visited fst snd].

Section walker_steps.
Context `{FileSystem W}.
Variables (root : path) (dry_run include_hidden follow_symlinks : bool).
Variable fuel : nat.
Implicit Types (s : state W) (entry current : path).

Local Abbreviation handle_file := (handle_file root dry_run fuel).
Local Abbreviation handle_entry :=
  (handle_entry root dry_run include_hidden follow_symlinks fuel).
Local Abbreviation for_each :=
  (for_each root dry_run include_hidden follow_symlinks fuel).
Local Abbreviation visit_dir :=
  (visit_dir root dry_run include_hidden follow_symlinks fuel).
Local Abbreviation while_stack :=
  (while_stack root dry_run include_hidden follow_symlinks fuel).
Local Abbreviation target_of := (target_of root).
Local Abbreviation entry_step := (entry_step root dry_run fuel).
Local Abbreviation entries_step := (entries_step root dry_run fuel).
Local Abbreviation dir_step := (dir_step root dry_run fuel).

Lemma state_eta s :
  State (fs s) (stdout s) (stack s) (summary s) (errors s) (processed s)
    (visited s) = s.
Proof. by destruct s. Qed.

Lemma handle_file_step entry s :
  fs_is_file (fs s) entry = true →
  entry_step entry s (handle_file entry s).1 (handle_file entry s).2.
Proof.
  intros Hfile.
  unfold handle_file, try_except, unique_target, mbind, M_bind, inspect,
    effect, print, count, record_error, update, set_fs.
  fold (classify entry). fold (target_of entry). simpl_state.
  destruct (fs_mkdir (fs s) (root // classify entry)) as [w' [e|]] eqn:Hmk;
    simpl_state.
  { by eapply step_mkdir_raise. }
  destruct dry_run eqn:Hdry; simpl_state.
  { by eapply step_dry. }
  destruct (make_unique_target fuel w' (target_of entry)) as [unique|] eqn:Huniq;
    simpl_state.
  2: { by eapply step_search_out_of_fuel. }
  destruct (fs_move w' entry unique) as [w'' [e|]] eqn:Hmv; simpl_state.
  - by eapply step_move_error.
  - by eapply step_moved.
Qed.

Lemma handle_entry_step entry s :
  entry_step entry s (handle_entry entry s).1 (handle_entry entry s).2.
Proof.
  unfold handle_entry, mbind, M_bind, query, mret, M_ret.
  destruct (negb include_hidden && _); simpl_state; [constructor|].
  destruct (fs_is_symlink (fs s) entry && _); simpl_state; [constructor|].
  destruct (fs_is_dir (fs s) entry) eqn:Hdir; simpl_state.
  - case_bool_decide; simpl_state; [constructor|].
    unfold push, update. simpl_state. by constructor.
  - destruct (fs_is_file (fs s) entry) eqn:Hfile; simpl_state; [|constructor].
    by apply handle_file_step.
Qed.

Lemma for_each_cons entry rest :
  for_each (entry :: rest) = (handle_entry entry ;; for_each rest).
Proof. reflexivity. Qed.

Lemma for_each_step entries s :
  entries_step entries s (for_each entries s).1 (for_each entries s).2.
Proof.
  revert s. induction entries as [|entry rest IH]; intros s.
  { constructor. }
  pose proof (handle_entry_step entry s) as Hstep.
  rewrite for_each_cons. unfold mbind, M_bind.
  destruct (handle_entry entry s) as [s' [[]|e|]]; cbn [fst snd] in *.
  - eapply entries_next; [done|apply IH].
  - by apply entries_raise.
  - by apply entries_out_of_fuel.
Qed.

Lemma handler_caught current e s :
  (if is_PermissionError e then
     record_error current ("PermissionError: " +:+ exn_str e) ;;
     print (PermissionErrorAccessing current (exn_str e))
   else
     record_error current (exn_str e) ;;
     print (ErrorReading current (exn_str e))) s
  = (caught current e s, Ok ()).
Proof. by destruct e. Qed.

Lemma listing_bind current s :
  (entries ← iterdir current; for_each entries) s =
    match fs_iterdir (fs s) current with
    | inl e => (s, Raise e)
    | inr entries => for_each entries s
    end.
Proof. unfold mbind, M_bind, iterdir. by destruct (fs_iterdir _ _). Qed.

Lemma visit_dir_step current s :
  dir_step current s (visit_dir current s).1 (visit_dir current s).2.
Proof.
  unfold visit_dir, try_except. rewrite listing_bind.
  destruct (fs_iterdir (fs s) current) as [e|entries] eqn:Hls.
  { rewrite handler_caught. by apply dir_listing_error. }
  pose proof (for_each_step entries s) as Hstep.
  destruct (for_each entries s) as [s' [[]|e|]]; cbn [fst snd] in *.
  - by eapply dir_listed.
  - rewrite handler_caught. by eapply dir_entry_error.
  - by eapply dir_out_of_fuel.
Qed.

(** No exception leaves an iteration of the loop. *)
Lemma visit_dir_never_raises current s e : (visit_dir current s).2 ≠ Raise e.
Proof.
  intros Hraise. pose proof (visit_dir_step current s) as Hstep.
  rewrite Hraise in Hstep. inversion Hstep.
Qed.

Lemma while_stack_nil n s : stack s = [] → while_stack n s = (s, Ok ()).
Proof. intros Hs. destruct n; simpl; by rewrite Hs. Qed.

Lemma while_stack_0 current rest s :
  stack s = current :: rest → while_stack 0 s = (s, OutOfFuel).
Proof. intros Hs. simpl. by rewrite Hs. Qed.

Lemma while_stack_S n current rest s :
  stack s = current :: rest →
  while_stack (S n) s =
    match visit_dir current (popped current rest s) with
    | (s', Ok _) => while_stack n s'
    | (s', Raise e) => (s', Raise e)
    | (s', OutOfFuel) => (s', OutOfFuel)
    end.
Proof. intros Hs. cbn -[visit_dir]. by rewrite Hs. Qed.

(** What holds before the loop and is kept by every iteration holds when the
    loop is left. *)
Lemma while_stack_invariant (I : state W → Prop) :
  (∀ current rest s s' o,
     I s → stack s = current :: rest →
     dir_step current (popped current rest s) s' o → I s') →
  ∀ n s, I s → I (while_stack n s).1.
Proof.
  intros Hkeep n. induction n as [|n IH]; intros s Hs.
  { destruct (stack s) eqn:E;
      [by rewrite while_stack_nil|by erewrite while_stack_0]. }
  destruct (stack s) as [|current rest] eqn:E; [by rewrite while_stack_nil|].
  rewrite (while_stack_S _ _ _ _ E).
  pose proof (visit_dir_step current (popped current rest s)) as Hstep.
  destruct (visit_dir current (popped current rest s)) as [s' [[]|e|]];
    cbn [fst snd] in *; eauto.
Qed.

(** The loop ends with an empty stack or out of fuel, never by raising. *)
Lemma while_stack_outcome n s :
  ((while_stack n s).2 = Ok () ∧ stack (while_stack n s).1 = [])
  ∨ (while_stack n s).2 = OutOfFuel.
Proof.
  revert s. induction n as [|n IH]; intros s.
  { destruct (stack s) eqn:E.
    - rewrite while_stack_nil by done. by left.
    - erewrite while_stack_0 by done. by right. }
  destruct (stack s) as [|current rest] eqn:E.
  { rewrite while_stack_nil by done. by left. }
  rewrite (while_stack_S _ _ _ _ E).
  pose proof (visit_dir_never_raises current (popped current rest s)) as Hnr.
  destruct (visit_dir current (popped current rest s)) as [s' [[]|e|]];
    cbn [fst snd] in *.
  - apply IH.
  - by destruct (Hnr e).
  - by right.
Qed.

End walker_steps.

(** ** The whole run *)

Section run.
Context `{FileSystem W}.
Implicit Types (w : W) (s : state W) (root : path).

Lemma organize_invalid fuel root dry hid sym w :
  invalid_root w root →
  organize_iterative fuel root dry hid sym w
  = (init_state w, Raise (invalid_root_error root)).
Proof.
  unfold organize_iterative, organize_body, mbind, M_bind, query.
  cbn [fs init_state].
  intros [-> | ->]; [done|]. by rewrite orb_true_r.
Qed.

Lemma organize_valid fuel root dry hid sym w :
  fs_exists w root = true → fs_is_dir w root = true →
  organize_iterative fuel root dry hid sym w =
    match while_stack root dry hid sym fuel fuel (start_state w root) with
    | (s, Ok _) => (reported root s, Ok ())
    | (s, Raise e) => (s, Raise e)
    | (s, OutOfFuel) => (s, OutOfFuel)
    end.
Proof.
  unfold organize_iterative, organize_body, mbind, M_bind, query, update.
  cbn [fs init_state stdout visited]. intros -> ->. cbn [negb orb].
  fold (start_state w root).
  by destruct (while_stack _ _ _ _ _ _ _) as [s [[]|e|]].
Qed.

Lemma valid_or_invalid w root :
  (fs_exists w root = true ∧ fs_is_dir w root = true) ∨ invalid_root w root.
Proof.
  unfold invalid_root.
  destruct (fs_exists w root), (fs_is_dir w root); auto.
Qed.

(** C6: when the root does not exist or is not a directory, the run fails
    with the one error the program raises itself, before anything is listed,
    printed, created or moved: the file system is the one it was given.
    No other exception ever leaves the run. *)
Theorem invalid_root_rejected (w : W) (root : path)
    (dry_run include_hidden follow_symlinks : bool) (fuel : nat) :
  (invalid_root w root →
   let run := organize_iterative fuel root dry_run include_hidden
                follow_symlinks w in
   run.2 = Raise (invalid_root_error root)
   ∧ fs run.1 = w ∧ visited run.1 = [] ∧ stdout run.1 = []
   ∧ processed run.1 = 0)
  ∧ (∀ e, (organize_iterative fuel root dry_run include_hidden
             follow_symlinks w).2 = Raise e →
          invalid_root w root ∧ e = invalid_root_error root).
Proof.
  split.
  - intros Hbad. by rewrite organize_invalid.
  - intros e. destruct (valid_or_invalid w root) as [[Hex Hdir]|Hbad].
    + rewrite organize_valid by done.
      destruct (while_stack_outcome root dry_run include_hidden
                  follow_symlinks fuel fuel (start_state w root)) as [[Ho _]|Ho];
        destruct (while_stack _ _ _ _ _ _ _) as [s [[]|e'|]]; by simpl in *.
    + rewrite organize_invalid by done. by intros [= <-].
Qed.

End run.

Lemma invalid_root_rejected_witness :
  (organize_iterative 3 ["missing"] false true true photos).2
  = Raise (invalid_root_error ["missing"])
  ∧ fs (organize_iterative 3 ["missing"] false true true photos).1 = photos.
Proof.
  destruct (invalid_root_rejected photos ["missing"] false true true 3)
    as [Hrejected _].
  destruct Hrejected as (Hraise & Hfs & _).
  - left. reflexivity.
  - split; [exact Hraise|exact Hfs].
Defined.

(** ** Category folders are not entered *)

Lemma category_dirs_elements :
  elements category_dirs
  = ["Others"; "Code"; "Images"; "Audio"; "Archives"; "Video"; "Documents"].
Proof. vm_compute. reflexivity. Qed.

Lemma category_dirs_labels (n : string) :
  n ∈ category_dirs ↔
  n ∈ ["Images"; "Documents"; "Audio"; "Video"; "Archives"; "Code"; "Others"].
Proof.
  rewrite <-elem_of_elements, category_dirs_elements.
  rewrite !elem_of_cons, !elem_of_nil. tauto.
Qed.

Lemma classify_in_category_dirs (p : path) : classify p ∈ category_dirs.
Proof.
  unfold classify, resolve_category.
  destruct (EXT_MAP !! get_extension_lower p) as [c|] eqn:Hc.
  - change (c ∈ category_dirs). unfold category_dirs.
    apply elem_of_union_l, elem_of_list_to_set, list_elem_of_fmap.
    exists (get_extension_lower p, c). split; [done|].
    by apply elem_of_map_to_list.
  - change ("Others" ∈ category_dirs). unfold category_dirs.
    apply elem_of_union_r. by apply elem_of_singleton.
Qed.

Section skip.
Context `{FileSystem W}.
Variables (root : path) (dry_run include_hidden follow_symlinks : bool).
Variable fuel : nat.
Implicit Types (s : state W) (entry current d : path).

Local Abbreviation entry_step := (entry_step root dry_run fuel).
Local Abbreviation entries_step := (entries_step root dry_run fuel).
Local Abbreviation dir_step := (dir_step root dry_run fuel).
Local Abbreviation enterable := (enterable root).
Local Abbreviation only_enterable := (only_enterable root).

Lemma category_dir_skipped s entry :
  fs_is_dir (fs s) entry = true →
  Path.name entry ∈ category_dirs →
  handle_entry root dry_run include_hidden follow_symlinks fuel entry s
  = (s, Ok ()).
Proof.
  intros Hdir Hcat. unfold handle_entry, mbind, M_bind, query, mret, M_ret.
  destruct (negb include_hidden && _); [done|].
  destruct (fs_is_symlink (fs s) entry && _); [done|].
  rewrite Hdir. by rewrite bool_decide_eq_true_2.
Qed.

(** The only change a pass of the [for] body makes to the work-list is to
    push its entry, a directory not named like a category; it never touches
    the history. *)
Lemma entry_step_stack entry s s' o :
  entry_step entry s s' o →
  visited s' = visited s
  ∧ (stack s' = stack s
     ∨ (stack s' = entry :: stack s
        ∧ fs_is_dir (fs s) entry = true
        ∧ Path.name entry ∉ category_dirs)).
Proof. destruct 1; simpl; auto. Qed.

Lemma entries_step_stack entries s s' o :
  entries_step entries s s' o →
  visited s' = visited s
  ∧ ∃ pushed, stack s' = pushed ++ stack s
              ∧ Forall (λ c, c ∈ entries ∧ Path.name c ∉ category_dirs) pushed.
Proof.
  induction 1 as [s|entry rest s s' s'' o Hstep _ (Hv & pushed & Hst & Hall)
                  |entry rest s s' e Hstep|entry rest s s' Hstep].
  - split; [done|]. by exists [].
  - destruct (entry_step_stack _ _ _ _ Hstep) as [Hv' Hst'].
    split; [congruence|].
    assert (Forall (λ c, c ∈ entry :: rest ∧ Path.name c ∉ category_dirs) pushed).
    { eapply Forall_impl; [done|]. intros c [??]. split; [by right|done]. }
    destruct Hst' as [Hst'|(Hst' & _ & Hname)].
    + exists pushed. by rewrite Hst, Hst'.
    + exists (pushed ++ [entry]). rewrite Hst, Hst', <-app_assoc. split; [done|].
      apply Forall_app. split; [done|]. apply Forall_singleton.
      split; [by left|done].
  - destruct (entry_step_stack _ _ _ _ Hstep) as [Hv' Hst'].
    split; [done|]. destruct Hst' as [Hst'|(Hst' & _ & Hname)].
    + by exists [].
    + exists [entry]. split; [done|]. apply Forall_singleton. split; [by left|done].
  - destruct (entry_step_stack _ _ _ _ Hstep) as [Hv' Hst'].
    split; [done|]. destruct Hst' as [Hst'|(Hst' & _ & Hname)].
    + by exists [].
    + exists [entry]. split; [done|]. apply Forall_singleton. split; [by left|done].
Qed.

Lemma dir_step_stack current s s' o :
  dir_step current s s' o →
  visited s' = visited s
  ∧ ∃ pushed, stack s' = pushed ++ stack s
              ∧ Forall (λ c, Path.name c ∉ category_dirs) pushed.
Proof.
  assert (∀ entries pushed : list path,
            Forall (λ c, c ∈ entries ∧ Path.name c ∉ category_dirs) pushed →
            Forall (λ c, Path.name c ∉ category_dirs) pushed) as Hweaken.
  { intros entries pushed Hall. eapply Forall_impl; [done|]. by intros c [_ ?]. }
  destruct 1 as [e Hls|entries s' Hls Hstep|entries s' e Hls Hstep
                 |entries s' Hls Hstep]; simpl.
  - split; [done|]. by exists [].
  - destruct (entries_step_stack _ _ _ _ Hstep) as (? & pushed & ? & ?). eauto.
  - destruct (entries_step_stack _ _ _ _ Hstep) as (? & pushed & ? & ?). eauto.
  - destruct (entries_step_stack _ _ _ _ Hstep) as (? & pushed & ? & ?). eauto.
Qed.

Lemma only_enterable_kept current rest s s' o :
  only_enterable s → stack s = current :: rest →
  dir_step current (popped current rest s) s' o → only_enterable s'.
Proof.
  intros [Hst Hv] Hs Hstep. rewrite Hs in Hst. apply Forall_cons in Hst as [Hc Hrest].
  destruct (dir_step_stack _ _ _ _ Hstep) as (Hv' & pushed & Hst' & Hpushed).
  simpl in *. split.
  - rewrite Hst'. apply Forall_app. split; [|done].
    eapply Forall_impl; [done|]. intros c ?. by right.
  - rewrite Hv'. by apply Forall_cons.
Qed.

(** Lines about a move name an entry of a directory that was listed. *)
Hypothesis listing_children : ∀ (w : W) d entries entry,
  fs_iterdir w d = inr entries → entry ∈ entries → Path.parent entry = d.

Lemma entry_step_sources entry s s' o :
  entry_step entry s s' o → Path.parent entry ∈ visited s →
  sources_visited s → sources_visited s'.
Proof.
  intros Hstep Hentry Hs.
  destruct Hstep; try done; intros l src; simpl;
    rewrite ?elem_of_app, ?list_elem_of_singleton;
    (intros [Hl| ->]; [by apply Hs|]); by intros [= <-].
Qed.

Lemma entries_step_sources entries s s' o :
  entries_step entries s s' o →
  (∀ entry, entry ∈ entries → Path.parent entry ∈ visited s) →
  sources_visited s → sources_visited s'.
Proof.
  induction 1 as [s|entry rest s s' s'' o Hstep _ IH
                  |entry rest s s' e Hstep|entry rest s s' Hstep];
    intros Hentries Hs; [done|..].
  - apply IH.
    + intros c Hc. rewrite (proj1 (entry_step_stack _ _ _ _ Hstep)).
      apply Hentries. by right.
    + eapply entry_step_sources; [done| |done]. apply Hentries. by left.
  - eapply entry_step_sources; [done| |done]. apply Hentries. by left.
  - eapply entry_step_sources; [done| |done]. apply Hentries. by left.
Qed.

Lemma sources_visited_kept current rest s s' o :
  sources_visited s →
  dir_step current (popped current rest s) s' o → sources_visited s'.
Proof.
  intros Hs Hstep.
  assert (sources_visited (popped current rest s)) as Hpopped.
  { intros l src Hl Hsrc. simpl. right. by eapply Hs. }
  assert (∀ entries entry, fs_iterdir (fs s) current = inr entries →
            entry ∈ entries →
            Path.parent entry ∈ visited (popped current rest s)) as Hparent.
  { intros entries entry Hls Hin. simpl.
    rewrite (listing_children _ _ _ _ Hls Hin). by left. }
  assert (∀ e s1, sources_visited s1 →
            sources_visited (caught current e s1)) as Hcaught.
  { intros e s1 Hs1 l src. simpl. rewrite elem_of_app, list_elem_of_singleton.
    intros [Hl| ->]; [by apply Hs1|]. by destruct (is_PermissionError e). }
  inversion Hstep; subst; simpl in *; eauto using entries_step_sources.
Qed.

End skip.

Section run_invariants.
Context `{FileSystem W}.
Variables (root : path) (dry_run include_hidden follow_symlinks : bool).
Variables (fuel : nat) (w : W).

Local Abbreviation final :=
  (organize_iterative fuel root dry_run include_hidden follow_symlinks w).1.

(** A property of the state that holds before the root check, when the
    loop is entered, after every iteration and after the report holds at the
    end of the run. *)
Lemma organize_invariant (I : state W → Prop) :
  I (init_state w) →
  I (start_state w root) →
  (∀ current rest s s' o,
     I s → stack s = current :: rest →
     dir_step root dry_run fuel current (popped current rest s) s' o → I s') →
  (∀ s, I s → I (reported root s)) →
  I final.
Proof.
  intros Hinit Hstart Hkeep Hreport.
  destruct (valid_or_invalid w root) as [[Hex Hdir]|Hbad].
  - rewrite organize_valid by done.
    pose proof (while_stack_invariant root dry_run include_hidden
                  follow_symlinks fuel I Hkeep fuel _ Hstart) as Hloop.
    destruct (while_stack _ _ _ _ _ _ _) as [s [[]|e|]]; simpl in *; auto.
  - by rewrite organize_invalid.
Qed.

End run_invariants.

(** C5: a directory entry named like a category ("Images", "Documents",
    "Audio", "Video", "Archives", "Code" or "Others") is skipped: handling it
    changes nothing, so it is not pushed; every directory the run has listed
    or still holds on its work-list is the root or is not named like a
    category; and, where a listing yields the children of the directory
    listed, every file the run moves (or would move) lies directly in such a
    directory, never in a category folder. *)
Theorem category_folders_skipped `{FileSystem W} (w : W) (root : path)
    (dry_run include_hidden follow_symlinks : bool) (fuel : nat) :
  let final :=
    (organize_iterative fuel root dry_run include_hidden follow_symlinks w).1 in
  (∀ s entry,
     fs_is_dir (fs s) entry = true →
     Path.name entry ∈ category_dirs →
     handle_entry root dry_run include_hidden follow_symlinks fuel entry s
     = (s, Ok ()))
  ∧ (∀ n, n ∈ category_dirs ↔
          n ∈ ["Images"; "Documents"; "Audio"; "Video"; "Archives"; "Code";
               "Others"])
  ∧ (∀ d, d ∈ visited final ∨ d ∈ stack final →
          d = root ∨ Path.name d ∉ category_dirs)
  ∧ ((∀ w' d entries entry,
        fs_iterdir w' d = inr entries → entry ∈ entries →
        Path.parent entry = d) →
     ∀ l src, l ∈ stdout final → move_source l = Some src →
              Path.parent src = root
              ∨ Path.name (Path.parent src) ∉ category_dirs).
Proof.
  intros final.
  assert (only_enterable root final) as [Hstack Hvisited].
  { apply organize_invariant.
    - split; apply Forall_nil_2.
    - split; [|apply Forall_nil_2]. apply Forall_singleton. by left.
    - apply only_enterable_kept.
    - by intros s [??]. }
  split_and!.
  - intros s entry. apply category_dir_skipped.
  - apply category_dirs_labels.
  - rewrite Forall_forall in Hstack, Hvisited.
    intros d [Hd|Hd]; [by apply Hvisited|by apply Hstack].
  - intros Hchildren l src Hl Hsrc.
    assert (sources_visited final) as Hsources.
    { apply organize_invariant.
      - by intros ?? ?%elem_of_nil.
      - by intros ?? ?%elem_of_nil.
      - intros current rest s s' o Hs _. by eapply sources_visited_kept.
      - intros s Hs l' src'. simpl. rewrite elem_of_app, list_elem_of_singleton.
        intros [Hl'| ->]; [by apply Hs|done]. }
    rewrite Forall_forall in Hvisited. eapply Hvisited, Hsources; done.
Qed.

Lemma category_folders_skipped_witness :
  handle_entry ["r"] false true true 9 ["r"; "Images"] (start_state sample ["r"])
  = (start_state sample ["r"], Ok ()).
Proof.
  apply (category_folders_skipped sample ["r"] false true true 9).
  - reflexivity.
  - apply category_dirs_labels. by left.
Defined.

(** ** Counting *)

Lemma bucket_total_insert (c : string) (x : nat) (m : gmap string nat) :
  m !! c = None → bucket_total (<[c := x]> m) = x + bucket_total m.
Proof.
  intros Hc. unfold bucket_total. rewrite map_fold_insert_L; [done| |done].
  intros. lia.
Qed.

Lemma bucket_total_empty : bucket_total ∅ = 0.
Proof. unfold bucket_total. by rewrite map_fold_empty. Qed.

Lemma bucket_total_bump (c : string) (m : gmap string nat) :
  bucket_total (bump c m) = S (bucket_total m).
Proof.
  unfold bump. destruct (m !! c) as [v|] eqn:Hc; simpl.
  - rewrite <-insert_delete_eq.
    rewrite <-(insert_delete_id m c v) at 2 by done.
    rewrite !bucket_total_insert by apply lookup_delete_eq. done.
  - by rewrite bucket_total_insert.
Qed.

Lemma bump_other (c c' : string) (m : gmap string nat) :
  c' ≠ c → bump c m !! c' = m !! c'.
Proof. intros Hne. unfold bump. by rewrite lookup_insert_ne. Qed.

Lemma bump_lookup (c : string) (m : gmap string nat) :
  bump c m !! c = Some (S (default 0 (m !! c))).
Proof. unfold bump. by rewrite lookup_insert_eq. Qed.

Section counting.
Context `{FileSystem W}.
Variables (root : path) (dry_run include_hidden follow_symlinks : bool).
Variable fuel : nat.
Implicit Types (s : state W) (entry current : path).

Local Abbreviation entry_step := (entry_step root dry_run fuel).
Local Abbreviation entries_step := (entries_step root dry_run fuel).
Local Abbreviation dir_step := (dir_step root dry_run fuel).

(** A pass of the [for] body inspects at most one file and adds at most one
    to the summary, to the bucket of the entry's category. *)
Lemma entry_step_counts entry s s' o :
  entry_step entry s s' o →
  (summary s' = summary s ∧ processed s ≤ processed s' ≤ S (processed s))
  ∨ (summary s' = bump (classify entry) (summary s)
     ∧ processed s' = S (processed s)).
Proof. destruct 1; simpl; auto with lia. Qed.

Lemma entry_step_accounted entry s s' o :
  entry_step entry s s' o → accounted 0 s → accounted (slack_of o) s'.
Proof.
  unfold accounted.
  destruct 1; simpl; rewrite ?bucket_total_bump, ?length_app; simpl; lia.
Qed.

Lemma entries_step_accounted entries s s' o :
  entries_step entries s s' o → accounted 0 s → accounted (slack_of o) s'.
Proof.
  induction 1 as [s|entry rest s s' s'' o Hstep _ IH
                  |entry rest s s' e Hstep|entry rest s s' Hstep]; intros Hs.
  - done.
  - apply IH. by apply (entry_step_accounted _ _ _ _ Hstep).
  - by apply (entry_step_accounted _ _ _ _ Hstep).
  - by apply (entry_step_accounted _ _ _ _ Hstep).
Qed.

Lemma caught_accounted current e s :
  accounted 1 s → accounted 0 (caught current e s).
Proof. unfold accounted. simpl. rewrite length_app. simpl. lia. Qed.

Lemma accounted_weaken s : accounted 0 s → accounted 1 s.
Proof. unfold accounted. lia. Qed.

Lemma dir_step_accounted current s s' o :
  dir_step current s s' o → accounted 0 s → accounted (slack_of o) s'.
Proof.
  destruct 1 as [e Hls|entries s' Hls Hstep|entries s' e Hls Hstep
                 |entries s' Hls Hstep]; intros Hs.
  - by apply caught_accounted, accounted_weaken.
  - by apply (entries_step_accounted _ _ _ _ Hstep).
  - by apply caught_accounted, (entries_step_accounted _ _ _ _ Hstep).
  - by apply (entries_step_accounted _ _ _ _ Hstep).
Qed.

Lemma while_stack_accounted n s :
  accounted 0 s →
  accounted
    (slack_of (while_stack root dry_run include_hidden follow_symlinks fuel n s).2)
    (while_stack root dry_run include_hidden follow_symlinks fuel n s).1.
Proof.
  revert s. induction n as [|n IH]; intros s Hs.
  { destruct (stack s) eqn:E.
    - by rewrite while_stack_nil.
    - erewrite while_stack_0 by done. by apply accounted_weaken. }
  destruct (stack s) as [|current rest] eqn:E; [by rewrite while_stack_nil|].
  rewrite (while_stack_S _ _ _ _ _ _ _ _ _ E).
  pose proof (visit_dir_step root dry_run include_hidden follow_symlinks fuel
                current (popped current rest s)) as Hstep.
  apply dir_step_accounted in Hstep; [|done].
  destruct (visit_dir _ _ _ _ _ _ _) as [s' [[]|e|]]; cbn [fst snd] in *; auto.
Qed.

(** Errors are only ever appended. *)
Lemma entry_step_errors entry s s' o :
  entry_step entry s s' o → errors s `prefix_of` errors s'.
Proof. destruct 1; simpl; try done. by apply prefix_app_r. Qed.

Lemma entries_step_errors entries s s' o :
  entries_step entries s s' o → errors s `prefix_of` errors s'.
Proof.
  induction 1; [done|..]; try by eapply entry_step_errors.
  etrans; [by eapply entry_step_errors|done].
Qed.

Lemma dir_step_errors current s s' o :
  dir_step current s s' o → errors s `prefix_of` errors s'.
Proof.
  destruct 1; simpl; try by eapply entries_step_errors.
  - by apply prefix_app_r.
  - apply prefix_app_r. by eapply entries_step_errors.
Qed.

Lemma while_stack_errors n s :
  errors s `prefix_of`
    errors (while_stack root dry_run include_hidden follow_symlinks fuel n s).1.
Proof.
  apply (while_stack_invariant root dry_run include_hidden follow_symlinks fuel
           (λ s', errors s `prefix_of` errors s')); [|done].
  intros current rest s1 s2 o Hs1 _ Hstep.
  etrans; [done|]. by apply dir_step_errors in Hstep.
Qed.

End counting.

(** ** The in-memory file system *)

Section simple_fs.
Implicit Types (w : gmap path node) (p q d src dst : path).

Lemma simple_listing w d entries :
  SimpleFS.iterdir w d = inr entries →
  NoDup entries ∧ ∀ entry, entry ∈ entries → ∃ x, entry = d // x.
Proof.
  unfold SimpleFS.iterdir. intros Hls.
  assert (entries = SimpleFS.children w d) as ->.
  { repeat case_match; by simplify_eq. }
  unfold SimpleFS.children. split.
  - apply NoDup_filter, NoDup_fst_map_to_list.
  - intros entry [Hchild _]%list_elem_of_filter.
    unfold SimpleFS.is_child in Hchild.
    apply bool_decide_unpack in Hchild as [Hne <-].
    exists (Path.name entry). unfold Path.join, Path.parent, Path.name.
    destruct (exists_last Hne) as (l & x & ->).
    by rewrite removelast_last, last_snoc.
Qed.

Lemma simple_listing_law : listing_law (W := gmap path node).
Proof. intros w d entries. apply simple_listing. Qed.

Lemma simple_listing_children w d entries entry :
  SimpleFS.iterdir w d = inr entries → entry ∈ entries →
  Path.parent entry = d.
Proof.
  intros Hls Hin. destruct (simple_listing _ _ _ Hls) as [_ Hchildren].
  destruct (Hchildren _ Hin) as [x ->]. apply parent_join.
Qed.

Lemma grown_refl p w : grown p w w.
Proof. intros q. by left. Qed.

Lemma grown_trans p w1 w2 w3 : grown p w1 w2 → grown p w2 w3 → grown p w1 w3.
Proof.
  intros H12 H23 q. destruct (H12 q) as [E12|(?&?&?)], (H23 q) as [E23|(?&?&?)].
  - left. congruence.
  - right. split_and!; congruence.
  - right. split_and!; congruence.
  - congruence.
Qed.

Lemma grown_weaken p p' w w' : p `prefix_of` p' → grown p w w' → grown p' w w'.
Proof.
  intros Hp Hg q. destruct (Hg q) as [?|(?&?&?)]; [by left|right].
  split_and!; [done..|]. by etrans.
Qed.

Lemma parent_prefix p : Path.parent p `prefix_of` p.
Proof.
  unfold Path.parent. destruct (decide (p = [])) as [->|Hne]; [done|].
  destruct (exists_last Hne) as (l & x & ->).
  rewrite removelast_last. by apply prefix_app_r.
Qed.

Lemma os_mkdir_grown w p : grown p w (SimpleFS.os_mkdir w p).1.
Proof.
  unfold SimpleFS.os_mkdir.
  destruct (w !! p) eqn:Hp; [apply grown_refl|].
  repeat case_match; simpl; try apply grown_refl.
  intros q. destruct (decide (q = p)) as [->|Hne].
  - right. by rewrite lookup_insert_eq.
  - left. by rewrite lookup_insert_ne.
Qed.

Lemma exist_ok_fs (r : gmap path node * option exn) p :
  (SimpleFS.exist_ok r p).1 = r.1.
Proof. destruct r as [w [[]|]]; simpl; try done; by case_match. Qed.

Lemma mkdir_parents_grown depth w p :
  grown p w (SimpleFS.mkdir_parents depth w p).1.
Proof.
  revert w p. induction depth as [|depth IH]; intros w p.
  - simpl. pose proof (os_mkdir_grown w p) as Hg.
    destruct (SimpleFS.os_mkdir w p) as [w' [[]|]] eqn:E; simpl in *; try done;
      by case_match.
  - simpl. pose proof (os_mkdir_grown w p) as Hg.
    destruct (SimpleFS.os_mkdir w p) as [w' [[]|]] eqn:E; simpl in *; try done;
      try by case_match.
    case_bool_decide; [done|].
    pose proof (IH w' (Path.parent p)) as Hg'.
    apply (grown_weaken _ p) in Hg'; [|apply parent_prefix].
    destruct (SimpleFS.mkdir_parents depth w' (Path.parent p)) as [w'' [e|]];
      simpl in *.
    + by eapply grown_trans.
    + rewrite exist_ok_fs. eapply grown_trans; [done|].
      eapply grown_trans; [done|]. apply os_mkdir_grown.
Qed.

Lemma mkdir_grown w p : grown p w (SimpleFS.mkdir w p).1.
Proof. apply mkdir_parents_grown. Qed.

End simple_fs.

Section simple_move.
Implicit Types (w : gmap path node) (p q d src dst : path).

Lemma same_dirs_insert_file w dst :
  w !! dst = None → same_dirs w (<[dst := File]> w).
Proof.
  intros Hdst q. destruct (decide (q = dst)) as [->|Hne].
  - by rewrite lookup_insert_eq, Hdst.
  - by rewrite lookup_insert_ne.
Qed.

Lemma same_dirs_delete_file w src :
  w !! src = Some File → same_dirs w (delete src w).
Proof.
  intros Hsrc q. destruct (decide (q = src)) as [->|Hne].
  - by rewrite lookup_delete_eq, Hsrc.
  - by rewrite lookup_delete_ne.
Qed.

Lemma same_dirs_trans w1 w2 w3 :
  same_dirs w1 w2 → same_dirs w2 w3 → same_dirs w1 w3.
Proof. intros H12 H23 q. by rewrite H23, H12. Qed.

Lemma move_file_same_dirs w src dst :
  w !! src = Some File → w !! dst = None →
  same_dirs w (SimpleFS.move w src dst).1.
Proof.
  intros Hsrc Hdst.
  assert (src ≠ dst) as Hne by congruence.
  assert (same_dirs w (<[dst := File]> (delete src w))) as Hrenamed.
  { eapply same_dirs_trans; [by apply same_dirs_delete_file|].
    apply same_dirs_insert_file. by rewrite lookup_delete_ne. }
  assert (same_dirs w (delete src (<[dst := File]> w))) as Hcopied.
  { eapply same_dirs_trans; [by apply same_dirs_insert_file|].
    apply same_dirs_delete_file. by rewrite lookup_insert_ne. }
  pose proof (same_dirs_insert_file w dst Hdst) as Hcopy.
  assert (same_dirs w w) as Hrefl by done.
  unfold SimpleFS.move, SimpleFS.is_dir, SimpleFS.os_rename.
  rewrite Hdst, Hsrc. cbn [SimpleFS.is_Dir andb].
  repeat case_match; simplify_eq; cbn [fst]; done.
Qed.

End simple_move.

(** ** No directory is listed twice *)

Lemma strict_prefix_length d p : strict_prefix d p → length d < length p.
Proof.
  intros [[k ->] Hne]. rewrite length_app.
  destruct k; [by rewrite app_nil_r in Hne|simpl; lia].
Qed.

Lemma strict_prefix_join d x : strict_prefix d (d // x).
Proof.
  split; [by apply prefix_app_r|]. unfold Path.join. intros Heq.
  apply (f_equal length) in Heq. rewrite length_app in Heq. simpl in Heq. lia.
Qed.

Lemma prefix_join_inv d' d x :
  d' `prefix_of` (d // x) → d' = d // x ∨ d' `prefix_of` d.
Proof.
  unfold Path.join. intros [k Hk].
  destruct (decide (k = [])) as [->|Hne].
  - left. by rewrite app_nil_r in Hk.
  - right. destruct (exists_last Hne) as (k' & y & ->).
    rewrite app_assoc in Hk. apply app_inj_tail in Hk as [-> _].
    by apply prefix_app_r.
Qed.

Lemma strict_prefix_trans d c p :
  strict_prefix d c → c `prefix_of` p → strict_prefix d p.
Proof.
  intros Hdc Hcp. split; [etrans; [apply Hdc|done]|].
  intros ->. apply strict_prefix_length in Hdc.
  apply prefix_length in Hcp. lia.
Qed.

Section once.
Context `{FileSystem W}.
Variables (root : path) (dry_run include_hidden follow_symlinks : bool).
Variable fuel : nat.
Implicit Types (s : state W) (entry current d p c : path).

Local Abbreviation entry_step := (entry_step root dry_run fuel).
Local Abbreviation entries_step := (entries_step root dry_run fuel).
Local Abbreviation dir_step := (dir_step root dry_run fuel).

Lemma untangled_pop current rest visited :
  untangled (current :: rest) visited →
  visiting current [] rest (current :: visited).
Proof.
  intros [Hnd Hbelow].
  assert (∀ p, p ∈ rest ++ current :: visited ↔ p ∈ (current :: rest) ++ visited)
    as Hsame.
  { intros p. simpl. rewrite ?elem_of_app, ?elem_of_cons, ?elem_of_app. tauto. }
  split_and!.
  - split.
    + by rewrite <-Permutation_middle.
    + intros d p Hd Hp. apply Hbelow; [by right|by apply Hsame].
  - by left.
  - intros p Hp Hcp. destruct (Hbelow current p); [by left|by apply Hsame|done].
Qed.

Lemma visiting_push current done stack visited x :
  visiting current done stack visited →
  current // x ∉ done →
  visiting current ((current // x) :: done) ((current // x) :: stack) visited.
Proof.
  intros ([Hnd Hbelow] & Hcur & Hdone) Hfresh.
  set (c := current // x).
  assert (strict_prefix current c) as Hcc by apply strict_prefix_join.
  assert (c ∉ stack ++ visited) as Hnew.
  { intros Hc. by destruct (Hdone c Hc Hcc). }
  split_and!.
  - split.
    + simpl. by apply NoDup_cons.
    + intros d p [->|Hd]%elem_of_cons Hp; simpl in Hp;
        apply elem_of_cons in Hp as [->|Hp].
      * by intros [_ ?].
      * intros Hcp. destruct (Hdone p Hp) as [_ Hlen].
        { eapply strict_prefix_trans; [done|apply Hcp]. }
        apply strict_prefix_length in Hcp, Hcc. lia.
      * intros [Hpre Hne]. apply prefix_join_inv in Hpre as [?|Hpre]; [done|].
        destruct (decide (d = current)) as [->|Hdc].
        -- apply NoDup_app in Hnd as (_ & Hdisj & _). by eapply Hdisj.
        -- eapply (Hbelow d current); [done| |done].
           apply elem_of_app. by right.
      * by apply Hbelow.
  - done.
  - intros p Hp Hcp. simpl in Hp. apply elem_of_cons in Hp as [->|Hp].
    + split; [by left|]. unfold c, Path.join. rewrite length_app. simpl. lia.
    + destruct (Hdone p Hp Hcp). split; [by right|done].
Qed.

Lemma visiting_more current done done' stack visited :
  done ⊆ done' →
  visiting current done stack visited → visiting current done' stack visited.
Proof.
  intros Hsub (Hu & Hcur & Hdone). split_and!; [done..|].
  intros p Hp Hcp. destruct (Hdone p Hp Hcp). split; [by apply Hsub|done].
Qed.

Lemma entry_step_visiting current done x s s' o :
  entry_step (current // x) s s' o →
  current // x ∉ done →
  visiting current done (stack s) (visited s) →
  visiting current ((current // x) :: done) (stack s') (visited s').
Proof.
  intros Hstep Hfresh Hs.
  destruct (entry_step_stack _ _ _ _ _ _ _ Hstep) as [-> [->|[-> _]]].
  - eapply visiting_more; [|done]. set_solver.
  - by apply visiting_push.
Qed.

Lemma entries_step_visiting current done entries s s' o :
  entries_step entries s s' o →
  NoDup entries →
  (∀ entry, entry ∈ entries → (entry ∉ done) ∧ (∃ x, entry = current // x)) →
  visiting current done (stack s) (visited s) →
  ∃ done', visiting current done' (stack s') (visited s').
Proof.
  intros Hstep. revert done.
  induction Hstep as [s|entry rest s s' s'' o Hstep _ IH
                      |entry rest s s' e Hstep|entry rest s s' Hstep];
    intros done Hnd Hentries Hs.
  - by exists done.
  - destruct (Hentries entry) as [Hfresh [x ->]]; [by left|].
    apply NoDup_cons in Hnd as [Hnotin Hnd].
    apply (IH ((current // x) :: done)); [done| |].
    + intros c Hc. destruct (Hentries c) as [? ?]; [by right|].
      split; [|done]. intros [->|?]%elem_of_cons; done.
    + by eapply entry_step_visiting.
  - destruct (Hentries entry) as [Hfresh [x ->]]; [by left|].
    eexists. by eapply entry_step_visiting.
  - destruct (Hentries entry) as [Hfresh [x ->]]; [by left|].
    eexists. by eapply entry_step_visiting.
Qed.

Hypothesis listing : listing_law.

Lemma dir_step_untangled current rest s s' o :
  untangled (stack s) (visited s) → stack s = current :: rest →
  dir_step current (popped current rest s) s' o →
  untangled (stack s') (visited s').
Proof.
  intros Hs Hstack Hstep. rewrite Hstack in Hs.
  apply untangled_pop in Hs.
  assert (∀ entries s1 o1,
            fs_iterdir (fs s) current = inr entries →
            entries_step entries (popped current rest s) s1 o1 →
            untangled (stack s1) (visited s1)) as Hentries.
  { intros entries s1 o1 Hls Hstep1.
    destruct (listing _ _ _ Hls) as [Hnd Hchildren].
    destruct (entries_step_visiting current [] _ _ _ _ Hstep1) as (done & Hv & _).
    - done.
    - intros entry Hin. split; [by intros ?%elem_of_nil|by apply Hchildren].
    - done.
    - done. }
  inversion Hstep; subst; simpl in *; eauto.
  by destruct Hs.
Qed.

End once.

(** ** Fuel *)

Section fuel.
Context `{FileSystem W}.
Variables (root : path) (dry_run include_hidden follow_symlinks : bool).
Implicit Types (s : state W) (entry current : path) (f n : nat).

Local Abbreviation handle_file := (handle_file root dry_run).
Local Abbreviation handle_entry :=
  (handle_entry root dry_run include_hidden follow_symlinks).
Local Abbreviation for_each :=
  (for_each root dry_run include_hidden follow_symlinks).
Local Abbreviation visit_dir :=
  (visit_dir root dry_run include_hidden follow_symlinks).
Local Abbreviation while_stack :=
  (while_stack root dry_run include_hidden follow_symlinks).

(** A computation that did not run out of fuel does the same with more. *)
Lemma handle_file_mono f f' entry s :
  f ≤ f' → (handle_file f entry s).2 ≠ OutOfFuel →
  handle_file f' entry s = handle_file f entry s.
Proof.
  intros Hle.
  unfold handle_file, try_except, unique_target, mbind,
    M_bind, inspect, effect, print, count, record_error, update, set_fs.
  simpl_state.
  destruct (fs_mkdir (fs s) _) as [w' [e|]]; [done|].
  destruct dry_run; [done|]. simpl_state.
  destruct (make_unique_target f w' _) as [unique|] eqn:Huniq.
  - by rewrite (make_unique_target_mono _ _ _ _ _ Hle Huniq).
  - simpl_state. done.
Qed.

Lemma handle_entry_mono f f' entry s :
  f ≤ f' → (handle_entry f entry s).2 ≠ OutOfFuel →
  handle_entry f' entry s = handle_entry f entry s.
Proof.
  intros Hle. unfold handle_entry, mbind, M_bind, query.
  destruct (negb include_hidden && _); [done|].
  destruct (fs_is_symlink (fs s) entry && _); [done|].
  destruct (fs_is_dir (fs s) entry); [done|].
  destruct (fs_is_file (fs s) entry); [|done].
  by apply handle_file_mono.
Qed.

Lemma for_each_mono f f' entries s :
  f ≤ f' → (for_each f entries s).2 ≠ OutOfFuel →
  for_each f' entries s = for_each f entries s.
Proof.
  intros Hle. revert s. induction entries as [|entry rest IH]; intros s; [done|].
  rewrite !for_each_cons. unfold mbind, M_bind. intros Hsettled.
  rewrite (handle_entry_mono f f') by (by destruct (handle_entry f entry s) as [? [[]|?|]]).
  destruct (handle_entry f entry s) as [s' [[]|e|]]; [|done..].
  by apply IH.
Qed.

Lemma visit_dir_mono f f' current s :
  f ≤ f' → (visit_dir f current s).2 ≠ OutOfFuel →
  visit_dir f' current s = visit_dir f current s.
Proof.
  intros Hle. unfold visit_dir, try_except.
  rewrite !listing_bind.
  destruct (fs_iterdir (fs s) current) as [e|entries]; [done|].
  intros Hsettled.
  rewrite (for_each_mono f f') by (by destruct (for_each f entries s) as [? [[]|?|]]).
  done.
Qed.

Lemma while_stack_mono f f' n n' s :
  f ≤ f' → n ≤ n' → (while_stack f n s).2 ≠ OutOfFuel →
  while_stack f' n' s = while_stack f n s.
Proof.
  intros Hf. revert n' s. induction n as [|n IH]; intros n' s Hn.
  { destruct (stack s) eqn:E.
    - by rewrite !while_stack_nil.
    - by erewrite while_stack_0. }
  destruct (stack s) as [|current rest] eqn:E; [by rewrite !while_stack_nil|].
  destruct n' as [|n']; [lia|].
  rewrite !(while_stack_S _ _ _ _ _ _ _ _ _ E). intros Hsettled.
  rewrite (visit_dir_mono f f')
    by (by destruct (visit_dir f current _) as [? [[]|?|]]).
  destruct (visit_dir f current _) as [s' [[]|e|]]; [|done..].
  apply IH; [lia|done].
Qed.

End fuel.

(** ** Termination *)

Section settles.
Variables (root : path) (dry_run include_hidden follow_symlinks : bool).
Implicit Types (s : state (gmap path node)) (entry current : path) (f n : nat).

Local Abbreviation handle_entry :=
  (handle_entry root dry_run include_hidden follow_symlinks).
Local Abbreviation for_each :=
  (for_each root dry_run include_hidden follow_symlinks).
Local Abbreviation visit_dir :=
  (visit_dir root dry_run include_hidden follow_symlinks).

(** On the in-memory file system every search for a free name ends, so
    each part of the loop body has a fuel that suffices. *)
Lemma simple_handle_entry_settles entry s :
  ∃ f, (handle_entry f entry s).2 ≠ OutOfFuel.
Proof.
  exists (S (size (fs_mkdir (fs s) (root // classify entry)).1)).
  intros Hout.
  pose proof (handle_entry_step root dry_run include_hidden follow_symlinks
                (S (size (fs_mkdir (fs s) (root // classify entry)).1))
                entry s) as Hstep.
  rewrite Hout in Hstep. inversion Hstep as [| | | | | |w' _ _ Hmk Hnone]; subst.
  rewrite Hmk in Hnone. simpl in Hnone.
  destruct (simple_unique_target_total w' (target_of root entry)) as [r Hr].
  congruence.
Qed.

Lemma simple_for_each_settles entries s :
  ∃ f, (for_each f entries s).2 ≠ OutOfFuel.
Proof.
  revert s. induction entries as [|entry rest IH]; intros s.
  { by exists 0. }
  destruct (simple_handle_entry_settles entry s) as [f1 H1].
  destruct (handle_entry f1 entry s) as [s1 [[]|e|]] eqn:E1; [| |done].
  - destruct (IH s1) as [f2 H2]. exists (f1 `max` f2).
    rewrite for_each_cons. unfold mbind, M_bind.
    rewrite (handle_entry_mono _ _ _ _ f1) by (rewrite ?E1; done || lia).
    rewrite E1.
    rewrite (for_each_mono _ _ _ _ f2) by (done || lia). done.
  - exists f1. rewrite for_each_cons. unfold mbind, M_bind. by rewrite E1.
Qed.

Lemma simple_visit_dir_settles current s :
  ∃ f, (visit_dir f current s).2 ≠ OutOfFuel.
Proof.
  destruct (fs_iterdir (fs s) current) as [e|entries] eqn:Hls.
  - exists 0. intros Hout.
    pose proof (visit_dir_never_raises root dry_run include_hidden
                  follow_symlinks 0 current s) as Hnr.
    pose proof (visit_dir_step root dry_run include_hidden follow_symlinks 0
                  current s) as Hstep.
    rewrite Hout in Hstep. inversion Hstep; congruence.
  - destruct (simple_for_each_settles entries s) as [f Hf]. exists f.
    unfold visit_dir, try_except. rewrite listing_bind, Hls.
    destruct (for_each f entries s) as [s' [[]|e|]]; [done| |done].
    by rewrite handler_caught.
Qed.

End settles.

Section loop_ends.
Context `{FileSystem W}.
Variables (root : path) (dry_run include_hidden follow_symlinks : bool).
Implicit Types (s : state W) (current : path) (f n : nat).

Local Abbreviation visit_dir :=
  (visit_dir root dry_run include_hidden follow_symlinks).
Local Abbreviation while_stack :=
  (while_stack root dry_run include_hidden follow_symlinks).

(** The loop ends when some invariant of its iterations bounds the number
    of directories listed and every iteration has a fuel that suffices. *)
Variable Inv : state W → Prop.
Variable bound : nat.
Hypothesis Inv_kept : ∀ f current rest s s' o,
  Inv s → stack s = current :: rest →
  dir_step root dry_run f current (popped current rest s) s' o → Inv s'.
Hypothesis Inv_bound : ∀ current rest s,
  Inv s → stack s = current :: rest → length (visited s) < bound.
Hypothesis settles : ∀ current s, ∃ f, (visit_dir f current s).2 ≠ OutOfFuel.

Lemma while_stack_ends_within k s :
  Inv s → bound - length (visited s) ≤ k →
  ∃ f0 n0, ∀ f n, f0 ≤ f → n0 ≤ n → (while_stack f n s).2 = Ok ().
Proof.
  revert s. induction k as [|k IH]; intros s Hs Hk.
  - destruct (stack s) as [|current rest] eqn:E.
    + exists 0, 0. intros f n _ _. by rewrite while_stack_nil.
    + pose proof (Inv_bound _ _ _ Hs E). lia.
  - destruct (stack s) as [|current rest] eqn:E.
    { exists 0, 0. intros f n _ _. by rewrite while_stack_nil. }
    destruct (settles current (popped current rest s)) as [f1 Hf1].
    pose proof (visit_dir_step root dry_run include_hidden follow_symlinks f1
                  current (popped current rest s)) as Hstep.
    pose proof (visit_dir_never_raises root dry_run include_hidden
                  follow_symlinks f1 current (popped current rest s)) as Hnr.
    destruct (visit_dir f1 current (popped current rest s))
      as [s' [[]|e|]] eqn:E1; cbn [fst snd] in *; [|by destruct (Hnr e)|done].
    assert (Inv s') as Hs' by eauto.
    assert (visited s' = current :: visited s) as Hv.
    { by destruct (dir_step_stack _ _ _ _ _ _ _ Hstep) as [-> _]. }
    destruct (IH s' Hs') as (f2 & n2 & Hends).
    { rewrite Hv. simpl. lia. }
    exists (f1 `max` f2), (S n2). intros f [|n] Hf Hn; [lia|].
    rewrite (while_stack_S _ _ _ _ _ _ _ _ _ E).
    rewrite (visit_dir_mono _ _ _ _ f1 f) by (rewrite ?E1; done || lia).
    rewrite E1. apply Hends; lia.
Qed.

End loop_ends.

Lemma elem_of_prefixes (q p : path) : q `prefix_of` p → q ∈ prefixes p.
Proof.
  intros [k ->]. apply list_elem_of_fmap. exists (length q). split.
  - by rewrite take_app_length.
  - apply elem_of_seq. rewrite length_app. lia.
Qed.

Section simple_run.
Variables (root : path) (dry_run include_hidden follow_symlinks : bool).
Variable w0 : gmap path node.
Implicit Types (s : state (gmap path node)) (entry current q : path).

Local Abbreviation known_dirs := (known_dirs root w0).
Local Abbreviation dirs_bounded := (dirs_bounded root w0).
Local Abbreviation simple_inv := (simple_inv root w0).
Local Abbreviation simple_fs_inv := (simple_fs_inv root w0).

Lemma grown_dirs_bounded category w w' :
  category ∈ category_dirs →
  grown (root // category) w w' → dirs_bounded w → dirs_bounded w'.
Proof.
  intros Hcat Hg Hw q Hq. destruct (Hg q) as [Heq|(_ & _ & Hpre)].
  - apply Hw. by rewrite <-Heq.
  - right. exists category. split; assumption.
Qed.

Lemma same_dirs_bounded w w' : same_dirs w w' → dirs_bounded w → dirs_bounded w'.
Proof. intros Hsame Hw q Hq. apply Hw. by rewrite <-Hsame. Qed.

Lemma grown_file p w w' q : grown p w w' → w !! q = Some File → w' !! q = Some File.
Proof. intros Hg Hq. destruct (Hg q) as [->|(? & _)]; congruence. Qed.

Lemma entry_step_dirs_bounded f entry s s' o :
  entry_step root dry_run f entry s s' o →
  dirs_bounded (fs s) → dirs_bounded (fs s').
Proof.
  assert (∀ w w' r, fs_mkdir w (root // classify entry) = (w', r) →
            grown (root // classify entry) w w') as Hmkdir.
  { intros w w' r Hmk. pose proof (mkdir_grown w (root // classify entry)) as Hg.
    change (SimpleFS.mkdir w (root // classify entry))
      with (fs_mkdir w (root // classify entry)) in Hg.
    by rewrite Hmk in Hg. }
  assert (∀ w' unique w'' r,
            fs_is_file (fs s) entry = true →
            grown (root // classify entry) (fs s) w' →
            make_unique_target f w' (target_of root entry) = Some unique →
            fs_move w' entry unique = (w'', r) →
            same_dirs w' w'') as Hmove.
  { intros w' unique w'' r Hfile Hg Huniq Hmv.
    assert (w' !! entry = Some File) as Hsrc.
    { eapply grown_file; [done|]. cbn in Hfile. unfold SimpleFS.is_file in Hfile.
      by repeat case_match. }
    assert (w' !! unique = None) as Hdst.
    { apply make_unique_target_fresh in Huniq. cbn in Huniq.
      unfold SimpleFS.exists_ in Huniq.
      apply bool_decide_eq_false in Huniq. by apply eq_None_not_Some. }
    pose proof (move_file_same_dirs w' entry unique Hsrc Hdst) as Hsame.
    change (SimpleFS.move w' entry unique) with (fs_move w' entry unique) in Hsame.
    by rewrite Hmv in Hsame. }
  pose proof (classify_in_category_dirs entry) as Hcat.
  intros Hstep Hs.
  destruct Hstep as [|Hdir Hname|w' e Hfile Hmk|w' Hdry Hfile Hmk
                     |w' unique w'' Hdry Hfile Hmk Huniq Hmv
                     |w' unique w'' e Hdry Hfile Hmk Huniq Hmv
                     |w' Hdry Hfile Hmk Huniq]; simpl_state.
  - exact Hs.
  - exact Hs.
  - eapply grown_dirs_bounded; [exact Hcat|eapply Hmkdir, Hmk|exact Hs].
  - eapply grown_dirs_bounded; [exact Hcat|eapply Hmkdir, Hmk|exact Hs].
  - eapply same_dirs_bounded.
    + eapply Hmove; [exact Hfile|eapply Hmkdir, Hmk|exact Huniq|exact Hmv].
    + eapply grown_dirs_bounded; [exact Hcat|eapply Hmkdir, Hmk|exact Hs].
  - eapply same_dirs_bounded.
    + eapply Hmove; [exact Hfile|eapply Hmkdir, Hmk|exact Huniq|exact Hmv].
    + eapply grown_dirs_bounded; [exact Hcat|eapply Hmkdir, Hmk|exact Hs].
  - eapply grown_dirs_bounded; [exact Hcat|eapply Hmkdir, Hmk|exact Hs].
Qed.

Lemma entry_step_known f entry s s' o :
  entry_step root dry_run f entry s s' o →
  dirs_bounded (fs s) →
  (∀ d, d ∈ stack s ++ visited s → d ∈ known_dirs) →
  ∀ d, d ∈ stack s' ++ visited s' → d ∈ known_dirs.
Proof.
  intros Hstep Hdirs Hknown d.
  destruct (entry_step_stack _ _ _ _ _ _ _ Hstep) as [-> [->|(-> & Hdir & Hname)]];
    [by apply Hknown|].
  simpl. intros [->|Hd]%elem_of_cons; [|by apply Hknown].
  unfold known_dirs. apply elem_of_app.
  cbn in Hdir. unfold SimpleFS.is_dir in Hdir.
  destruct (Hdirs entry Hdir) as [Hold|(category & Hcat & Hpre)].
  - left. apply list_elem_of_fmap.
    destruct (w0 !! entry) as [n|] eqn:Hn; [|done].
    exists (entry, n). split; [done|]. by apply elem_of_map_to_list.
  - right. apply elem_of_prefixes.
    apply prefix_join_inv in Hpre as [->|Hpre]; [|done].
    rewrite name_join in Hname. exfalso. exact (Hname Hcat).
Qed.

Lemma entries_step_simple_fs_inv f entries s s' o :
  entries_step root dry_run f entries s s' o →
  simple_fs_inv s → simple_fs_inv s'.
Proof.
  induction 1 as [s|entry rest s s' s'' o Hstep _ IH
                  |entry rest s s' e Hstep|entry rest s s' Hstep];
    intros [Hknown Hdirs]; [done|..]; [apply IH|..];
    (split; [by eapply entry_step_known|by eapply entry_step_dirs_bounded]).
Qed.

Lemma dir_step_simple_inv f current rest s s' o :
  simple_inv s → stack s = current :: rest →
  dir_step root dry_run f current (popped current rest s) s' o →
  simple_inv s'.
Proof.
  intros (Hu & Hknown & Hdirs) Hstack Hstep.
  assert (untangled (stack s') (visited s')) as Hu'.
  { eapply dir_step_untangled; [|done..].
    intros w d entries. apply simple_listing. }
  assert (simple_fs_inv (popped current rest s)) as Hpopped.
  { split; [|done]. intros d Hd. apply Hknown. rewrite Hstack.
    simpl in *. rewrite elem_of_app, elem_of_cons in Hd.
    rewrite elem_of_cons, elem_of_app. tauto. }
  assert (simple_fs_inv s') as [??]; [|done].
  inversion Hstep; subst; try (by eapply entries_step_simple_fs_inv).
  - done.
  - assert (simple_fs_inv s'0) as [??] by (by eapply entries_step_simple_fs_inv).
    done.
Qed.

Lemma simple_inv_bound current rest s :
  simple_inv s → stack s = current :: rest →
  length (visited s) < length known_dirs.
Proof.
  intros ([Hnd _] & Hknown & _) Hstack.
  assert (stack s ++ visited s ⊆+ known_dirs) as Hsub
    by (by apply NoDup_submseteq).
  apply submseteq_length in Hsub. rewrite Hstack in Hsub.
  simpl in Hsub. rewrite length_app in Hsub. lia.
Qed.

Lemma simple_inv_start : simple_inv (start_state w0 root).
Proof.
  split_and!.
  - split.
    + simpl. apply NoDup_singleton.
    + simpl. intros d p ->%list_elem_of_singleton ->%list_elem_of_singleton.
      by intros [_ ?].
  - simpl. intros d ->%list_elem_of_singleton.
    unfold known_dirs. apply elem_of_app. right. by apply elem_of_prefixes.
  - intros q Hq. by left.
Qed.

(** Every run on the in-memory file system ends: from some fuel on, the
    outcome is no longer [OutOfFuel] and no longer depends on the fuel. *)
Lemma simple_run_ends :
  ∃ fuel0, ∀ fuel, fuel0 ≤ fuel →
    (organize_iterative fuel root dry_run include_hidden follow_symlinks w0).2
    ≠ OutOfFuel.
Proof.
  destruct (valid_or_invalid w0 root) as [[Hex Hdir]|Hbad].
  2: { exists 0. intros fuel _. by rewrite organize_invalid. }
  destruct (while_stack_ends_within root dry_run include_hidden follow_symlinks
              simple_inv (length known_dirs)
              dir_step_simple_inv simple_inv_bound
              (simple_visit_dir_settles root dry_run include_hidden
                 follow_symlinks)
              (length known_dirs) (start_state w0 root))
    as (f0 & n0 & Hends).
  { apply simple_inv_start. }
  { lia. }
  exists (f0 `max` n0). intros fuel Hfuel.
  rewrite organize_valid by done.
  specialize (Hends fuel fuel ltac:(lia) ltac:(lia)).
  by destruct (while_stack _ _ _ _ _ _ _) as [s [[]|e|]].
Qed.

End simple_run.

(** ** Errors do not stop the run *)

Section recoverable.
Context `{FileSystem W}.
Variables (root : path) (dry_run include_hidden follow_symlinks : bool).
Variable fuel : nat.
Implicit Types (s : state W) (entry current : path).

Local Abbreviation handle_entry :=
  (handle_entry root dry_run include_hidden follow_symlinks fuel).
Local Abbreviation for_each :=
  (for_each root dry_run include_hidden follow_symlinks fuel).
Local Abbreviation visit_dir :=
  (visit_dir root dry_run include_hidden follow_symlinks fuel).
Local Abbreviation while_stack :=
  (while_stack root dry_run include_hidden follow_symlinks fuel).

Lemma listing_error_recorded current s e :
  fs_iterdir (fs s) current = inl e →
  visit_dir current s = (caught current e s, Ok ()).
Proof.
  intros Hls. unfold visit_dir, try_except. rewrite listing_bind, Hls.
  apply handler_caught.
Qed.

Lemma listing_error_loop_goes_on n current rest s e :
  stack s = current :: rest →
  fs_iterdir (fs s) current = inl e →
  while_stack (S n) s = while_stack n (caught current e (popped current rest s)).
Proof.
  intros Hstack Hls. rewrite (while_stack_S _ _ _ _ _ _ _ _ _ Hstack).
  by rewrite (listing_error_recorded current (popped current rest s) e).
Qed.

Lemma move_error_recorded entry s w' unique w'' e :
  dry_run = false →
  include_hidden = true ∨ Py.startswith (Path.name entry) "." = false →
  follow_symlinks = true ∨ fs_is_symlink (fs s) entry = false →
  fs_is_dir (fs s) entry = false →
  fs_is_file (fs s) entry = true →
  fs_mkdir (fs s) (root // classify entry) = (w', None) →
  make_unique_target fuel w' (target_of root entry) = Some unique →
  fs_move w' entry unique = (w'', Some e) →
  handle_entry entry s =
    (State w'' (stdout s ++ [ErrorMoving entry (exn_str e)]) (stack s)
       (summary s) (errors s ++ [(entry, exn_str e)]) (S (processed s))
       (visited s),
     Ok ()).
Proof.
  intros Hdry Hhidden Hlink Hdir Hfile Hmk Huniq Hmv.
  unfold handle_entry, mbind, M_bind, query.
  assert (negb include_hidden && Py.startswith (Path.name entry) "." = false)
    as -> by (destruct Hhidden as [-> | ->]; [done|apply andb_false_r]).
  assert (fs_is_symlink (fs s) entry && negb follow_symlinks = false)
    as -> by (destruct Hlink as [-> | ->]; [apply andb_false_r|done]).
  rewrite Hdir, Hfile.
  unfold handle_file, try_except, unique_target, mbind, M_bind, inspect,
    effect, print, count, record_error, update, set_fs.
  fold (classify entry). fold (target_of root entry). simpl_state.
  rewrite Hmk, Hdry. simpl_state. rewrite Huniq. simpl_state.
  by rewrite Hmv.
Qed.

End recoverable.



(** The destination folder is made outside the inner [try]: when that
    fails, the outer handler records the error for the directory being
    listed, and the entries after the file are not handled.  Here [Others]
    is a regular file, listed first. *)
Lemma mkdir_error_ends_listing :
  let run := organize_iterative 9 ["r"] true true true clash in
  fs_iterdir clash ["r"] = inr [["r"; "Others"]; ["r"; "a.jpg"]; ["r"; "b"]]
  ∧ run.2 = Ok ()
  ∧ errors run.1 = [(["r"], "[Errno 17] File exists: '/r/Others'")]
  ∧ processed run.1 = 1
  ∧ summary run.1 = ∅.
Proof. intros run. split_and!; vm_compute; reflexivity. Qed.

(** ** Files inspected and files counted *)




(** ** Dry run *)

(** C2 fails on the code: [mkdir] runs before the dry-run test, so a dry
    run over one picture creates the [Images] folder (and moves nothing,
    and counts the intended move). *)
Theorem dry_run_makes_category_folder :
  let run := organize_iterative 9 ["r"] true true true inbox in
  run.2 = Ok ()
  ∧ fs run.1 = <[["r"; "Images"] := Dir true true]> inbox
  ∧ inbox !! ["r"; "Images"] = None
  ∧ fs run.1 !! ["r"; "Images"] = Some (Dir true true)
  ∧ fs run.1 !! ["r"; "a.jpg"] = Some File
  ∧ ¬ leaves_untouched inbox run.1
  ∧ stdout run.1 = [DryWouldMove ["r"; "a.jpg"] ["r"; "Images"; "a.jpg"];
                    Report ["r"] 1 [("Images", 1)] 0 []]
  ∧ summary run.1 = {["Images" := 1]}.
Proof.
  intros run. split_and!.
  - vm_compute. reflexivity.
  - vm_compute. reflexivity.
  - vm_compute. reflexivity.
  - vm_compute. reflexivity.
  - vm_compute. reflexivity.
  - unfold leaves_untouched. intros Heq.
    apply (f_equal (λ m : gmap path node, m !! ["r"; "Images"])) in Heq.
    vm_compute in Heq. discriminate.
  - vm_compute. reflexivity.
  - vm_compute. reflexivity.
Qed.

(** What does hold in a dry run on the in-memory file system: every entry
    stays where and what it was; only directories are added. *)
Lemma dry_run_moves_nothing (w : gmap path node) (root : path)
    (include_hidden follow_symlinks : bool) (fuel : nat) (q : path) (n : node) :
  w !! q = Some n →
  fs (organize_iterative fuel root true include_hidden follow_symlinks w).1 !! q
  = Some n.
Proof.
  intros Hq.
  apply (organize_invariant root true include_hidden follow_symlinks fuel w
           (λ s, fs s !! q = Some n)); [done|done| |done].
  assert (∀ entry s s' o,
            entry_step root true fuel entry s s' o →
            fs s !! q = Some n → fs s' !! q = Some n) as Hentry.
  { intros entry s s' o Hstep Hs.
    assert (∀ w' r, fs_mkdir (fs s) (root // classify entry) = (w', r) →
              w' !! q = Some n) as Hmkdir.
    { intros w' r Hmk.
      pose proof (mkdir_grown (fs s) (root // classify entry) q) as Hg.
      change (SimpleFS.mkdir (fs s) (root // classify entry))
        with (fs_mkdir (fs s) (root // classify entry)) in Hg.
      rewrite Hmk in Hg. destruct Hg as [Hg|[Hg _]]; simpl in Hg; congruence. }
    destruct Hstep as [|Hdir Hname|w' e Hfile Hmk|w' Hdry Hfile Hmk
                       |w' unique w'' Hdry Hfile Hmk Huniq Hmv
                       |w' unique w'' e Hdry Hfile Hmk Huniq Hmv
                       |w' Hdry Hfile Hmk Huniq]; simpl_state;
      [exact Hs|exact Hs|exact (Hmkdir _ _ Hmk)|exact (Hmkdir _ _ Hmk)
      |discriminate..]. }
  assert (∀ entries s s' o,
            entries_step root true fuel entries s s' o →
            fs s !! q = Some n → fs s' !! q = Some n) as Hentries.
  { induction 1 as [s|entry rest s s' s'' o Hstep _ IH
                    |entry rest s s' e Hstep|entry rest s s' Hstep]; intros Hs.
    - exact Hs.
    - exact (IH (Hentry _ _ _ _ Hstep Hs)).
    - exact (Hentry _ _ _ _ Hstep Hs).
    - exact (Hentry _ _ _ _ Hstep Hs). }
  intros current rest s s' o Hs _ Hstep.
  inversion Hstep as [e Hls|entries s1 Hls Hes|entries s1 e Hls Hes
                      |entries s1 Hls Hes]; subst; simpl_state.
  - exact Hs.
  - exact (Hentries _ _ _ _ Hes Hs).
  - exact (Hentries _ _ _ _ Hes Hs).
  - exact (Hentries _ _ _ _ Hes Hs).
Qed.

(** * Further properties *)

(** ** More on the classifier *)

Lemma rfind_None (s : string) : Py.rfind "." s = None → Py.dot_free s = true.
Proof.
  induction s as [|a s IH]; [done|]. cbn [Py.rfind Py.dot_free].
  destruct (Py.rfind "." s); [done|].
  case_bool_decide; [done|]. intros _. by rewrite IH.
Qed.

Lemma rfind_Some (s : string) (i : nat) :
  Py.rfind "." s = Some i →
  ∃ b e, s = b +:+ String "." e ∧ String.length b = i ∧ Py.dot_free e = true.
Proof.
  revert i. induction s as [|a s IH]; intros i; [done|]. cbn [Py.rfind].
  destruct (Py.rfind "." s) as [j|] eqn:Hj.
  - intros [= <-]. destruct (IH j eq_refl) as (b & e & -> & <- & He).
    by exists (String a b), e.
  - case_bool_decide as Ha; [|done]. intros [= <-]. subst a.
    exists "", s. split_and!; [done|done|]. by apply rfind_None.
Qed.

(** What [suffix] can be: nothing, or the text from the last dot on, which
    then has something before it and something after it. *)
Lemma suffix_of_shape (name : string) :
  Py.suffix_of name = ""
  ∨ ∃ b e, name = b +:+ String "." e ∧ b ≠ "" ∧ e ≠ "" ∧ Py.dot_free e = true
           ∧ Py.suffix_of name = String "." e.
Proof.
  unfold Py.suffix_of, Py.splits_at.
  destruct (Py.rfind "." name) as [i|] eqn:Hi; [|by left].
  destruct (rfind_Some _ _ Hi) as (b & e & -> & <- & He).
  destruct ((0 <? String.length b)%nat) eqn:Hb; [|by left]. cbn [andb].
  destruct ((String.length b <? _)%nat) eqn:Hlen; [|by left].
  right. exists b, e. rewrite slice_from_app.
  apply Nat.ltb_lt in Hb, Hlen. rewrite str_app_length in Hlen.
  split_and!; [done| | |done|done].
  - intros ->. simpl in Hb. lia.
  - intros ->. simpl in Hlen. lia.
Qed.

Lemma single_suffix_lower (e : string) :
  single_suffix (String "." (Py.lower e)) = single_suffix (String "." e).
Proof.
  cbn [single_suffix]. rewrite dot_free_lower. f_equal. f_equal.
  destruct e; [done|]. by rewrite !bool_decide_eq_false_2.
Qed.

(** X1: the extension [get_extension_lower] returns is unchanged by
    [lower], and it is the empty text, one of the two entries of
    [MULTI_EXTENSIONS], or a dot followed by a non-empty text without a
    dot. *)
Theorem extension_is_lowercase_suffix (p : path) :
  Py.lower (get_extension_lower p) = get_extension_lower p
  ∧ (get_extension_lower p = ""
     ∨ get_extension_lower p = ".tar.gz"
     ∨ get_extension_lower p = "tar.bz2"
     ∨ single_suffix (get_extension_lower p) = true).
Proof.
  unfold get_extension_lower, get_extension_lower_in, MULTI_EXTENSIONS.
  cbn [first_endswith].
  destruct (Py.endswith _ ".tar.gz"); [by auto|].
  destruct (Py.endswith _ "tar.bz2"); [by auto|].
  split; [apply lower_idemp|]. unfold Path.suffix.
  destruct (suffix_of_shape (Path.name p)) as [->|(b & e & _ & _ & He & Hfree & ->)].
  - by left.
  - do 3 right. cbn [Py.lower]. change (Py.lower_char ".") with "."%char.
    rewrite single_suffix_lower. cbn [single_suffix]. rewrite Hfree.
    by rewrite bool_decide_eq_false_2.
Qed.

(** X2: the entry ["tar.bz2"] of [MULTI_EXTENSIONS] has no leading dot.
    Every name whose lowercase ends in [tar.bz2], with or without a dot
    before it (as [Guitar.BZ2]), gets the extension ["tar.bz2"], in either
    scan order of the set; that is not [".tar.bz2"], and the category is
    ["Others"]. *)
Theorem tar_bz2_matches_without_dot (p : path) (pre suf : string) :
  Path.name p = pre +:+ suf →
  Py.lower suf = "tar.bz2" →
  get_extension_lower p = "tar.bz2"
  ∧ get_extension_lower_in ["tar.bz2"; ".tar.gz"] p = "tar.bz2"
  ∧ get_extension_lower p ≠ ".tar.bz2"
  ∧ classify p = "Others".
Proof.
  intros Hname Hsuf.
  assert (Py.endswith (Py.lower (Path.name p)) "tar.bz2" = true) as Hbz.
  { apply endswith_spec. exists (Py.lower pre). by rewrite Hname, lower_app, Hsuf. }
  assert (Py.endswith (Py.lower (Path.name p)) ".tar.gz" = false) as Hgz.
  { apply not_true_is_false. intros Hgz.
    apply endswith_last_char in Hgz; [|done].
    apply endswith_last_char in Hbz; [|done].
    rewrite Hgz in Hbz. done. }
  assert (get_extension_lower p = "tar.bz2") as Hext.
  { unfold get_extension_lower, get_extension_lower_in, MULTI_EXTENSIONS.
    cbn [first_endswith]. by rewrite Hgz, Hbz. }
  split_and!.
  - done.
  - unfold get_extension_lower_in. cbn [first_endswith]. by rewrite Hbz.
  - by rewrite Hext.
  - unfold classify. rewrite Hext. by vm_compute.
Qed.

Lemma tar_bz2_matches_without_dot_witness :
  get_extension_lower ["music"; "Guitar.BZ2"] = "tar.bz2"
  ∧ classify ["music"; "Guitar.BZ2"] = "Others".
Proof.
  destruct (tar_bz2_matches_without_dot ["music"; "Guitar.BZ2"] "Gui" "tar.BZ2")
    as (Hext & _ & _ & Hcat).
  - reflexivity.
  - reflexivity.
  - split; [exact Hext|exact Hcat].
Defined.

Lemma last_dot_part (x y u v : string) :
  Py.dot_free y = true → Py.dot_free v = true →
  x +:+ String "." y = u +:+ String "." v → x = u ∧ y = v.
Proof.
  intros Hy Hv Heq.
  assert (String.length x = String.length u) as Hlen.
  { pose proof (rfind_split x y Hy) as Hx.
    rewrite Heq, (rfind_split u v Hv) in Hx. by injection Hx. }
  pose proof (slice_from_app x (String "." y)) as Hs.
  rewrite Heq, Hlen, slice_from_app in Hs. injection Hs as ->.
  split; [|done]. by apply str_app_inj_r in Heq.
Qed.

(** A name ends in [u.v] when its part after the last dot is [v] and the
    part before it ends in [u]. *)
Lemma endswith_dotted (x y u v : string) :
  Py.dot_free y = true → Py.dot_free v = true →
  Py.endswith (x +:+ String "." y) (u +:+ String "." v)
  = bool_decide (y = v) && Py.endswith x u.
Proof.
  intros Hy Hv.
  destruct (Py.endswith (x +:+ String "." y) (u +:+ String "." v)) eqn:Hend.
  - apply endswith_spec in Hend as [p Hp]. rewrite <-str_app_assoc in Hp.
    apply last_dot_part in Hp as [-> ->]; [|done..].
    rewrite bool_decide_eq_true_2 by done. symmetry.
    apply endswith_spec. by exists p.
  - symmetry. apply not_true_is_false.
    intros [->%bool_decide_eq_true [p ->]%endswith_spec]%andb_true_iff.
    rewrite str_app_assoc in Hend.
    assert (Py.endswith (p +:+ u +:+ String "." v) (u +:+ String "." v) = true)
      as Hyes by (apply endswith_spec; by exists p).
    congruence.
Qed.

(** X3: for a name [b.e] with [b] and [e] non-empty and no dot in [e], the
    extension is [".tar.gz"] when [e] in lowercase is [gz] and [b] in
    lowercase ends in [.tar]; else ["tar.bz2"] when [e] in lowercase is
    [bz2] and [b] in lowercase ends in [tar]; else the dot and [e] in
    lowercase.  So when [e] is neither, only the text after the last dot
    counts, whatever dots [b] has, and it decides the category. *)
Theorem final_suffix_decides (p : path) (b e : string) :
  Path.name p = b +:+ String "." e →
  b ≠ "" → e ≠ "" → Py.dot_free e = true →
  get_extension_lower p
  = (if bool_decide (Py.lower e = "gz") && Py.endswith (Py.lower b) ".tar"
     then ".tar.gz"
     else if bool_decide (Py.lower e = "bz2") && Py.endswith (Py.lower b) "tar"
          then "tar.bz2"
          else String "." (Py.lower e))
  ∧ (Py.lower e ≠ "gz" → Py.lower e ≠ "bz2" →
     get_extension_lower p = String "." (Py.lower e)
     ∧ classify p = resolve_category (String "." (Py.lower e))).
Proof.
  intros Hname Hb He Hfree.
  assert (get_extension_lower p
          = (if bool_decide (Py.lower e = "gz")
                && Py.endswith (Py.lower b) ".tar"
             then ".tar.gz"
             else if bool_decide (Py.lower e = "bz2")
                     && Py.endswith (Py.lower b) "tar"
                  then "tar.bz2"
                  else String "." (Py.lower e))) as Hext.
  { unfold get_extension_lower, get_extension_lower_in, MULTI_EXTENSIONS.
    cbn [first_endswith]. rewrite Hname, lower_app. cbn [Py.lower].
    change (Py.lower_char ".") with "."%char.
    change ".tar.gz" with (".tar" +:+ String "." "gz") at 1.
    change "tar.bz2" with ("tar" +:+ String "." "bz2") at 1.
    rewrite !endswith_dotted by (by rewrite ?dot_free_lower).
    destruct (bool_decide (Py.lower e = "gz") && _); [done|].
    destruct (bool_decide (Py.lower e = "bz2") && _); [done|].
    unfold Path.suffix. rewrite Hname, suffix_of_split by done.
    cbn [Py.lower]. by change (Py.lower_char ".") with "."%char. }
  split; [exact Hext|]. intros Hgz Hbz.
  rewrite !bool_decide_eq_false_2 in Hext by done. cbn [andb] in Hext.
  split; [exact Hext|]. unfold classify. by rewrite Hext.
Qed.

Lemma final_suffix_decides_witness :
  get_extension_lower ["r"; "Holiday.Video.MP4"] = ".mp4"
  ∧ classify ["r"; "Holiday.Video.MP4"] = resolve_category ".mp4".
Proof.
  destruct (final_suffix_decides ["r"; "Holiday.Video.MP4"] "Holiday.Video"
              "MP4") as [_ Hplain].
  - reflexivity.
  - discriminate.
  - discriminate.
  - reflexivity.
  - apply Hplain; discriminate.
Defined.

(** X4: a name whose only dot is its first character (as [.py]), or its
    last, has no extension and goes to ["Others"]. *)
Theorem dotfiles_have_no_extension (p : path) (e : string) :
  Py.dot_free e = true →
  Path.name p = String "." e ∨ Path.name p = e +:+ "." →
  get_extension_lower p = "" ∧ classify p = "Others".
Proof.
  intros Hfree Hname.
  assert (Py.endswith (Py.lower (Path.name p)) ".tar.gz" = false
          ∧ Py.endswith (Py.lower (Path.name p)) "tar.bz2" = false
          ∧ Py.suffix_of (Path.name p) = "") as (Hgz & Hbz & Hsuffix).
  { destruct Hname as [-> | ->].
    - split_and!.
      + cbn [Py.lower]. change (Py.lower_char ".") with "."%char.
        rewrite endswith_unfold.
        destruct (bool_decide _) eqn:Heq.
        * apply bool_decide_eq_true in Heq. injection Heq as Heq.
          pose proof (dot_free_lower e) as Hl. rewrite Heq, Hfree in Hl. done.
        * apply dot_free_not_endswith; [by rewrite dot_free_lower|done].
      + cbn [Py.lower]. change (Py.lower_char ".") with "."%char.
        rewrite endswith_unfold.
        rewrite bool_decide_eq_false_2 by discriminate.
        apply dot_free_not_endswith; [by rewrite dot_free_lower|done].
      + unfold Py.suffix_of, Py.splits_at. cbn [Py.rfind].
        rewrite rfind_dot_free by done. by rewrite bool_decide_eq_true_2.
    - assert (Py.last_char (Py.lower (e +:+ ".")) = Some "."%char) as Hlast.
      { rewrite lower_app. apply last_char_snoc. }
      split_and!.
      + apply not_true_is_false. intros Hend%endswith_last_char; [|done].
        rewrite Hlast in Hend. done.
      + apply not_true_is_false. intros Hend%endswith_last_char; [|done].
        rewrite Hlast in Hend. done.
      + unfold Py.suffix_of, Py.splits_at.
        rewrite (rfind_split e "") by done.
        rewrite str_app_length. cbn [String.length].
        replace (String.length e + 1 - 1) with (String.length e) by lia.
        by rewrite Nat.ltb_irrefl, andb_false_r. }
  assert (get_extension_lower p = "") as Hext.
  { unfold get_extension_lower, get_extension_lower_in, MULTI_EXTENSIONS.
    cbn [first_endswith]. rewrite Hgz, Hbz. unfold Path.suffix.
    by rewrite Hsuffix. }
  split; [done|]. unfold classify. rewrite Hext. by vm_compute.
Qed.

Lemma dotfiles_have_no_extension_witness :
  get_extension_lower ["home"; ".py"] = "" ∧ classify ["home"; ".py"] = "Others".
Proof.
  apply (dotfiles_have_no_extension ["home"; ".py"] "py").
  - reflexivity.
  - left. reflexivity.
Defined.

Lemma table_entries_checked :
  forallb (λ kc : string * string,
             bool_decide (Py.lower kc.1 = kc.1) && single_suffix kc.1
             && negb (bool_decide (kc.2 = "Others")))
    (map_to_list EXT_MAP) = true.
Proof. vm_compute. reflexivity. Qed.

Lemma table_entry (ext category : string) :
  EXT_MAP !! ext = Some category →
  Py.lower ext = ext ∧ single_suffix ext = true ∧ category ≠ "Others".
Proof.
  intros Hin%elem_of_map_to_list%list_elem_of_In.
  pose proof (proj1 (forallb_forall _ _) table_entries_checked _ Hin) as Hok.
  cbn [fst snd] in Hok.
  apply andb_true_iff in Hok as [[Hlow Hsuf]%andb_true_iff Hcat].
  apply bool_decide_eq_true in Hlow. apply negb_true_iff in Hcat.
  apply bool_decide_eq_false in Hcat. split_and!; assumption.
Qed.

(** X6: every key of [EXT_MAP] is lowercase and is a dot followed by a
    non-empty text without a dot, and no key is mapped to ["Others"]; so the
    category is ["Others"] exactly for the extensions that are not keys,
    among them every extension that is not lowercase and every one not of
    that shape. *)
Theorem table_keys_are_lowercase_suffixes (ext : string) :
  (∀ category, EXT_MAP !! ext = Some category →
     Py.lower ext = ext ∧ single_suffix ext = true ∧ category ≠ "Others")
  ∧ (resolve_category ext = "Others" ↔ EXT_MAP !! ext = None)
  ∧ (Py.lower ext ≠ ext → resolve_category ext = "Others")
  ∧ (single_suffix ext = false → resolve_category ext = "Others").
Proof.
  assert (∀ P : Prop, (∀ category, EXT_MAP !! ext = Some category → P) → ¬ P →
            resolve_category ext = "Others") as Hdefault.
  { intros P HP HnP. unfold resolve_category.
    destruct (EXT_MAP !! ext) as [category|] eqn:Hext; [|done].
    destruct HnP. by eapply HP. }
  split_and!.
  - apply table_entry.
  - unfold resolve_category. destruct (EXT_MAP !! ext) as [category|] eqn:Hext.
    + destruct (table_entry _ _ Hext) as (_ & _ & Hcat). cbn. split; [done|done].
    + done.
  - intros Hlow. apply (Hdefault (Py.lower ext = ext)); [|done].
    intros category Hext. by destruct (table_entry _ _ Hext).
  - intros Hsuf. apply (Hdefault (single_suffix ext = true)).
    + intros category Hext. by destruct (table_entry _ _ Hext) as (_ & ? & _).
    + by rewrite Hsuf.
Qed.

Lemma table_keys_are_lowercase_suffixes_witness :
  resolve_category ".JPG" = "Others" ∧ resolve_category "jpg" = "Others".
Proof.
  destruct (table_keys_are_lowercase_suffixes ".JPG") as (_ & _ & Hcase & _).
  destruct (table_keys_are_lowercase_suffixes "jpg") as (_ & _ & _ & Hdot).
  split.
  - apply Hcase. discriminate.
  - apply Hdot. reflexivity.
Defined.

(** X5: [resolve_category], and so the classifier, returns one of the
    seven labels, and each of the seven labels is the category of some
    extension. *)
Theorem categories_are_the_seven_labels (ext : string) (p : path) (label : string) :
  resolve_category ext
    ∈ ["Images"; "Documents"; "Audio"; "Video"; "Archives"; "Code"; "Others"]
  ∧ classify p
      ∈ ["Images"; "Documents"; "Audio"; "Video"; "Archives"; "Code"; "Others"]
  ∧ (label ∈ ["Images"; "Documents"; "Audio"; "Video"; "Archives"; "Code";
              "Others"] →
     ∃ ext', resolve_category ext' = label).
Proof.
  assert (∀ q, classify q ∈ ["Images"; "Documents"; "Audio"; "Video";
                             "Archives"; "Code"; "Others"]) as Hrange.
  { intros q. apply category_dirs_labels, classify_in_category_dirs. }
  split_and!.
  - unfold resolve_category.
    destruct (EXT_MAP !! ext) as [category|] eqn:Hext.
    + apply category_dirs_labels. unfold category_dirs.
      apply elem_of_union_l, elem_of_list_to_set, list_elem_of_fmap.
      exists (ext, category). split; [done|]. by apply elem_of_map_to_list.
    + cbn. rewrite !elem_of_cons. tauto.
  - apply Hrange.
  - rewrite !elem_of_cons, elem_of_nil.
    intros [->|[->|[->|[->|[->|[->|[->|[]]]]]]]].
    + by exists ".jpg".
    + by exists ".pdf".
    + by exists ".mp3".
    + by exists ".mp4".
    + by exists ".zip".
    + by exists ".py".
    + by exists "".
Qed.

Lemma categories_are_the_seven_labels_witness :
  ∃ ext, resolve_category ext = "Archives".
Proof.
  apply (categories_are_the_seven_labels "" [] "Archives").
  rewrite !elem_of_cons. tauto.
Defined.

(** ** More on the collision resolver *)

Lemma pretty_N_char_not_dot (x : N) : pretty_N_char x ≠ "."%char.
Proof. unfold pretty_N_char. by repeat case_match. Qed.

Lemma pretty_N_go_dot_free (x : N) (s : string) :
  Py.dot_free (pretty_N_go x s) = Py.dot_free s.
Proof.
  revert s. induction (N.lt_wf_0 x) as [x _ IH]; intros s.
  destruct (decide (x = 0)%N) as [->|Hx]; [by rewrite pretty_N_go_0|].
  rewrite pretty_N_go_step by lia. rewrite IH by (apply N.div_lt; lia).
  cbn [Py.dot_free].
  by rewrite bool_decide_eq_false_2 by apply pretty_N_char_not_dot.
Qed.

Lemma str_of_int_dot_free (i : nat) : Py.dot_free (Py.str_of_int i) = true.
Proof.
  unfold Py.str_of_int, pretty, pretty_nat, pretty, pretty_N.
  case_decide; [done|]. by rewrite pretty_N_go_dot_free.
Qed.

Lemma candidate_name (target : path) (i : nat) :
  Path.name (candidate target i)
  = Path.stem target +:+ "_" +:+ Py.str_of_int i +:+ Path.suffix target.
Proof. unfold candidate. by rewrite name_join. Qed.

Lemma candidate_parent (target : path) (i : nat) :
  Path.parent (candidate target i) = Path.parent target.
Proof. unfold candidate. by rewrite parent_join. Qed.

(** X7: the path [make_unique_target] returns lies in the folder of the
    target.  For a target [b.e] it has the suffix of the target, and the
    stem [b] or [b_i] with [i] at least 1.  For a target [b.], which has no
    suffix, a numbered name is [b._i] and its suffix is [._i]. *)
Theorem unique_target_keeps_folder_and_suffix `{FileSystem W}
    (w : W) (target r : path) (fuel : nat) (b e : string) :
  make_unique_target fuel w target = Some r →
  Path.parent r = Path.parent target
  ∧ (Path.name target = b +:+ String "." e →
     b ≠ "" → e ≠ "" → Py.dot_free e = true →
     Path.suffix r = Path.suffix target
     ∧ (Path.stem r = b ∨ ∃ i, 1 ≤ i ∧ Path.stem r = b +:+ "_" +:+ Py.str_of_int i))
  ∧ (Path.name target = b +:+ "." → b ≠ "" → r ≠ target →
     Path.suffix target = ""
     ∧ ∃ i, 1 ≤ i ∧ Path.suffix r = "._" +:+ Py.str_of_int i).
Proof.
  intros Hr.
  assert (r = target ∨ ∃ i, 1 ≤ i ∧ r = candidate target i) as Hshape.
  { destruct (fs_exists w target) eqn:Hex.
    - right. by eapply make_unique_target_shape.
    - left. unfold make_unique_target in Hr. rewrite Hex in Hr. by injection Hr. }
  split_and!.
  - destruct Hshape as [->|(i & _ & ->)]; [done|apply candidate_parent].
  - intros Hname Hb He Hfree.
    assert (Path.suffix target = String "." e) as Hsuffix
      by (unfold Path.suffix; by rewrite Hname, suffix_of_split).
    assert (Path.stem target = b) as Hstem
      by (unfold Path.stem; by rewrite Hname, stem_of_split).
    destruct Hshape as [->|(i & Hi & ->)]; [by auto|].
    assert (Path.name (candidate target i)
            = (b +:+ "_" +:+ Py.str_of_int i) +:+ String "." e) as Hcand.
    { by rewrite candidate_name, Hstem, Hsuffix, !str_app_assoc. }
    assert (b +:+ "_" +:+ Py.str_of_int i ≠ "") as Hne
      by (by intros [? _]%str_app_eq_nil).
    split.
    + unfold Path.suffix at 1. by rewrite Hcand, suffix_of_split.
    + right. exists i. split; [done|]. unfold Path.stem.
      by rewrite Hcand, stem_of_split.
  - intros Hname Hb Hmoved.
    assert (Py.splits_at (b +:+ ".") = None) as Hsplit.
    { unfold Py.splits_at. rewrite (rfind_split b "") by done.
      rewrite str_app_length. cbn [String.length].
      replace (String.length b + 1 - 1) with (String.length b) by lia.
      by rewrite Nat.ltb_irrefl, andb_false_r. }
    assert (Path.suffix target = "") as Hsuffix
      by (unfold Path.suffix, Py.suffix_of; by rewrite Hname, Hsplit).
    assert (Path.stem target = b +:+ ".") as Hstem
      by (unfold Path.stem, Py.stem_of; by rewrite Hname, Hsplit).
    split; [done|].
    destruct Hshape as [->|(i & Hi & ->)]; [done|]. exists i. split; [done|].
    unfold Path.suffix at 1.
    rewrite candidate_name, Hstem, Hsuffix, str_app_nil_r, str_app_assoc.
    change ("." +:+ "_" +:+ ?s) with (String "." ("_" +:+ s)).
    rewrite suffix_of_split; [done|done| |].
    + by intros [? _]%str_app_eq_nil.
    + rewrite dot_free_app. by rewrite str_of_int_dot_free.
Qed.

Lemma unique_target_keeps_folder_and_suffix_witness :
  Path.parent ["pics"; "photo_3.png"] = Path.parent ["pics"; "photo.png"]
  ∧ Path.suffix ["pics"; "photo_3.png"] = Path.suffix ["pics"; "photo.png"].
Proof.
  destruct (unique_target_keeps_folder_and_suffix photos ["pics"; "photo.png"]
              ["pics"; "photo_3.png"] 5 "photo" "png") as (Hparent & Hsuffix & _).
  - reflexivity.
  - split; [exact Hparent|]. apply Hsuffix.
    + reflexivity.
    + discriminate.
    + discriminate.
    + reflexivity.
Defined.

(** X8: on the in-memory file system the search of [make_unique_target]
    ends.  The candidates are pairwise distinct, and within [size w + 1]
    rounds a path is returned; it is free, and more rounds return the
    same. *)
Theorem resolver_ends_on_finite_file_system (w : gmap path node) (target : path) :
  (∀ i j, candidate target i = candidate target j → i = j)
  ∧ ∃ r, make_unique_target (S (size w)) w target = Some r
         ∧ w !! r = None
         ∧ ∀ fuel, S (size w) ≤ fuel → make_unique_target fuel w target = Some r.
Proof.
  split; [apply candidate_inj|].
  destruct (simple_unique_target_total w target) as [r Hr]. exists r.
  split_and!.
  - done.
  - apply make_unique_target_fresh in Hr. cbn in Hr.
    unfold SimpleFS.exists_ in Hr. apply bool_decide_eq_false in Hr.
    by apply eq_None_not_Some.
  - intros fuel Hfuel. by eapply make_unique_target_mono.
Qed.

(** ** Invariants of a run, through the functions *)

Section keeps.
Context `{FileSystem W}.
Variables (root : path) (dry_run include_hidden follow_symlinks : bool).
Variable fuel : nat.
Implicit Types (s : state W) (entry current : path).

Local Abbreviation handle_entry :=
  (handle_entry root dry_run include_hidden follow_symlinks fuel).
Local Abbreviation for_each :=
  (for_each root dry_run include_hidden follow_symlinks fuel).
Local Abbreviation visit_dir :=
  (visit_dir root dry_run include_hidden follow_symlinks fuel).
Local Abbreviation while_stack :=
  (while_stack root dry_run include_hidden follow_symlinks fuel).

Lemma handle_entry_visited entry s : visited (handle_entry entry s).1 = visited s.
Proof.
  pose proof (handle_entry_step root dry_run include_hidden follow_symlinks fuel
                entry s) as Hstep.
  by apply entry_step_stack in Hstep as [? _].
Qed.

(** [I] holds along a run if it is kept by the handling of an entry that a
    listing of a directory already popped can yield ([E]), by a handler of
    the outer [try] and by a pop. *)
Variable I : state W → Prop.
Variable E : path → path → Prop.
Hypothesis listing_E : ∀ (w : W) d entries,
  fs_iterdir w d = inr entries → Forall (E d) entries.
Hypothesis I_entry : ∀ current entry s,
  I s → current ∈ visited s → E current entry → I (handle_entry entry s).1.
Hypothesis I_caught : ∀ current e s, I s → I (caught current e s).
Hypothesis I_popped : ∀ current rest s,
  I s → stack s = current :: rest → I (popped current rest s).

Lemma for_each_keeps current entries s :
  I s → current ∈ visited s → Forall (E current) entries →
  I (for_each entries s).1.
Proof.
  revert s. induction entries as [|entry rest IH]; intros s Hs Hcur Hall; [done|].
  apply Forall_cons in Hall as [Hentry Hrest].
  rewrite for_each_cons. unfold mbind, M_bind.
  pose proof (I_entry _ _ _ Hs Hcur Hentry) as Hs'.
  pose proof (handle_entry_visited entry s) as Hv.
  destruct (handle_entry entry s) as [s' [[]|e|]]; cbn [fst snd] in *; [|done..].
  apply IH; [done| |done]. by rewrite Hv.
Qed.

Lemma visit_dir_keeps current s :
  I s → current ∈ visited s → I (visit_dir current s).1.
Proof.
  intros Hs Hcur. unfold visit_dir, try_except. rewrite listing_bind.
  destruct (fs_iterdir (fs s) current) as [e|entries] eqn:Hls.
  { rewrite handler_caught. by apply I_caught. }
  pose proof (for_each_keeps current entries s Hs Hcur (listing_E _ _ _ Hls))
    as Hs'.
  destruct (for_each entries s) as [s' [[]|e|]]; cbn [fst snd] in *; [done| |done].
  rewrite handler_caught. by apply I_caught.
Qed.

Lemma while_stack_keeps n s : I s → I (while_stack n s).1.
Proof.
  revert s. induction n as [|n IH]; intros s Hs.
  { destruct (stack s) eqn:Hst;
      [by rewrite while_stack_nil|by erewrite while_stack_0]. }
  destruct (stack s) as [|current rest] eqn:Hst; [by rewrite while_stack_nil|].
  rewrite (while_stack_S _ _ _ _ _ _ _ _ _ Hst).
  pose proof (visit_dir_keeps current (popped current rest s)) as Hs'.
  destruct (visit_dir current (popped current rest s)) as [s' [[]|e|]];
    cbn [fst snd] in *.
  - apply IH, Hs'; [by apply I_popped|by left].
  - apply Hs'; [by apply I_popped|by left].
  - apply Hs'; [by apply I_popped|by left].
Qed.

(** [P] holds when the run is over if it holds for a rejected root and is
    implied by the invariant of the loop, before and after the report. *)
Lemma run_keeps (P : state W → Prop) (w : W) :
  (invalid_root w root → P (init_state w)) →
  (fs_exists w root = true → fs_is_dir w root = true → I (start_state w root)) →
  (∀ s, I s → P s ∧ P (reported root s)) →
  P (organize_iterative fuel root dry_run include_hidden follow_symlinks w).1.
Proof.
  intros Hinit Hstart Hend.
  destruct (valid_or_invalid w root) as [[Hex Hdir]|Hbad].
  - rewrite organize_valid by done.
    pose proof (while_stack_keeps fuel _ (Hstart Hex Hdir)) as Hloop.
    destruct (while_stack _ _) as [s [[]|e|]]; cbn [fst snd] in *;
      by apply Hend.
  - rewrite organize_invalid by done. by apply Hinit.
Qed.

End keeps.

(** ** What a run prints *)

Lemma make_unique_target_cases `{FileSystem W} fuel (w : W) (target r : path) :
  make_unique_target fuel w target = Some r →
  r = target ∨ ∃ i, 1 ≤ i ∧ r = candidate target i.
Proof.
  intros Hr. destruct (fs_exists w target) eqn:Hex.
  - right. by eapply make_unique_target_shape.
  - left. unfold make_unique_target in Hr. rewrite Hex in Hr. by injection Hr.
Qed.

Lemma count_snoc {A} (f : A → bool) (l : list A) (x : A) :
  length (filter (λ y, f y) (l ++ [x]))
  = length (filter (λ y, f y) l) + (if f x then 1 else 0).
Proof.
  rewrite filter_app, length_app. f_equal.
  rewrite filter_cons, filter_nil. by destruct (f x).
Qed.

Section printed.
Context `{FileSystem W}.
Variables (root : path) (dry_run include_hidden follow_symlinks : bool).
Variable fuel : nat.
Implicit Types (s : state W) (entry current : path).

Local Abbreviation handle_entry :=
  (handle_entry root dry_run include_hidden follow_symlinks fuel).

Lemma listing_any (w : W) (d : path) (entries : list path) :
  fs_iterdir w d = inr entries → Forall (λ _ : path, True) entries.
Proof. intros _. by apply Forall_true. Qed.

Lemma handle_entry_lands entry s :
  Forall (lands_in_category root) (stdout s) →
  Forall (lands_in_category root) (stdout (handle_entry entry s).1).
Proof.
  intros Hs.
  pose proof (handle_entry_step root dry_run include_hidden follow_symlinks fuel
                entry s) as Hstep.
  destruct Hstep as [|Hdir Hname|w' e Hfile Hmk|w' Hdry Hfile Hmk
                     |w' unique w'' Hdry Hfile Hmk Huniq Hmv
                     |w' unique w'' e Hdry Hfile Hmk Huniq Hmv
                     |w' Hdry Hfile Hmk Huniq]; simpl_state; try exact Hs;
    apply Forall_app; (split; [exact Hs|]); apply Forall_singleton.
  - reflexivity.
  - cbn [lands_in_category]. fold (target_of root entry).
    destruct (make_unique_target_cases _ _ _ _ Huniq) as [->|(i & Hi & ->)].
    + split; [apply parent_join|by left].
    + split; [|right; by exists i].
      rewrite candidate_parent. apply parent_join.
  - exact Logic.I.
Qed.

Lemma bump_count category other (m : gmap string nat) :
  default 0 (bump category m !! other)
  = default 0 (m !! other) + (if bool_decide (category = other) then 1 else 0).
Proof.
  case_bool_decide as Heq.
  - subst other. rewrite bump_lookup. cbn. lia.
  - rewrite bump_other by done. lia.
Qed.

Lemma handle_entry_counts_agree entry s :
  counts_agree s → counts_agree (handle_entry entry s).1.
Proof.
  intros [Hsum Herr].
  pose proof (handle_entry_step root dry_run include_hidden follow_symlinks fuel
                entry s) as Hstep.
  destruct Hstep as [|Hdir Hname|w' e Hfile Hmk|w' Hdry Hfile Hmk
                     |w' unique w'' Hdry Hfile Hmk Huniq Hmv
                     |w' unique w'' e Hdry Hfile Hmk Huniq Hmv
                     |w' Hdry Hfile Hmk Huniq];
    (split; [intros category|]); simpl_state;
    rewrite ?count_snoc, ?bump_count, ?length_app; cbn [moved_to is_error_line];
    rewrite ?Hsum, ?Herr; cbn [length]; lia.
Qed.

Lemma handle_entry_line_of_mode entry s :
  Forall (λ l, line_of_mode dry_run l = true) (stdout s) →
  Forall (λ l, line_of_mode dry_run l = true) (stdout (handle_entry entry s).1).
Proof.
  intros Hs.
  pose proof (handle_entry_step root dry_run include_hidden follow_symlinks fuel
                entry s) as Hstep.
  destruct Hstep as [|Hdir Hname|w' e Hfile Hmk|w' Hdry Hfile Hmk
                     |w' unique w'' Hdry Hfile Hmk Huniq Hmv
                     |w' unique w'' e Hdry Hfile Hmk Huniq Hmv
                     |w' Hdry Hfile Hmk Huniq]; simpl_state; try exact Hs;
    apply Forall_app; (split; [exact Hs|]); apply Forall_singleton;
    cbn [line_of_mode]; by rewrite Hdry.
Qed.

End printed.

(** ** What a run prints, from start to end *)

(** X9: every move a run prints goes into the folder of the file's
    category under the root.  A dry run names [root / category / name]; a
    real run names a path in [root / category] that is [name] or a numbered
    variant of it. *)
Theorem moves_land_in_category_folder `{FileSystem W} (w : W) (root : path)
    (dry_run include_hidden follow_symlinks : bool) (fuel : nat) :
  let final :=
    (organize_iterative fuel root dry_run include_hidden follow_symlinks w).1 in
  Forall (lands_in_category root) (stdout final).
Proof.
  apply (run_keeps root dry_run include_hidden follow_symlinks fuel
           (λ s, Forall (lands_in_category root) (stdout s)) (λ _ _, True)
           listing_any).
  - intros current entry s Hs _ _. by apply handle_entry_lands.
  - intros current e s Hs. unfold caught; simpl_state.
    apply Forall_app. split; [exact Hs|]. apply Forall_singleton.
    destruct (is_PermissionError e); exact Logic.I.
  - intros current rest s Hs _. exact Hs.
  - intros _. constructor.
  - intros _ _. constructor.
  - intros s Hs. split; [exact Hs|]. unfold reported; simpl_state.
    apply Forall_app. split; [exact Hs|]. apply Forall_singleton. exact Logic.I.
Qed.

(** X10: when a run is over, the count of a category in [summary] is the
    number of move lines printed for files of that category (0 for a
    category without a count), and the length of [errors] is the number of
    error lines printed. *)
Theorem summary_counts_printed_moves `{FileSystem W} (w : W) (root : path)
    (dry_run include_hidden follow_symlinks : bool) (fuel : nat) :
  let final :=
    (organize_iterative fuel root dry_run include_hidden follow_symlinks w).1 in
  (∀ category,
     default 0 (summary final !! category)
     = length (filter (λ l, moved_to category l) (stdout final)))
  ∧ length (errors final) = length (filter (λ l, is_error_line l) (stdout final)).
Proof.
  apply (run_keeps root dry_run include_hidden follow_symlinks fuel
           counts_agree (λ _ _, True) listing_any).
  - intros current entry s Hs _ _. by apply handle_entry_counts_agree.
  - intros current e s [Hsum Herr].
    split; [intros category|]; unfold caught; simpl_state;
      rewrite count_snoc, ?length_app; destruct (is_PermissionError e);
      cbn [moved_to is_error_line length]; rewrite ?Hsum, ?Herr; lia.
  - intros current rest s Hs _. exact Hs.
  - intros _. split; [intros category|]; reflexivity.
  - intros _ _. split; [intros category|]; reflexivity.
  - intros s [Hsum Herr]. split; [by split|].
    split; [intros category|]; unfold reported; simpl_state;
      rewrite count_snoc; cbn [moved_to is_error_line]; rewrite ?Hsum, ?Herr; lia.
Qed.

(** X11: a dry run prints no [Moved] and no [Error moving] line, and a
    real run prints no [[DRY] Would Move] line. *)
Theorem lines_fit_the_mode `{FileSystem W} (w : W) (root : path)
    (dry_run include_hidden follow_symlinks : bool) (fuel : nat) :
  let final :=
    (organize_iterative fuel root dry_run include_hidden follow_symlinks w).1 in
  Forall (λ l, line_of_mode dry_run l = true) (stdout final).
Proof.
  apply (run_keeps root dry_run include_hidden follow_symlinks fuel
           (λ s, Forall (λ l, line_of_mode dry_run l = true) (stdout s))
           (λ _ _, True) listing_any).
  - intros current entry s Hs _ _. by apply handle_entry_line_of_mode.
  - intros current e s Hs. unfold caught; simpl_state.
    apply Forall_app. split; [exact Hs|]. apply Forall_singleton.
    by destruct (is_PermissionError e).
  - intros current rest s Hs _. exact Hs.
  - intros _. constructor.
  - intros _ _. constructor.
  - intros s Hs. split; [exact Hs|]. unfold reported; simpl_state.
    apply Forall_app. split; [exact Hs|]. by apply Forall_singleton.
Qed.

(** ** Hidden entries, and the order of the walk *)

Section filters.
Context `{FileSystem W}.
Variables (root : path) (dry_run include_hidden follow_symlinks : bool).
Variable fuel : nat.
Implicit Types (s : state W) (entry current : path).

Local Abbreviation handle_entry :=
  (handle_entry root dry_run include_hidden follow_symlinks fuel).
Local Abbreviation for_each :=
  (for_each root dry_run include_hidden follow_symlinks fuel).
Local Abbreviation visit_dir :=
  (visit_dir root dry_run include_hidden follow_symlinks fuel).

Lemma hidden_entry_skipped entry s :
  include_hidden = false → hidden entry = true →
  handle_entry entry s = (s, Ok ()).
Proof.
  intros Hflag Hhid. unfold handle_entry. unfold hidden in Hhid.
  by rewrite Hflag, Hhid.
Qed.

(** What an entry can add to the output: one line about the entry. *)
Lemma entry_step_stdout entry s s' o :
  entry_step root dry_run fuel entry s s' o →
  stdout s' = stdout s
  ∨ ∃ l, stdout s' = stdout s ++ [l] ∧ move_source l = Some entry.
Proof. destruct 1; simpl_state; eauto. Qed.

Lemma handle_entry_effect entry s :
  let s' := (handle_entry entry s).1 in
  (handle_entry entry s = (s, Ok ())
   ∨ include_hidden = true ∨ hidden entry = false)
  ∧ visited s' = visited s
  ∧ (stack s' = stack s ∨ stack s' = entry :: stack s)
  ∧ (stdout s' = stdout s
     ∨ ∃ l, stdout s' = stdout s ++ [l] ∧ move_source l = Some entry).
Proof.
  intros s'. subst s'.
  pose proof (handle_entry_step root dry_run include_hidden follow_symlinks fuel
                entry s) as Hstep.
  split_and!.
  - assert (include_hidden = true ∨ include_hidden = false) as [?|Hflag]
      by (destruct include_hidden; auto); [by auto|].
    destruct (hidden entry) eqn:Hhid; [|by auto].
    left. by apply hidden_entry_skipped.
  - by apply entry_step_stack in Hstep as [? _].
  - apply entry_step_stack in Hstep as [_ [?|[? _]]]; by auto.
  - by eapply entry_step_stdout.
Qed.

Lemma for_each_nil s : for_each [] s = (s, Ok ()).
Proof. reflexivity. Qed.

Lemma for_each_app pre rest s s1 :
  for_each pre s = (s1, Ok ()) → for_each (pre ++ rest) s = for_each rest s1.
Proof.
  revert s. induction pre as [|entry pre IH]; intros s.
  { by intros [= ->]. }
  rewrite <-app_comm_cons, !for_each_cons. unfold mbind, M_bind.
  destruct (handle_entry entry s) as [s' [[]|e|]]; [apply IH|done..].
Qed.

Lemma mkdir_error_raised entry s w' e :
  include_hidden = true ∨ hidden entry = false →
  follow_symlinks = true ∨ fs_is_symlink (fs s) entry = false →
  fs_is_dir (fs s) entry = false →
  fs_is_file (fs s) entry = true →
  fs_mkdir (fs s) (root // classify entry) = (w', Some e) →
  handle_entry entry s =
    (State w' (stdout s) (stack s) (summary s) (errors s) (S (processed s))
       (visited s),
     Raise e).
Proof.
  intros Hhidden Hlink Hdir Hfile Hmk.
  unfold handle_entry, mbind, M_bind, query. unfold hidden in Hhidden.
  assert (negb include_hidden && Py.startswith (Path.name entry) "." = false)
    as -> by (destruct Hhidden as [-> | ->]; [done|apply andb_false_r]).
  assert (fs_is_symlink (fs s) entry && negb follow_symlinks = false)
    as -> by (destruct Hlink as [-> | ->]; [apply andb_false_r|done]).
  rewrite Hdir, Hfile.
  unfold handle_file, try_except, unique_target, mbind, M_bind, inspect,
    effect, print, count, record_error, update, set_fs.
  fold (classify entry). fold (target_of root entry). simpl_state.
  by rewrite Hmk.
Qed.

End filters.

(** X12: with [include_hidden] false, an entry whose name starts with a
    dot leaves the state as it is; so no directory listed or pending, other
    than the root, and no file named in a move line has such a name. *)
Theorem hidden_entries_ignored `{FileSystem W} (w : W) (root : path)
    (dry_run follow_symlinks : bool) (fuel : nat) :
  let final :=
    (organize_iterative fuel root dry_run false follow_symlinks w).1 in
  (∀ s entry,
     hidden entry = true →
     handle_entry root dry_run false follow_symlinks fuel entry s = (s, Ok ()))
  ∧ (∀ d, d ∈ stack final ++ visited final → d = root ∨ hidden d = false)
  ∧ (∀ l src, l ∈ stdout final → move_source l = Some src → hidden src = false).
Proof.
  intros final. split.
  { intros s entry. by apply hidden_entry_skipped. }
  subst final.
  apply (run_keeps root dry_run false follow_symlinks fuel
           (λ s, (∀ d, d ∈ stack s ++ visited s → d = root ∨ hidden d = false)
                 ∧ (∀ l src, l ∈ stdout s → move_source l = Some src →
                             hidden src = false))
           (λ _ _, True) listing_any).
  - intros current entry s [Hdirs Hsrc] _ _.
    destruct (handle_entry_effect root dry_run false follow_symlinks fuel entry s)
      as (Hskip & Hvis & Hstack & Hout).
    destruct Hskip as [-> |[?|Hhid]]; [done|done|].
    split.
    + intros d. rewrite Hvis. destruct Hstack as [-> | ->]; [apply Hdirs|].
      rewrite <-app_comm_cons. intros [-> |Hd]%elem_of_cons; [by right|].
      by apply Hdirs.
    + intros l src. destruct Hout as [-> |(l' & -> & Hl')]; [apply Hsrc|].
      intros [Hl| ->%list_elem_of_singleton]%elem_of_app; [by apply Hsrc|].
      rewrite Hl'. by intros [= <-].
  - intros current e s [Hdirs Hsrc]. split; [exact Hdirs|].
    unfold caught; simpl_state. intros l src.
    intros [Hl| ->%list_elem_of_singleton]%elem_of_app; [by apply Hsrc|].
    by destruct (is_PermissionError e).
  - intros current rest s [Hdirs Hsrc] Hstack. split; [|exact Hsrc].
    unfold popped; simpl_state. intros d Hd. apply Hdirs. rewrite Hstack.
    rewrite elem_of_app, elem_of_cons in Hd.
    rewrite elem_of_app, elem_of_cons. tauto.
  - intros _. split; [by intros d Hd%elem_of_nil|by intros l src Hl%elem_of_nil].
  - intros _ _. split.
    + intros d Hd. left. unfold start_state in Hd; simpl_state.
      by apply list_elem_of_singleton in Hd.
    + by intros l src Hl%elem_of_nil.
  - intros s [Hdirs Hsrc]. split; [by split|]. split; [exact Hdirs|].
    unfold reported; simpl_state. intros l src.
    intros [Hl| ->%list_elem_of_singleton]%elem_of_app; [by apply Hsrc|done].
Qed.

Lemma hidden_entries_ignored_witness :
  handle_entry ["r"] false false true 9 ["r"; ".git"] (start_state sample ["r"])
  = (start_state sample ["r"], Ok ()).
Proof.
  destruct (hidden_entries_ignored sample ["r"] false true 9) as (Hskip & _).
  apply Hskip. reflexivity.
Defined.

Lemma prefix_join_strict (root d : path) (x : string) :
  root `prefix_of` d → strict_prefix root (d // x).
Proof.
  intros Hroot. eapply strict_prefix_trans; [|done].
  destruct (decide (root = d)) as [->|Hne].
  - apply strict_prefix_join.
  - split; [by apply prefix_app_r|].
    intros ->. apply prefix_length in Hroot.
    unfold Path.join in Hroot. rewrite length_app in Hroot. cbn in Hroot. lia.
Qed.

(** X13: where the listing of a directory [d] yields paths [d / x], as
    [Path.iterdir] does, every directory listed or pending has the root as
    a prefix, and every file named in a move line lies strictly below the
    root. *)
Theorem walk_stays_below_root `{FileSystem W} (w : W) (root : path)
    (dry_run include_hidden follow_symlinks : bool) (fuel : nat) :
  (∀ (w' : W) d entries,
     fs_iterdir w' d = inr entries →
     Forall (λ entry, ∃ x, entry = d // x) entries) →
  let final :=
    (organize_iterative fuel root dry_run include_hidden follow_symlinks w).1 in
  (∀ d, d ∈ stack final ++ visited final → root `prefix_of` d)
  ∧ (∀ l src, l ∈ stdout final → move_source l = Some src →
              strict_prefix root src).
Proof.
  intros Hlisting.
  apply (run_keeps root dry_run include_hidden follow_symlinks fuel
           (λ s, (∀ d, d ∈ stack s ++ visited s → root `prefix_of` d)
                 ∧ (∀ l src, l ∈ stdout s → move_source l = Some src →
                             strict_prefix root src))
           (λ d entry, ∃ x, entry = d // x) Hlisting).
  - intros current entry s [Hdirs Hsrc] Hcur [x ->].
    assert (root `prefix_of` current) as Hroot
      by (apply Hdirs, elem_of_app; by right).
    destruct (handle_entry_effect root dry_run include_hidden follow_symlinks
                fuel (current // x) s) as (_ & Hvis & Hstack & Hout).
    split.
    + intros d. rewrite Hvis. destruct Hstack as [-> | ->]; [apply Hdirs|].
      rewrite <-app_comm_cons. intros [-> |Hd]%elem_of_cons; [|by apply Hdirs].
      by apply prefix_app_r.
    + intros l src. destruct Hout as [-> |(l' & -> & Hl')]; [apply Hsrc|].
      intros [Hl| ->%list_elem_of_singleton]%elem_of_app; [by apply Hsrc|].
      rewrite Hl'. intros [= <-]. by apply prefix_join_strict.
  - intros current e s [Hdirs Hsrc]. split; [exact Hdirs|].
    unfold caught; simpl_state. intros l src.
    intros [Hl| ->%list_elem_of_singleton]%elem_of_app; [by apply Hsrc|].
    by destruct (is_PermissionError e).
  - intros current rest s [Hdirs Hsrc] Hstack. split; [|exact Hsrc].
    unfold popped; simpl_state. intros d Hd. apply Hdirs. rewrite Hstack.
    rewrite elem_of_app, elem_of_cons in Hd.
    rewrite elem_of_app, elem_of_cons. tauto.
  - intros _. split; [by intros d Hd%elem_of_nil|by intros l src Hl%elem_of_nil].
  - intros _ _. split.
    + intros d Hd. unfold start_state in Hd; simpl_state.
      by apply list_elem_of_singleton in Hd as ->.
    + by intros l src Hl%elem_of_nil.
  - intros s [Hdirs Hsrc]. split; [by split|]. split; [exact Hdirs|].
    unfold reported; simpl_state. intros l src.
    intros [Hl| ->%list_elem_of_singleton]%elem_of_app; [by apply Hsrc|done].
Qed.

Lemma walk_stays_below_root_witness :
  let final := (organize_iterative 9 ["r"] false true true sample).1 in
  Forall (λ d, ["r"] `prefix_of` d) (stack final ++ visited final).
Proof.
  intros final. apply Forall_forall.
  destruct (walk_stays_below_root sample ["r"] false true true 9) as [Hdirs _].
  - intros w' d entries Hls. apply Forall_forall.
    by destruct (simple_listing w' d entries Hls).
  - exact Hdirs.
Defined.

(** The loop, when it ends, has emptied the stack, and the first directory
    it listed is the one it was started with. *)
Lemma loop_lists_root_first `{FileSystem W} (w : W) (root : path)
    (dry_run include_hidden follow_symlinks : bool) (fuel n : nat) :
  let r := while_stack root dry_run include_hidden follow_symlinks fuel n
             (start_state w root) in
  r.2 = Ok () → stack r.1 = [] ∧ last (visited r.1) = Some root.
Proof.
  intros r Hok. subst r.
  pose proof (while_stack_outcome root dry_run include_hidden follow_symlinks
                fuel n (start_state w root)) as Hout.
  pose proof (while_stack_keeps root dry_run include_hidden follow_symlinks fuel
                (λ s, (visited s = [] ∧ stack s = [root])
                      ∨ last (visited s) = Some root)
                (λ _ _, True) listing_any) as Hkeep.
  cbv beta in Hkeep.
  specialize (λ Hentry Hcaught Hpopped,
                Hkeep Hentry Hcaught Hpopped n (start_state w root)
                  (or_introl (conj eq_refl eq_refl))) as Hfinal.
  clear Hkeep.
  assert (let s := (while_stack root dry_run include_hidden follow_symlinks
                      fuel n (start_state w root)).1 in
          (visited s = [] ∧ stack s = [root]) ∨ last (visited s) = Some root)
    as Hlast.
  { apply Hfinal.
    - intros current entry s Hs Hcur _. right.
      rewrite handle_entry_visited.
      destruct Hs as [[Hnil _]|?]; [|done]. rewrite Hnil in Hcur.
      by apply elem_of_nil in Hcur.
    - intros current e s Hs. exact Hs.
    - intros current rest s Hs Hstack. right. unfold popped; simpl_state.
      destruct Hs as [[-> Hroot]|Hlast].
      + rewrite Hroot in Hstack. by injection Hstack as <- _.
      + destruct (visited s) as [|d ds]; [done|]. by rewrite last_cons, Hlast. }
  clear Hfinal. cbv zeta in Hlast.
  destruct Hout as [[_ Hnil]|Hout]; [|congruence].
  split; [exact Hnil|].
  destruct Hlast as [[_ Hst]|?]; [congruence|done].
Qed.

(** X14: a run that returns normally has emptied the stack, and the first
    directory it listed is the root. *)
Theorem walk_starts_at_root_and_drains_stack `{FileSystem W} (w : W)
    (root : path) (dry_run include_hidden follow_symlinks : bool) (fuel : nat) :
  let run :=
    organize_iterative fuel root dry_run include_hidden follow_symlinks w in
  run.2 = Ok () →
  stack run.1 = [] ∧ last (visited run.1) = Some root.
Proof.
  intros run Hok. subst run.
  destruct (valid_or_invalid w root) as [[Hex Hdir]|Hbad].
  2: { rewrite organize_invalid in Hok by done. discriminate. }
  rewrite organize_valid in Hok |- * by done.
  pose proof (loop_lists_root_first w root dry_run include_hidden
                follow_symlinks fuel fuel) as Hloop.
  cbv zeta in Hloop.
  destruct (while_stack _ _ _ _ _ _ _) as [s [[]|e|]]; cbn [fst snd] in *;
    [|discriminate..].
  unfold reported; simpl_state. by apply Hloop.
Qed.

Lemma walk_starts_at_root_and_drains_stack_witness :
  let run := organize_iterative 9 ["r"] false true true sample in
  stack run.1 = [] ∧ last (visited run.1) = Some ["r"].
Proof.
  apply (walk_starts_at_root_and_drains_stack sample ["r"] false true true 9).
  vm_compute. reflexivity.
Defined.

(** X15: [mkdir] of the category folder (line 77) is outside the inner
    [try].  When it raises for a file, the handler of the outer [try]
    records the error for the directory being listed, not for the file; the
    file is counted as inspected and in no bucket; and the entries after it
    in the listing are not handled. *)
Theorem category_folder_failure_ends_listing `{FileSystem W} (root : path)
    (dry_run include_hidden follow_symlinks : bool) (fuel : nat)
    (current entry : path) (pre rest : list path) (s s1 : state W)
    (w' : W) (e : exn) :
  fs_iterdir (fs s) current = inr (pre ++ entry :: rest) →
  for_each root dry_run include_hidden follow_symlinks fuel pre s = (s1, Ok ()) →
  include_hidden = true ∨ hidden entry = false →
  follow_symlinks = true ∨ fs_is_symlink (fs s1) entry = false →
  fs_is_dir (fs s1) entry = false →
  fs_is_file (fs s1) entry = true →
  fs_mkdir (fs s1) (root // classify entry) = (w', Some e) →
  visit_dir root dry_run include_hidden follow_symlinks fuel current s
  = (caught current e
       (State w' (stdout s1) (stack s1) (summary s1) (errors s1)
          (S (processed s1)) (visited s1)),
     Ok ()).
Proof.
  intros Hls Hpre Hhidden Hlink Hdir Hfile Hmk.
  unfold visit_dir, try_except. rewrite listing_bind, Hls.
  rewrite (for_each_app _ _ _ _ _ _ _ _ _ Hpre), for_each_cons.
  unfold mbind at 1, M_bind at 1.
  rewrite (mkdir_error_raised _ _ _ _ _ _ _ _ _ Hhidden Hlink Hdir Hfile Hmk).
  apply handler_caught.
Qed.

Lemma category_folder_failure_ends_listing_witness :
  visit_dir ["r"] true true true 9 ["r"] (popped ["r"] [] (start_state clash ["r"]))
  = (caught ["r"] (OSError "[Errno 17] File exists: '/r/Others'")
       (State clash [] [] ∅ [] 1 [["r"]]),
     Ok ()).
Proof.
  apply (category_folder_failure_ends_listing ["r"] true true true 9 ["r"]
           ["r"; "Others"] [] [["r"; "a.jpg"]; ["r"; "b"]]
           (popped ["r"] [] (start_state clash ["r"]))
           (popped ["r"] [] (start_state clash ["r"]))
           clash (OSError "[Errno 17] File exists: '/r/Others'")).
  - vm_compute. reflexivity.
  - reflexivity.
  - left. reflexivity.
  - left. reflexivity.
  - vm_compute. reflexivity.
  - vm_compute. reflexivity.
  - reflexivity.
Defined.

(** ** What a run does to the in-memory file system *)

Section simple_effects.
Implicit Types (w : gmap path node) (p q d src dst : path) (n : node).

Lemma simple_is_file w p : fs_is_file w p = true → w !! p = Some File.
Proof.
  change (SimpleFS.is_file w p = true → w !! p = Some File).
  unfold SimpleFS.is_file. by repeat case_match.
Qed.

Lemma simple_is_file_iff w p : w !! p = Some File → fs_is_file w p = true.
Proof.
  change (w !! p = Some File → SimpleFS.is_file w p = true).
  unfold SimpleFS.is_file. by intros ->.
Qed.

Lemma simple_free w p : fs_exists w p = false → w !! p = None.
Proof.
  change (SimpleFS.exists_ w p = false → w !! p = None).
  unfold SimpleFS.exists_. intros Hp%bool_decide_eq_false.
  by apply eq_None_not_Some.
Qed.

Lemma simple_is_dir w p : fs_is_dir w p = SimpleFS.is_Dir (w !! p).
Proof. reflexivity. Qed.

Lemma simple_mkdir_keeps w p w' (r : option exn) q n :
  fs_mkdir w p = (w', r) → w !! q = Some n → w' !! q = Some n.
Proof.
  intros Hmk Hq. pose proof (mkdir_grown w p q) as Hg.
  change (SimpleFS.mkdir w p) with (fs_mkdir w p) in Hg. rewrite Hmk in Hg.
  destruct Hg as [Hg|[Hg _]]; cbn [fst] in Hg; congruence.
Qed.

Lemma join_ne d x : d ≠ d // x.
Proof.
  intros Heq. apply (f_equal length) in Heq.
  unfold Path.join in Heq. rewrite length_app in Heq. cbn in Heq. lia.
Qed.

(** [mkdir(parents=True, exist_ok=True)] of an entry of a directory makes
    that entry or nothing. *)
Lemma mkdir_in_dir w d x :
  SimpleFS.is_Dir (w !! d) = true →
  (SimpleFS.mkdir w (d // x)).1 = w
  ∨ (w !! (d // x) = None
     ∧ (SimpleFS.mkdir w (d // x)).1 = <[d // x := Dir true true]> w).
Proof.
  intros Hd. unfold SimpleFS.mkdir.
  assert (length (d // x) = S (length d)) as ->
    by (unfold Path.join; rewrite length_app; cbn; lia).
  cbn [SimpleFS.mkdir_parents]. unfold SimpleFS.os_mkdir. rewrite parent_join.
  destruct (w !! (d // x)) as [n|] eqn:Hp.
  { left. cbn. by case_match. }
  destruct (w !! d) as [[| |rd wd]|]; try discriminate.
  destruct wd; cbn; [by auto|]. left. by case_match.
Qed.

Lemma simple_mkdir_in_dir w d x w' (r : option exn) q :
  SimpleFS.is_Dir (w !! d) = true →
  fs_mkdir w (d // x) = (w', r) →
  SimpleFS.is_Dir (w' !! d) = true
  ∧ (w' !! q = w !! q
     ∨ (q = d // x ∧ w !! q = None ∧ w' !! q = Some (Dir true true))).
Proof.
  intros Hd Hmk. pose proof (mkdir_in_dir w d x Hd) as Hcases.
  change (SimpleFS.mkdir w (d // x)) with (fs_mkdir w (d // x)) in Hcases.
  rewrite Hmk in Hcases. cbn [fst] in Hcases.
  destruct Hcases as [-> |[Hnone ->]]; [by auto|]. split.
  - rewrite lookup_insert_ne; [done|]. intros Heq. by apply (join_ne d x).
  - destruct (decide (q = d // x)) as [-> |Hne].
    + right. by rewrite lookup_insert_eq.
    + left. by rewrite lookup_insert_ne.
Qed.

(** [shutil.move] of a regular file onto a free name: the file system after
    it, whether it succeeds or not. *)
Lemma move_file_cases w src dst :
  w !! src = Some File → w !! dst = None →
  ((SimpleFS.move w src dst).2 = None
   ∧ ((SimpleFS.move w src dst).1 = <[dst := File]> (delete src w)
      ∨ (SimpleFS.move w src dst).1 = delete src (<[dst := File]> w)))
  ∨ ((SimpleFS.move w src dst).2 ≠ None
     ∧ ((SimpleFS.move w src dst).1 = w
        ∨ (SimpleFS.move w src dst).1 = <[dst := File]> w)).
Proof.
  intros Hsrc Hdst.
  unfold SimpleFS.move, SimpleFS.is_dir, SimpleFS.os_rename.
  rewrite Hdst, Hsrc. cbn [SimpleFS.is_Dir andb].
  repeat case_match; simplify_eq; cbn [fst snd]; naive_solver.
Qed.

Lemma simple_move_lookup w src dst w'' (r : option exn) :
  w !! src = Some File → w !! dst = None →
  fs_move w src dst = (w'', r) →
  (∀ q, q ≠ src → q ≠ dst → w'' !! q = w !! q)
  ∧ (r ≠ None → w'' !! src = Some File)
  ∧ (r = None → w'' !! src = None ∧ w'' !! dst = Some File).
Proof.
  intros Hsrc Hdst Hmv. assert (src ≠ dst) as Hne by congruence.
  pose proof (move_file_cases w src dst Hsrc Hdst) as Hcases.
  change (SimpleFS.move w src dst) with (fs_move w src dst) in Hcases.
  rewrite Hmv in Hcases. cbn [fst snd] in Hcases.
  destruct Hcases as [[-> [-> | ->]]|[Hr [-> | ->]]]; split_and!;
    try done; intros;
    rewrite ?lookup_insert_eq, ?lookup_delete_eq;
    rewrite ?lookup_insert_ne, ?lookup_delete_ne by done;
    rewrite ?lookup_insert_eq, ?lookup_delete_eq;
    rewrite ?lookup_insert_ne, ?lookup_delete_ne by done;
    auto.
Qed.

Lemma simple_listing_joins w d entries :
  fs_iterdir w d = inr entries → Forall (λ entry, ∃ x, entry = d // x) entries.
Proof.
  intros Hls. apply Forall_forall. by destruct (simple_listing w d entries Hls).
Qed.

End simple_effects.

Lemma classify_labels (p : path) :
  classify p
  ∈ ["Images"; "Documents"; "Audio"; "Video"; "Archives"; "Code"; "Others"].
Proof. apply category_dirs_labels, classify_in_category_dirs. Qed.

(** X16: on the in-memory file system, all a dry run changes is that it
    may create category folders in the root: every path holds what it held
    before, or was free and is now a directory [root / category]. *)
Theorem dry_run_only_adds_category_folders (w : gmap path node) (root : path)
    (include_hidden follow_symlinks : bool) (fuel : nat) (q : path) :
  let final :=
    (organize_iterative fuel root true include_hidden follow_symlinks w).1 in
  fs final !! q = w !! q
  ∨ (w !! q = None
     ∧ fs final !! q = Some (Dir true true)
     ∧ ∃ category,
         category ∈ ["Images"; "Documents"; "Audio"; "Video"; "Archives";
                     "Code"; "Others"]
         ∧ q = root // category).
Proof.
  pose (added (s : state (gmap path node)) :=
          fs s !! q = w !! q
          ∨ (w !! q = None
             ∧ fs s !! q = Some (Dir true true)
             ∧ ∃ category,
                 category ∈ ["Images"; "Documents"; "Audio"; "Video";
                             "Archives"; "Code"; "Others"]
                 ∧ q = root // category)).
  apply (run_keeps root true include_hidden follow_symlinks fuel
           (λ s, SimpleFS.is_Dir (fs s !! root) = true ∧ added s)
           (λ _ _, True) listing_any).
  - intros current entry s [Hroot Hq] _ _.
    pose proof (handle_entry_step root true include_hidden follow_symlinks fuel
                  entry s) as Hstep.
    assert (∀ w' r,
              fs_mkdir (fs s) (root // classify entry) = (w', r) →
              SimpleFS.is_Dir (w' !! root) = true
              ∧ (w' !! q = w !! q
                 ∨ (w !! q = None
                    ∧ w' !! q = Some (Dir true true)
                    ∧ ∃ category,
                        category ∈ ["Images"; "Documents"; "Audio"; "Video";
                                    "Archives"; "Code"; "Others"]
                        ∧ q = root // category))) as Hmkdir.
    { intros w' r Hmk.
      destruct (simple_mkdir_in_dir _ _ _ _ _ q Hroot Hmk)
        as [Hroot' [Hsame|(Heq & Hnone & Hnew)]].
      - split; [exact Hroot'|]. rewrite Hsame. exact Hq.
      - split; [exact Hroot'|]. right. split_and!.
        + destruct Hq as [<- |(_ & Hdir & _)]; [exact Hnone|congruence].
        + exact Hnew.
        + exists (classify entry). split; [apply classify_labels|exact Heq]. }
    destruct Hstep as [|Hdir Hname|w' e Hfile Hmk|w' Hdry Hfile Hmk
                       |w' unique w'' Hdry Hfile Hmk Huniq Hmv
                       |w' unique w'' e Hdry Hfile Hmk Huniq Hmv
                       |w' Hdry Hfile Hmk Huniq]; simpl_state;
      [by split|by split|exact (Hmkdir _ _ Hmk)|exact (Hmkdir _ _ Hmk)
      |discriminate..].
  - intros current e s Hs. exact Hs.
  - intros current rest s Hs _. exact Hs.
  - intros _. by left.
  - intros _ Hdir. split; [exact Hdir|by left].
  - intros s [_ Hq]. split; exact Hq.
Qed.



Lemma unique_target_below_root `{FileSystem W} (fuel : nat) (w : W)
    (root entry unique : path) :
  make_unique_target fuel w (target_of root entry) = Some unique →
  root `prefix_of` unique.
Proof.
  intros [-> |(i & _ & ->)]%make_unique_target_cases.
  - unfold target_of, Path.join. by apply prefix_app_r, prefix_app_r.
  - unfold candidate, target_of. rewrite parent_join.
    unfold Path.join. by apply prefix_app_r, prefix_app_r.
Qed.

(** X18: on the in-memory file system, a run changes nothing outside the
    root: a path that has not the root as a prefix holds after the run what
    it held before. *)
Theorem nothing_outside_root_changes (w : gmap path node) (root : path)
    (dry_run include_hidden follow_symlinks : bool) (fuel : nat) (q : path) :
  let final :=
    (organize_iterative fuel root dry_run include_hidden follow_symlinks w).1 in
  ¬ root `prefix_of` q → fs final !! q = w !! q.
Proof.
  intros final Hout. subst final.
  apply (run_keeps root dry_run include_hidden follow_symlinks fuel
           (λ s, SimpleFS.is_Dir (fs s !! root) = true
                 ∧ (∀ d, d ∈ stack s ++ visited s → root `prefix_of` d)
                 ∧ fs s !! q = w !! q)
           (λ d entry, ∃ x, entry = d // x) simple_listing_joins)
    with (P := λ s, fs s !! q = w !! q).
  - intros current entry s (Hroot & Hdirs & Hq) Hcur [x ->].
    pose proof (handle_entry_step root dry_run include_hidden follow_symlinks
                  fuel (current // x) s) as Hstep.
    assert (root `prefix_of` current // x) as Hentry.
    { apply prefix_app_r, Hdirs, elem_of_app. by right. }
    assert (SimpleFS.is_Dir
              (fs (handle_entry root dry_run include_hidden follow_symlinks
                     fuel (current // x) s).1 !! root) = true
            ∧ fs (handle_entry root dry_run include_hidden follow_symlinks
                    fuel (current // x) s).1 !! q = w !! q) as [Hroot' Hq'].
    { (* the root stays a directory, and [q] as it is *)
      assert (∀ w' r,
                fs_mkdir (fs s) (root // classify (current // x)) = (w', r) →
                SimpleFS.is_Dir (w' !! root) = true ∧ w' !! q = w !! q)
        as Hmkdir.
      { intros w' r Hmk.
        destruct (simple_mkdir_in_dir _ _ _ _ _ q Hroot Hmk)
          as [Hroot' [Hsame|(-> & _)]].
        - split; [exact Hroot'|]. by rewrite Hsame.
        - destruct Hout. by apply prefix_app_r. }
      assert (∀ w' unique w'' r,
                fs_is_file (fs s) (current // x) = true →
                fs_mkdir (fs s) (root // classify (current // x)) = (w', None) →
                make_unique_target fuel w' (target_of root (current // x))
                = Some unique →
                fs_move w' (current // x) unique = (w'', r) →
                SimpleFS.is_Dir (w'' !! root) = true ∧ w'' !! q = w !! q)
        as Hmove.
      { intros w' unique w'' r Hfile Hmk Huniq Hmv.
        destruct (Hmkdir _ _ Hmk) as [Hroot' Hq'].
        assert (w' !! (current // x) = Some File) as Hsrc.
        { eapply simple_mkdir_keeps; [done|]. by apply simple_is_file. }
        assert (w' !! unique = None) as Hfree.
        { apply simple_free. by eapply make_unique_target_fresh. }
        destruct (simple_move_lookup _ _ _ _ _ Hsrc Hfree Hmv) as (Hother & _).
        split.
        - rewrite Hother; [done| |].
          + intros Heq. rewrite Heq, Hsrc in Hroot'. discriminate.
          + intros Heq. rewrite Heq, Hfree in Hroot'. discriminate.
        - rewrite Hother; [done| |].
          + by intros ->.
          + intros ->. destruct Hout. by eapply unique_target_below_root. }
      destruct Hstep as [|Hdir Hname|w' e Hfile Hmk|w' Hdry Hfile Hmk
                         |w' unique w'' Hdry Hfile Hmk Huniq Hmv
                         |w' unique w'' e Hdry Hfile Hmk Huniq Hmv
                         |w' Hdry Hfile Hmk Huniq]; simpl_state.
      - by split.
      - by split.
      - exact (Hmkdir _ _ Hmk).
      - exact (Hmkdir _ _ Hmk).
      - exact (Hmove _ _ _ _ Hfile Hmk Huniq Hmv).
      - exact (Hmove _ _ _ _ Hfile Hmk Huniq Hmv).
      - exact (Hmkdir _ _ Hmk). }
    split_and!; [exact Hroot'| |exact Hq'].
    apply entry_step_stack in Hstep as [Hvis Hstack]. intros d.
    rewrite Hvis. destruct Hstack as [-> |(-> & _)]; [apply Hdirs|].
    rewrite <-app_comm_cons. intros [-> |Hd]%elem_of_cons; [done|].
    by apply Hdirs.
  - intros current e s Hs. exact Hs.
  - intros current rest s (Hroot & Hdirs & Hq) Hstack.
    split_and!; [exact Hroot| |exact Hq].
    unfold popped; simpl_state. intros d Hd. apply Hdirs. rewrite Hstack.
    rewrite elem_of_app, elem_of_cons in Hd.
    rewrite elem_of_app, elem_of_cons. tauto.
  - intros _. reflexivity.
  - intros _ Hdir. split_and!; [exact Hdir| |reflexivity].
    intros d Hd. unfold start_state in Hd; simpl_state.
    by apply list_elem_of_singleton in Hd as ->.
  - intros s (_ & _ & Hq). by split.
Qed.

Lemma nothing_outside_root_changes_witness :
  let final := (organize_iterative 9 ["r"; "sub"] false true true sample).1 in
  fs final !! ["r"; "a.jpg"] = sample !! ["r"; "a.jpg"].
Proof.
  apply (nothing_outside_root_changes sample ["r"; "sub"] false true true 9
           ["r"; "a.jpg"]).
  intros [k Hk]. simpl in Hk. discriminate Hk.
Defined.

(** ** A run without errors leaves no file behind *)

Section unfiltered.
Context `{FileSystem W}.
Variables (root : path) (dry_run include_hidden follow_symlinks : bool).
Variable fuel : nat.
Implicit Types (s : state W) (entry current : path).

Local Abbreviation handle_file := (handle_file root dry_run fuel).
Local Abbreviation handle_entry :=
  (handle_entry root dry_run include_hidden follow_symlinks fuel).

(** The entry passes the two filters. *)
Lemma not_filtered entry s :
  taken include_hidden entry = true →
  follow_symlinks = true ∨ fs_is_symlink (fs s) entry = false →
  handle_entry entry s =
    if fs_is_dir (fs s) entry then
      if bool_decide (Path.name entry ∈ category_dirs) then (s, Ok ())
      else push entry s
    else if fs_is_file (fs s) entry then handle_file entry s
         else (s, Ok ()).
Proof.
  intros Htaken Hlink. unfold handle_entry, mbind, M_bind, query.
  assert (negb include_hidden && Py.startswith (Path.name entry) "." = false)
    as ->.
  { unfold taken, hidden in Htaken. destruct include_hidden; [done|].
    cbn [orb negb] in Htaken. apply negb_true_iff in Htaken.
    by rewrite Htaken. }
  assert (fs_is_symlink (fs s) entry && negb follow_symlinks = false)
    as -> by (destruct Hlink as [-> | ->]; [apply andb_false_r|done]).
  destruct (fs_is_dir (fs s) entry); [by case_bool_decide|].
  by destruct (fs_is_file (fs s) entry).
Qed.

Lemma snoc_ne {A} (l : list A) (a : A) : l ++ [a] ≠ l.
Proof.
  intros Heq. apply (f_equal length) in Heq.
  rewrite length_app in Heq. cbn in Heq. lia.
Qed.

(** A file handled without an exception and without a new error has been
    moved. *)
Lemma handle_file_moved entry s :
  dry_run = false →
  (handle_file entry s).2 = Ok () →
  errors (handle_file entry s).1 = errors s →
  ∃ w' unique w'',
    fs_mkdir (fs s) (root // classify entry) = (w', None)
    ∧ make_unique_target fuel w' (target_of root entry) = Some unique
    ∧ fs_move w' entry unique = (w'', None)
    ∧ fs (handle_file entry s).1 = w''.
Proof.
  intros Hdry.
  unfold handle_file, try_except, unique_target, mbind, M_bind, inspect,
    effect, print, count, record_error, update, set_fs.
  fold (classify entry). fold (target_of root entry). simpl_state.
  destruct (fs_mkdir (fs s) (root // classify entry)) as [w' [e|]] eqn:Hmk;
    simpl_state; [discriminate|].
  rewrite Hdry. simpl_state.
  destruct (make_unique_target fuel w' (target_of root entry))
    as [unique|] eqn:Huniq; simpl_state; [|discriminate].
  destruct (fs_move w' entry unique) as [w'' [e|]] eqn:Hmv; simpl_state.
  - intros _ Herr. by apply snoc_ne in Herr.
  - intros _ _. by exists w', unique, w''.
Qed.

End unfiltered.

Lemma unique_target_in_category `{FileSystem W} (fuel : nat) (w : W)
    (root entry unique : path) :
  make_unique_target fuel w (target_of root entry) = Some unique →
  ∃ y, unique = root // classify entry // y.
Proof.
  intros [-> |(i & _ & ->)]%make_unique_target_cases.
  - by eexists.
  - unfold candidate, target_of. rewrite parent_join. by eexists.
Qed.

Lemma join_inj (d d' : path) (x x' : string) :
  d // x = d' // x' → d = d' ∧ x = x'.
Proof. apply app_inj_tail. Qed.

(** A category folder is not a directory the walker may list. *)
Lemma category_folder_not_enterable (root : path) (category : string) :
  category ∈ category_dirs → ¬ enterable root (root // category).
Proof.
  intros Hcat [Heq|Hname].
  - by apply (join_ne root category).
  - apply Hname. by rewrite name_join.
Qed.

Lemma simple_listing_complete (w : gmap path node) (d : path)
    (entries : list path) (x : string) :
  fs_iterdir w d = inr entries → is_Some (w !! (d // x)) → d // x ∈ entries.
Proof.
  change (fs_iterdir w d) with (SimpleFS.iterdir w d).
  unfold SimpleFS.iterdir. intros Hls [n Hn].
  assert (entries = SimpleFS.children w d) as ->.
  { repeat case_match; by simplify_eq. }
  unfold SimpleFS.children. apply list_elem_of_filter. split.
  - unfold SimpleFS.is_child. apply bool_decide_pack. split.
    + unfold Path.join. by intros [_ ?]%app_eq_nil.
    + apply parent_join.
  - apply list_elem_of_fmap. exists (d // x, n). split; [done|].
    by apply elem_of_map_to_list.
Qed.

Section coverage.
Variables (root : path) (include_hidden follow_symlinks : bool) (fuel : nat).
Implicit Types (w : gmap path node) (s : state (gmap path node)).
Implicit Types (d current entry : path) (x : string).

Local Abbreviation handle_entry :=
  (handle_entry root false include_hidden follow_symlinks fuel).
Local Abbreviation for_each :=
  (for_each root false include_hidden follow_symlinks fuel).
Local Abbreviation visit_dir :=
  (visit_dir root false include_hidden follow_symlinks fuel).
Local Abbreviation while_stack :=
  (while_stack root false include_hidden follow_symlinks fuel).
Local Abbreviation settled_after := (settled_after root).
Local Abbreviation dealt_with := (dealt_with include_hidden).

Lemma settled_refl s :
  SimpleFS.is_Dir (fs s !! root) = true → settled_after s s.
Proof. intros Hroot. by split_and!. Qed.

Lemma settled_trans s1 s2 s3 :
  settled_after s1 s2 → settled_after s2 s3 → settled_after s1 s3.
Proof.
  intros (_ & Hdirs12 & Hfiles12 & Hvis12 & Hstack12 & Herr12 & Hkept12)
         (Hroot & Hdirs23 & Hfiles23 & Hvis23 & Hstack23 & Herr23 & Hkept23).
  split_and!.
  - exact Hroot.
  - intros d x Hx. by rewrite Hdirs23, Hdirs12.
  - intros d x Hd Hfile. by apply Hfiles12, Hfiles23.
  - by rewrite Hvis23.
  - by etrans.
  - by etrans.
  - intros q r wr Hq. by apply Hkept23, Hkept12.
Qed.

(** What the making of a category folder changes. *)
Lemma mkdir_settled w w' (r : option exn) (category : string) :
  SimpleFS.is_Dir (w !! root) = true →
  category ∈ category_dirs →
  fs_mkdir w (root // category) = (w', r) →
  SimpleFS.is_Dir (w' !! root) = true
  ∧ (∀ d x, x ∉ category_dirs →
       SimpleFS.is_Dir (w' !! (d // x)) = SimpleFS.is_Dir (w !! (d // x)))
  ∧ (∀ q : path, w' !! q = Some File → w !! q = Some File)
  ∧ (∀ (q : path) n, w !! q = Some n → w' !! q = Some n).
Proof.
  intros Hroot Hcat Hmk.
  split_and!; [| | |intros q n Hq; by eapply simple_mkdir_keeps].
  - by destruct (simple_mkdir_in_dir _ _ _ _ _ root Hroot Hmk).
  - intros d x Hx.
    destruct (simple_mkdir_in_dir _ _ _ _ _ (d // x) Hroot Hmk)
      as [_ [-> |(Heq & _)]]; [done|].
    apply join_inj in Heq as [_ ->]. by destruct Hx.
  - intros q Hq.
    destruct (simple_mkdir_in_dir _ _ _ _ _ q Hroot Hmk)
      as [_ [<- |(_ & _ & Hnew)]]; [done|congruence].
Qed.

(** What the move of a regular file to a free name in a category folder
    changes. *)
Lemma move_settled w w'' (r : option exn) src (category y : string) :
  w !! src = Some File →
  w !! (root // category // y) = None →
  category ∈ category_dirs →
  fs_move w src (root // category // y) = (w'', r) →
  (∀ q : path, SimpleFS.is_Dir (w'' !! q) = SimpleFS.is_Dir (w !! q))
  ∧ (∀ d x, enterable root d →
       w'' !! (d // x) = Some File → w !! (d // x) = Some File)
  ∧ (∀ (q : path) (r' wr : bool),
       w !! q = Some (Dir r' wr) → w'' !! q = Some (Dir r' wr)).
Proof.
  intros Hsrc Hdst Hcat Hmv. split_and!.
  - pose proof (move_file_same_dirs w src _ Hsrc Hdst) as Hsame.
    change (SimpleFS.move w src (root // category // y))
      with (fs_move w src (root // category // y)) in Hsame.
    by rewrite Hmv in Hsame.
  - intros d x Hd Hfile.
    destruct (simple_move_lookup _ _ _ _ _ Hsrc Hdst Hmv) as (Hother & _).
    destruct (decide (d // x = src)) as [-> |Hne]; [done|].
    rewrite <-Hother; [done|done|].
    intros [-> _]%join_inj. by apply (category_folder_not_enterable root category).
  - intros q r' wr Hq.
    destruct (simple_move_lookup _ _ _ _ _ Hsrc Hdst Hmv) as (Hother & _).
    rewrite Hother; [done|congruence|congruence].
Qed.

Lemma handle_entry_settled entry s :
  SimpleFS.is_Dir (fs s !! root) = true →
  settled_after s (handle_entry entry s).1.
Proof.
  intros Hroot.
  pose proof (handle_entry_step root false include_hidden follow_symlinks fuel
                entry s) as Hstep.
  pose proof (entry_step_errors _ _ _ _ _ _ _ Hstep) as Herr.
  pose proof (entry_step_stack _ _ _ _ _ _ _ Hstep) as [Hvis Hstack].
  assert (stack s `suffix_of` stack (handle_entry entry s).1) as Hsuffix.
  { destruct Hstack as [-> |[-> _]]; [done|by apply suffix_cons_r]. }
  pose proof (classify_in_category_dirs entry) as Hcat.
  assert (∀ w' r,
            fs_mkdir (fs s) (root // classify entry) = (w', r) →
            SimpleFS.is_Dir (w' !! root) = true
            ∧ (∀ d x, x ∉ category_dirs →
                 SimpleFS.is_Dir (w' !! (d // x))
                 = SimpleFS.is_Dir (fs s !! (d // x)))
            ∧ (∀ d x, enterable root d →
                 w' !! (d // x) = Some File → fs s !! (d // x) = Some File)
            ∧ (∀ (q : path) (r' wr : bool),
                 fs s !! q = Some (Dir r' wr) → w' !! q = Some (Dir r' wr)))
    as Hmkdir.
  { intros w' r Hmk.
    destruct (mkdir_settled _ _ _ _ Hroot Hcat Hmk) as (? & ? & Hfiles & Hkept).
    split_and!; [done|done| |].
    - intros d x _. apply Hfiles.
    - intros q r' wr. apply Hkept. }
  assert (∀ w' unique w'' r,
            fs_is_file (fs s) entry = true →
            fs_mkdir (fs s) (root // classify entry) = (w', None) →
            make_unique_target fuel w' (target_of root entry) = Some unique →
            fs_move w' entry unique = (w'', r) →
            SimpleFS.is_Dir (w'' !! root) = true
            ∧ (∀ d x, x ∉ category_dirs →
                 SimpleFS.is_Dir (w'' !! (d // x))
                 = SimpleFS.is_Dir (fs s !! (d // x)))
            ∧ (∀ d x, enterable root d →
                 w'' !! (d // x) = Some File → fs s !! (d // x) = Some File)
            ∧ (∀ (q : path) (r' wr : bool),
                 fs s !! q = Some (Dir r' wr) → w'' !! q = Some (Dir r' wr)))
    as Hmove.
  { intros w' unique w'' r Hfile Hmk Huniq Hmv.
    destruct (Hmkdir _ _ Hmk) as (Hroot' & Hdirs' & Hfiles' & Hkept').
    assert (w' !! entry = Some File) as Hsrc.
    { eapply simple_mkdir_keeps; [done|]. by apply simple_is_file. }
    assert (w' !! unique = None) as Hfree.
    { apply simple_free. by eapply make_unique_target_fresh. }
    destruct (unique_target_in_category _ _ _ _ _ Huniq) as [y ->].
    destruct (move_settled _ _ _ _ _ _ Hsrc Hfree Hcat Hmv)
      as (Hsame & Hfiles & Hkept).
    split_and!.
    - by rewrite Hsame.
    - intros d x Hx. by rewrite Hsame, Hdirs'.
    - intros d x Hd Hfile'. by apply Hfiles', Hfiles.
    - intros q r' wr Hq. by apply Hkept, Hkept'. }
  red.
  destruct Hstep as [|Hdir Hname|w' e Hfile Hmk|w' Hdry Hfile Hmk
                     |w' unique w'' Hdry Hfile Hmk Huniq Hmv
                     |w' unique w'' e Hdry Hfile Hmk Huniq Hmv
                     |w' Hdry Hfile Hmk Huniq];
    cbn [fs stdout stack summary errors processed visited fst snd] in *.
  - by split_and!.
  - by split_and!.
  - destruct (Hmkdir _ _ Hmk) as (? & ? & ? & ?). by split_and!.
  - discriminate Hdry.
  - destruct (Hmove _ _ _ _ Hfile Hmk Huniq Hmv) as (? & ? & ? & ?).
    by split_and!.
  - destruct (Hmove _ _ _ _ Hfile Hmk Huniq Hmv) as (? & ? & ? & ?).
    by split_and!.
  - destruct (Hmkdir _ _ Hmk) as (? & ? & ? & ?). by split_and!.
Qed.

Lemma dealt_with_kept d s s' :
  settled_after s s' → enterable root d → dealt_with d s → dealt_with d s'.
Proof.
  intros (_ & Hdirs & Hfiles & Hvis & [pushed Hstack] & _ & Hkept) Hd
         [[wr Hlisted] Hdealt].
  split; [exists wr; by apply Hkept|]. intros x Htaken.
  destruct (Hdealt x Htaken) as [Hsub Hfile]. split.
  - intros Hdir Hx. rewrite Hdirs in Hdir by done.
    specialize (Hsub Hdir Hx). rewrite Hstack, Hvis.
    rewrite elem_of_app in Hsub. rewrite !elem_of_app. tauto.
  - intros Hfile'. by apply Hfile, Hfiles.
Qed.

Lemma handle_entry_deals current x s :
  taken include_hidden (current // x) = true →
  (handle_entry (current // x) s).2 = Ok () →
  errors (handle_entry (current // x) s).1 = errors s →
  (SimpleFS.is_Dir (fs s !! (current // x)) = true → x ∉ category_dirs →
   current // x ∈ stack (handle_entry (current // x) s).1)
  ∧ fs (handle_entry (current // x) s).1 !! (current // x) ≠ Some File.
Proof.
  intros Htaken.
  rewrite (not_filtered root false include_hidden follow_symlinks fuel
             (current // x) s Htaken) by (by right).
  rewrite simple_is_dir, name_join.
  destruct (SimpleFS.is_Dir (fs s !! (current // x))) eqn:Hdir.
  { assert (fs s !! (current // x) ≠ Some File) as Hfile.
    { intros Hfile. rewrite Hfile in Hdir. discriminate. }
    case_bool_decide as Hx; simpl_state.
    - intros _ _. split; [by intros _ []|exact Hfile].
    - intros _ _. unfold push, update; simpl_state.
      split; [intros _ _; by left|exact Hfile]. }
  destruct (fs_is_file (fs s) (current // x)) eqn:Hfile.
  - intros Hok Herr. split; [discriminate|].
    destruct (handle_file_moved root false fuel _ _ eq_refl Hok Herr)
      as (w' & unique & w'' & Hmk & Huniq & Hmv & ->).
    assert (w' !! (current // x) = Some File) as Hsrc.
    { eapply simple_mkdir_keeps; [done|]. by apply simple_is_file. }
    assert (w' !! unique = None) as Hfree.
    { apply simple_free. by eapply make_unique_target_fresh. }
    destruct (simple_move_lookup _ _ _ _ _ Hsrc Hfree Hmv) as (_ & _ & Hmoved).
    destruct (Hmoved eq_refl) as [Hgone _]. by rewrite Hgone.
  - intros _ _. split; [discriminate|]. simpl_state. intros Hfile'.
    apply simple_is_file_iff in Hfile'. congruence.
Qed.

Lemma errors_squeezed (l1 l2 l3 : list (path * string)) :
  l1 `prefix_of` l2 → l2 `prefix_of` l3 → l3 = l1 → l2 = l1.
Proof.
  intros H12 H23 ->. symmetry.
  apply prefix_length_eq; [done|by apply prefix_length].
Qed.

Lemma for_each_deals current entries s :
  SimpleFS.is_Dir (fs s !! root) = true →
  enterable root current →
  (for_each entries s).2 = Ok () →
  errors (for_each entries s).1 = errors s →
  settled_after s (for_each entries s).1
  ∧ ∀ x, current // x ∈ entries → taken include_hidden (current // x) = true →
      (SimpleFS.is_Dir (fs s !! (current // x)) = true → x ∉ category_dirs →
       current // x ∈ stack (for_each entries s).1)
      ∧ fs (for_each entries s).1 !! (current // x) ≠ Some File.
Proof.
  intros Hroot Hent. revert s Hroot.
  induction entries as [|entry rest IH]; intros s Hroot.
  { rewrite for_each_nil. intros _ _. split; [by apply settled_refl|].
    by intros x Hin%elem_of_nil. }
  rewrite for_each_cons. unfold mbind, M_bind.
  pose proof (handle_entry_settled entry s Hroot) as Hset1.
  pose proof (handle_entry_deals current) as Hdeals.
  destruct (handle_entry entry s) as [s1 [[]|e|]] eqn:Hentry;
    cbn [fst snd] in *; [|discriminate..].
  intros Hok Herr.
  pose proof (for_each_step root false include_hidden follow_symlinks fuel
                rest s1) as Hpre%entries_step_errors.
  assert (errors s1 = errors s) as Herr1.
  { destruct Hset1 as (_ & _ & _ & _ & _ & Hpre1 & _).
    by eapply errors_squeezed. }
  rewrite <-Herr1 in Herr.
  destruct Hset1 as (Hroot1 & Hset1).
  destruct (IH s1 Hroot1 Hok Herr) as [Hset2 Hrest].
  split; [eapply settled_trans; [by split|done]|].
  intros x [Heq|Hin]%elem_of_cons Htaken.
  - subst entry. specialize (Hdeals x s Htaken). rewrite Hentry in Hdeals.
    destruct (Hdeals eq_refl Herr1) as [Hdir Hfile].
    destruct Hset2 as (_ & _ & Hfiles2 & _ & [pushed Hstack2] & _). split.
    + intros Hd Hx. rewrite Hstack2. apply elem_of_app. right. by apply Hdir.
    + intros Hfile'. by apply Hfile, Hfiles2.
  - destruct (Hrest x Hin Htaken) as [Hdir Hfile]. split; [|exact Hfile].
    intros Hd Hx. apply Hdir; [|done].
    destruct Hset1 as (Hdirs1 & _). by rewrite Hdirs1.
Qed.

Lemma visit_dir_deals current s :
  SimpleFS.is_Dir (fs s !! root) = true →
  enterable root current →
  (visit_dir current s).2 = Ok () →
  errors (visit_dir current s).1 = errors s →
  settled_after s (visit_dir current s).1
  ∧ dealt_with current (visit_dir current s).1.
Proof.
  intros Hroot Hent. unfold visit_dir, try_except. rewrite listing_bind.
  destruct (fs_iterdir (fs s) current) as [e|entries] eqn:Hls.
  { rewrite handler_caught. cbn [fst snd]. intros _ Herr.
    unfold caught in Herr. cbn [errors] in Herr. by apply snoc_ne in Herr. }
  pose proof (for_each_deals current entries s Hroot Hent) as Hdeals.
  pose proof (for_each_step root false include_hidden follow_symlinks fuel
                entries s) as Hpre%entries_step_errors.
  destruct (for_each entries s) as [s' [[]|e|]]; cbn [fst snd] in *.
  - intros _ Herr. destruct (Hdeals eq_refl Herr) as [Hset Hall].
    split; [exact Hset|].
    destruct Hset as (_ & Hdirs & Hfiles & _ & _ & _ & Hkept). split.
    { change (fs_iterdir (fs s) current)
        with (SimpleFS.iterdir (fs s) current) in Hls.
      unfold SimpleFS.iterdir in Hls.
      destruct (fs s !! current) as [[| |[] wr]|] eqn:Hcur; try discriminate.
      exists wr. by apply Hkept. }
    intros x Htaken. split.
    + intros Hdir Hx. rewrite Hdirs in Hdir by done.
      apply elem_of_app. left. apply Hall; [|done..].
      eapply simple_listing_complete; [done|].
      destruct (fs s !! (current // x)); [by eexists|discriminate].
    + intros Hfile'. pose proof (Hfiles _ _ Hent Hfile') as Hfile.
      assert (current // x ∈ entries) as Hin
        by (eapply simple_listing_complete; [done|by eexists]).
      by destruct (Hall x Hin Htaken) as [_ []].
  - rewrite handler_caught. cbn [fst snd]. intros _ Herr.
    unfold caught in Herr. cbn [errors] in Herr.
    apply prefix_length in Hpre. apply (f_equal length) in Herr.
    rewrite length_app in Herr. cbn [length] in Herr. lia.
  - discriminate.
Qed.

Lemma while_stack_deals n s :
  SimpleFS.is_Dir (fs s !! root) = true →
  only_enterable root s →
  (∀ d, d ∈ visited s → dealt_with d s) →
  (while_stack n s).2 = Ok () →
  errors (while_stack n s).1 = errors s →
  ∀ d, d ∈ visited (while_stack n s).1 → dealt_with d (while_stack n s).1.
Proof.
  revert s. induction n as [|n IH]; intros s Hroot Henter Hdealt.
  { destruct (stack s) eqn:Hstack.
    - rewrite while_stack_nil by done. by intros _ _.
    - erewrite while_stack_0 by done. discriminate. }
  destruct (stack s) as [|current rest] eqn:Hstack.
  { rewrite while_stack_nil by done. by intros _ _. }
  rewrite (while_stack_S _ _ _ _ _ _ _ _ _ Hstack).
  pose proof (visit_dir_step root false include_hidden follow_symlinks fuel
                current (popped current rest s)) as Hstep.
  pose proof (only_enterable_kept _ _ _ _ _ _ _ _ Henter Hstack Hstep)
    as Henter1.
  pose proof (dir_step_errors _ _ _ _ _ _ _ Hstep) as Hpre1.
  assert (enterable root current) as Hcur.
  { destruct Henter as [Hst _]. rewrite Hstack in Hst.
    by apply Forall_cons in Hst as [? _]. }
  pose proof (visit_dir_deals current (popped current rest s) Hroot Hcur)
    as Hdeals.
  destruct (visit_dir current (popped current rest s)) as [s1 [[]|e|]];
    cbn [fst snd] in *; [|discriminate..].
  intros Hok Herr.
  pose proof (while_stack_errors root false include_hidden follow_symlinks
                fuel n s1) as Hpre2.
  assert (errors s1 = errors s) as Herr1 by (by eapply errors_squeezed).
  destruct (Hdeals eq_refl Herr1) as [Hset Hcurrent].
  rewrite <-Herr1 in Herr.
  apply IH; [by destruct Hset|exact Henter1| |exact Hok|exact Herr].
  intros d Hd.
  pose proof Hset as (_ & _ & _ & Hvis & _).
  rewrite Hvis in Hd. cbn [visited popped] in Hd.
  apply elem_of_cons in Hd as [-> |Hd]; [exact Hcurrent|].
  apply (dealt_with_kept d (popped current rest s)); [exact Hset| |].
  - destruct Henter as [_ Hv]. by apply (proj1 (Forall_forall _ _) Hv).
  - destruct (Hdealt d Hd) as [Hlisted Hall]. split; [exact Hlisted|].
    intros x Htaken. destruct (Hall x Htaken) as [Hsub Hfile].
    split; [|exact Hfile]. intros Hdir Hx. specialize (Hsub Hdir Hx).
    rewrite Hstack in Hsub. cbn [stack visited popped].
    rewrite elem_of_app, elem_of_cons in Hsub.
    rewrite elem_of_app, elem_of_cons. tauto.
Qed.

End coverage.

(** What a real run that ended normally and without an error has done. *)
Lemma clean_run_dealt (w : gmap path node) (root : path)
    (include_hidden follow_symlinks : bool) (fuel : nat) :
  let run :=
    organize_iterative fuel root false include_hidden follow_symlinks w in
  run.2 = Ok () → errors run.1 = [] →
  SimpleFS.is_Dir (fs run.1 !! root) = true
  ∧ stack run.1 = []
  ∧ root ∈ visited run.1
  ∧ ∀ d, d ∈ visited run.1 → dealt_with include_hidden d run.1.
Proof.
  intros run Hok Herr. subst run.
  destruct (valid_or_invalid w root) as [[Hex Hdir]|Hbad].
  2: { rewrite organize_invalid in Hok by done. discriminate. }
  rewrite organize_valid in Hok, Herr |- * by done.
  pose proof (loop_lists_root_first w root false include_hidden
                follow_symlinks fuel fuel) as Hloop.
  pose proof (while_stack_deals root include_hidden follow_symlinks fuel fuel
                (start_state w root)) as Hdeals.
  pose proof (while_stack_keeps root false include_hidden follow_symlinks fuel
                (λ s, SimpleFS.is_Dir (fs s !! root) = true)
                (λ _ _, True) listing_any) as Hkeep.
  cbv beta in Hkeep.
  specialize (λ Hentry Hcaught Hpopped,
                Hkeep Hentry Hcaught Hpopped fuel (start_state w root) Hdir)
    as Hroot.
  clear Hkeep. cbv zeta in Hloop.
  destruct (while_stack _ _ _ _ _ _ _) as [s [[]|e|]]; cbn [fst snd] in *;
    [|discriminate..].
  unfold reported in *. cbn [fs stack visited errors] in *.
  destruct (Hloop eq_refl) as [Hstack Hlast].
  split_and!.
  - apply Hroot.
    + intros current entry s' Hs' _ _.
      by destruct (handle_entry_settled root include_hidden follow_symlinks
                     fuel entry s' Hs') as [? _].
    + by intros current e s' Hs'.
    + by intros current rest s' Hs' _.
  - exact Hstack.
  - by apply last_Some_elem_of.
  - intros d Hd. apply Hdeals; [exact Hdir| | |done|exact Herr|exact Hd].
    + split; [|by constructor]. apply Forall_singleton. by left.
    + by intros d' Hd'%elem_of_nil.
Qed.

(** X19: on the in-memory file system, after a real run that returned
    normally and recorded no error, the root has been listed; a
    subdirectory of a listed directory has been listed too, unless it bears
    the name of a category or is passed over as hidden; and no listed
    directory holds a regular file, other than those passed over as hidden.
    Every file in the walker's reach has been moved. *)
Theorem clean_run_leaves_no_file (w : gmap path node) (root : path)
    (include_hidden follow_symlinks : bool) (fuel : nat) :
  let run :=
    organize_iterative fuel root false include_hidden follow_symlinks w in
  run.2 = Ok () → errors run.1 = [] →
  root ∈ visited run.1
  ∧ ∀ d x, d ∈ visited run.1 → taken include_hidden (d // x) = true →
      (SimpleFS.is_Dir (fs run.1 !! (d // x)) = true → x ∉ category_dirs →
       d // x ∈ visited run.1)
      ∧ fs run.1 !! (d // x) ≠ Some File.
Proof.
  intros run Hok Herr. subst run.
  destruct (clean_run_dealt w root include_hidden follow_symlinks fuel Hok Herr)
    as (_ & Hstack & Hroot & Hdealt). cbv zeta in Hstack, Hroot, Hdealt.
  split; [exact Hroot|]. intros d x Hd Htaken.
  destruct (Hdealt d Hd) as [_ Hall].
  destruct (Hall x Htaken) as [Hsub Hfile]. split; [|exact Hfile].
  intros Hdirx Hx. specialize (Hsub Hdirx Hx).
  by rewrite Hstack in Hsub.
Qed.

Lemma clean_run_leaves_no_file_witness :
  let run := organize_iterative 9 ["r"] false true true sample in
  ["r"] ∈ visited run.1
  ∧ ∀ d x, d ∈ visited run.1 → taken true (d // x) = true →
      (SimpleFS.is_Dir (fs run.1 !! (d // x)) = true → x ∉ category_dirs →
       d // x ∈ visited run.1)
      ∧ fs run.1 !! (d // x) ≠ Some File.
Proof.
  apply (clean_run_leaves_no_file sample ["r"] true true 9).
  - vm_compute. reflexivity.
  - vm_compute. reflexivity.
Defined.

(** ** A second run *)

Section second_run.
Variables (root : path) (dry_run include_hidden follow_symlinks : bool).
Variables (fuel : nat) (w1 : gmap path node) (V : list path).
Implicit Types (s : state (gmap path node)) (current entry d : path).
Implicit Types (x : string).

(** Every directory of [V] has been dealt with in [w1], and [V] is closed
    under the subdirectories the walker enters. *)
Hypothesis dealt : ∀ d, d ∈ V →
  (∃ wr : bool, w1 !! d = Some (Dir true wr))
  ∧ ∀ x, taken include_hidden (d // x) = true →
      (SimpleFS.is_Dir (w1 !! (d // x)) = true → x ∉ category_dirs →
       d // x ∈ V)
      ∧ w1 !! (d // x) ≠ Some File.

Local Abbreviation handle_entry :=
  (handle_entry root dry_run include_hidden follow_symlinks fuel).
Local Abbreviation for_each :=
  (for_each root dry_run include_hidden follow_symlinks fuel).
Local Abbreviation visit_dir :=
  (visit_dir root dry_run include_hidden follow_symlinks fuel).
Local Abbreviation while_stack :=
  (while_stack root dry_run include_hidden follow_symlinks fuel).
Local Abbreviation idle := (idle w1 V).

Lemma idle_entry current x s :
  idle s → current ∈ V →
  (handle_entry (current // x) s).2 = Ok ()
  ∧ idle (handle_entry (current // x) s).1.
Proof.
  intros Hidle Hcur. destruct (dealt current Hcur) as [_ Hall].
  destruct (taken include_hidden (current // x)) eqn:Htaken.
  2: { unfold taken in Htaken.
       apply orb_false_iff in Htaken as [Hflag Hhid%negb_false_iff].
       by rewrite hidden_entry_skipped. }
  destruct (Hall x Htaken) as [Hsub Hfile].
  rewrite not_filtered by (done || by right).
  pose proof Hidle as (Hfs & Hdirs & Hproc & Hsum & Herrs & Hprinted).
  rewrite simple_is_dir, name_join, Hfs.
  destruct (SimpleFS.is_Dir (w1 !! (current // x))) eqn:Hdir.
  - case_bool_decide as Hx; [by split|].
    unfold push, update; simpl_state. split; [done|].
    red; simpl_state. split_and!; try done.
    rewrite <-app_comm_cons. intros d [-> |Hd]%elem_of_cons; [|by apply Hdirs].
    by apply Hsub.
  - destruct (fs_is_file w1 (current // x)) eqn:Hf; [|by split].
    destruct Hfile. by apply simple_is_file.
Qed.

Lemma idle_for_each current entries s :
  idle s → current ∈ V →
  Forall (λ entry, ∃ x, entry = current // x) entries →
  (for_each entries s).2 = Ok () ∧ idle (for_each entries s).1.
Proof.
  intros Hidle Hcur Hall. revert s Hidle.
  induction Hall as [|entry rest [x ->] _ IH]; intros s Hidle.
  { by rewrite for_each_nil. }
  rewrite for_each_cons. unfold mbind, M_bind.
  destruct (idle_entry current x s Hidle Hcur) as [Hok Hidle'].
  destruct (handle_entry (current // x) s) as [s1 [[]|e|]];
    cbn [fst snd] in *; [|discriminate..].
  by apply IH.
Qed.

Lemma idle_visit current s :
  idle s → current ∈ V →
  (visit_dir current s).2 = Ok () ∧ idle (visit_dir current s).1.
Proof.
  intros Hidle Hcur. unfold visit_dir, try_except. rewrite listing_bind.
  destruct (fs_iterdir (fs s) current) as [e|entries] eqn:Hls.
  { destruct (dealt current Hcur) as [[wr Hlisted] _].
    destruct Hidle as (Hfs & _).
    change (fs_iterdir (fs s) current)
      with (SimpleFS.iterdir (fs s) current) in Hls.
    unfold SimpleFS.iterdir in Hls. rewrite Hfs, Hlisted in Hls.
    discriminate. }
  destruct (idle_for_each current entries s Hidle Hcur
              (simple_listing_joins _ _ _ Hls)) as [Hok Hidle'].
  by destruct (for_each entries s) as [s' [[]|e|]].
Qed.

Lemma idle_while n s : idle s → idle (while_stack n s).1.
Proof.
  revert s. induction n as [|n IH]; intros s Hidle.
  { destruct (stack s) eqn:Hstack;
      [by rewrite while_stack_nil|by erewrite while_stack_0]. }
  destruct (stack s) as [|current rest] eqn:Hstack;
    [by rewrite while_stack_nil|].
  rewrite (while_stack_S _ _ _ _ _ _ _ _ _ Hstack).
  destruct Hidle as (Hfs & Hdirs & Hproc & Hsum & Herrs & Hprinted).
  assert (current ∈ V) as Hcur.
  { apply Hdirs. rewrite Hstack. by left. }
  assert (idle (popped current rest s)) as Hpopped.
  { red. unfold popped; simpl_state. split_and!; try done.
    intros d Hd. apply Hdirs. rewrite Hstack.
    rewrite elem_of_app, elem_of_cons in Hd.
    rewrite elem_of_app, elem_of_cons. tauto. }
  destruct (idle_visit current _ Hpopped Hcur) as [Hok Hidle'].
  destruct (visit_dir current (popped current rest s)) as [s1 [[]|e|]];
    cbn [fst snd] in *; [|discriminate..].
  by apply IH.
Qed.

End second_run.

(** X20: on the in-memory file system, a run started on what a real run
    without errors has left finds nothing to do, in either mode: it leaves
    the file system as it is, inspects no file, records no error and does
    not raise, and when it returns all it has printed is the summary, with
    no file inspected, no category and no error.  The second run has the
    first run's [include_hidden]. *)
Theorem second_run_changes_nothing (w : gmap path node) (root : path)
    (include_hidden follow_symlinks : bool) (fuel : nat)
    (dry_run' follow_symlinks' : bool) (fuel' : nat) :
  let run :=
    organize_iterative fuel root false include_hidden follow_symlinks w in
  let again :=
    organize_iterative fuel' root dry_run' include_hidden follow_symlinks'
      (fs run.1) in
  run.2 = Ok () → errors run.1 = [] →
  fs again.1 = fs run.1
  ∧ processed again.1 = 0
  ∧ summary again.1 = ∅
  ∧ errors again.1 = []
  ∧ (∀ e, again.2 ≠ Raise e)
  ∧ (again.2 = Ok () → stdout again.1 = [Report root 0 [] 0 []]).
Proof.
  intros run again Hok Herr. subst again.
  destruct (clean_run_dealt w root include_hidden follow_symlinks fuel Hok Herr)
    as (Hroot & Hstack & Hlisted & Hdealt).
  fold run in Hroot, Hstack, Hlisted, Hdealt.
  set (w1 := fs run.1) in *. set (V := visited run.1) in *.
  assert (∀ d, d ∈ V →
            (∃ wr : bool, w1 !! d = Some (Dir true wr))
            ∧ ∀ x, taken include_hidden (d // x) = true →
                (SimpleFS.is_Dir (w1 !! (d // x)) = true → x ∉ category_dirs →
                 d // x ∈ V)
                ∧ w1 !! (d // x) ≠ Some File) as Hclosed.
  { intros d Hd. destruct (Hdealt d Hd) as [Hdir Hall]. split; [exact Hdir|].
    intros x Htaken. destruct (Hall x Htaken) as [Hsub Hfile].
    split; [|exact Hfile]. intros Hdirx Hx. specialize (Hsub Hdirx Hx).
    by rewrite Hstack in Hsub. }
  assert (fs_exists w1 root = true ∧ fs_is_dir w1 root = true) as [Hex Hdir].
  { split; [|exact Hroot].
    change (SimpleFS.exists_ w1 root = true). unfold SimpleFS.exists_.
    apply bool_decide_eq_true. destruct (w1 !! root); [by eexists|done]. }
  rewrite organize_valid by done.
  pose proof (while_stack_outcome root dry_run' include_hidden follow_symlinks'
                fuel' fuel' (start_state w1 root)) as Hout.
  pose proof (idle_while root dry_run' include_hidden follow_symlinks' fuel'
                w1 V Hclosed fuel' (start_state w1 root)) as Hidle.
  assert (idle w1 V (start_state w1 root)) as Hstart.
  { red. unfold start_state; simpl_state. split_and!; try done.
    by intros d ->%list_elem_of_singleton. }
  specialize (Hidle Hstart).
  destruct (while_stack _ _ _ _ _ _ _) as [s [[]|e|]]; cbn [fst snd] in *.
  - destruct Hidle as (Hfs & _ & Hproc & Hsum & Herrs & Hprinted).
    unfold reported; simpl_state. split_and!; try done.
    intros _. rewrite Hprinted, Hproc, Hsum, Herrs. reflexivity.
  - destruct Hout as [[? _]|?]; discriminate.
  - destruct Hidle as (Hfs & _ & Hproc & Hsum & Herrs & Hprinted).
    by split_and!.
Qed.

Lemma second_run_changes_nothing_witness :
  let run := organize_iterative 9 ["r"] false true true sample in
  let again := organize_iterative 9 ["r"] false true true (fs run.1) in
  fs again.1 = fs run.1
  ∧ processed again.1 = 0
  ∧ summary again.1 = ∅
  ∧ errors again.1 = []
  ∧ (∀ e, again.2 ≠ Raise e)
  ∧ (again.2 = Ok () → stdout again.1 = [Report ["r"] 0 [] 0 []]).
Proof.
  apply (second_run_changes_nothing sample ["r"] true true 9 false true 9).
  - vm_compute. reflexivity.
  - vm_compute. reflexivity.
Defined.

(** ** No two moves collide *)

Lemma simple_mkdir_no_file (w w' : gmap path node) (p q : path)
    (r : option exn) :
  fs_mkdir w p = (w', r) → w' !! q = Some File → w !! q = Some File.
Proof.
  intros Hmk Hq. pose proof (mkdir_grown w p q) as Hg.
  change (SimpleFS.mkdir w p) with (fs_mkdir w p) in Hg. rewrite Hmk in Hg.
  destruct Hg as [Hg|(_ & Hg & _)]; cbn [fst] in Hg; congruence.
Qed.

Lemma omap_snoc {A B} (f : A → option B) (l : list A) (a : A) :
  omap f (l ++ [a]) = omap f l ++ match f a with Some b => [b] | None => [] end.
Proof. rewrite omap_app. reflexivity. Qed.

Lemma NoDup_snoc {A} (l : list A) (a : A) : NoDup l → a ∉ l → NoDup (l ++ [a]).
Proof.
  intros Hl Ha. apply NoDup_app. split_and!; [done| |apply NoDup_singleton].
  intros b Hb ->%list_elem_of_singleton. by apply Ha.
Qed.

Lemma moved_onto_lands (root : path) (out : list line) (dst : path) :
  Forall (lands_in_category root) out →
  dst ∈ omap moved_onto out →
  ∃ (category y : string),
    category ∈ category_dirs ∧ dst = root // category // y.
Proof.
  intros Hlands (l & Hl & Hdst)%list_elem_of_omap.
  pose proof (proj1 (Forall_forall _ _) Hlands l Hl) as Hland.
  destruct l; try discriminate. injection Hdst as ->.
  destruct Hland as [_ [-> |(i & _ & ->)]].
  - eexists _, _. split; [apply classify_in_category_dirs|done].
  - unfold candidate. rewrite parent_join.
    eexists _, _. split; [apply classify_in_category_dirs|done].
Qed.

Section apart.
Variables (root : path) (dry_run include_hidden follow_symlinks : bool).
Variable fuel : nat.
Implicit Types (s : state (gmap path node)) (current entry d : path).
Implicit Types (x : string).

Local Abbreviation handle_entry :=
  (handle_entry root dry_run include_hidden follow_symlinks fuel).

Lemma handle_entry_moves_apart current x s :
  (∀ d, d ∈ stack s ++ visited s → enterable root d) →
  Forall (lands_in_category root) (stdout s) →
  current ∈ visited s →
  moves_apart s → moves_apart (handle_entry (current // x) s).1.
Proof.
  intros Hdirs Hlands Hcur (Hdsts & Hfiles & Hsrcs & Hgone).
  assert (enterable root current) as Hent
    by (apply Hdirs, elem_of_app; by right).
  (* a place a file was moved to is in a category folder, a file that was
     moved in a directory that was listed *)
  assert (∀ dst d y, dst ∈ omap moved_onto (stdout s) →
            d ∈ visited s → dst ≠ d // y) as Hdst_apart.
  { intros dst d y Hdst Hd ->.
    destruct (moved_onto_lands _ _ _ Hlands Hdst) as (c & y' & Hc & Heq).
    apply join_inj in Heq as [-> _].
    apply (category_folder_not_enterable root c Hc), Hdirs, elem_of_app.
    by right. }
  assert (∀ src unique w',
            src ∈ omap moved_from (stdout s) →
            make_unique_target fuel w' (target_of root (current // x))
            = Some unique →
            src ≠ unique) as Hsrc_apart.
  { intros src unique w' Hsrc Huniq ->.
    destruct (Hgone _ Hsrc) as [(d & y & Heq & Hd) _].
    destruct (unique_target_in_category _ _ _ _ _ Huniq) as [y' ->].
    apply join_inj in Heq as [<- _].
    apply (category_folder_not_enterable root _
             (classify_in_category_dirs (current // x))), Hdirs, elem_of_app.
    by right. }
  pose proof (handle_entry_step root dry_run include_hidden follow_symlinks
                fuel (current // x) s) as Hstep.
  (* the making of the category folder *)
  assert (∀ w' r,
            fs_mkdir (fs s) (root // classify (current // x)) = (w', r) →
            (∀ dst, dst ∈ omap moved_onto (stdout s) → w' !! dst = Some File)
            ∧ (∀ src, src ∈ omap moved_from (stdout s) →
                 (∃ d y, src = d // y ∧ d ∈ visited s)
                 ∧ w' !! src ≠ Some File)) as Hmkdir.
  { intros w' r Hmk. split.
    - intros dst Hdst. eapply simple_mkdir_keeps; [done|]. by apply Hfiles.
    - intros src Hsrc. destruct (Hgone _ Hsrc) as [Hparent Hnot].
      split; [exact Hparent|]. intros Hfile. apply Hnot.
      by eapply simple_mkdir_no_file. }
  (* the move *)
  assert (∀ w' unique w'' r,
            fs_is_file (fs s) (current // x) = true →
            fs_mkdir (fs s) (root // classify (current // x)) = (w', None) →
            make_unique_target fuel w' (target_of root (current // x))
            = Some unique →
            fs_move w' (current // x) unique = (w'', r) →
            (current // x ∉ omap moved_from (stdout s))
            ∧ (unique ∉ omap moved_onto (stdout s))
            ∧ (∀ dst, dst ∈ omap moved_onto (stdout s) →
                 w'' !! dst = Some File)
            ∧ (∀ src, src ∈ omap moved_from (stdout s) →
                 (∃ d y, src = d // y ∧ d ∈ visited s)
                 ∧ w'' !! src ≠ Some File)
            ∧ (r = None →
               w'' !! unique = Some File ∧ w'' !! (current // x) = None))
    as Hmove.
  { intros w' unique w'' r Hfile Hmk Huniq Hmv.
    destruct (Hmkdir _ _ Hmk) as [Hfiles' Hgone'].
    assert (w' !! (current // x) = Some File) as Hsrc.
    { eapply simple_mkdir_keeps; [done|]. by apply simple_is_file. }
    assert (w' !! unique = None) as Hfree.
    { apply simple_free. by eapply make_unique_target_fresh. }
    destruct (simple_move_lookup _ _ _ _ _ Hsrc Hfree Hmv)
      as (Hother & _ & Hmoved).
    assert (current // x ∉ omap moved_from (stdout s)) as Hnew_src.
    { intros Hin. by destruct (Hgone' _ Hin) as [_ []]. }
    assert (unique ∉ omap moved_onto (stdout s)) as Hnew_dst.
    { intros Hin. specialize (Hfiles' _ Hin). congruence. }
    split_and!; [done|done| | |].
    - intros dst Hdst. rewrite Hother; [by apply Hfiles'| |].
      + by apply Hdst_apart.
      + by intros ->.
    - intros src Hin. destruct (Hgone' _ Hin) as [Hparent Hnot].
      split; [exact Hparent|]. rewrite Hother; [done| |].
      + by intros ->.
      + by eapply Hsrc_apart.
    - intros ->. destruct (Hmoved eq_refl) as [? ?]. by split. }
  red.
  destruct Hstep as [|Hdir Hname|w' e Hfile Hmk|w' Hdry Hfile Hmk
                     |w' unique w'' Hdry Hfile Hmk Huniq Hmv
                     |w' unique w'' e Hdry Hfile Hmk Huniq Hmv
                     |w' Hdry Hfile Hmk Huniq]; simpl_state;
    rewrite ?omap_snoc; cbn [moved_onto moved_from]; rewrite ?app_nil_r.
  - by split_and!.
  - by split_and!.
  - destruct (Hmkdir _ _ Hmk) as [? ?]. by split_and!.
  - destruct (Hmkdir _ _ Hmk) as [? ?]. by split_and!.
  - destruct (Hmove _ _ _ _ Hfile Hmk Huniq Hmv)
      as (Hnew_src & Hnew_dst & Hfiles'' & Hgone'' & Hmoved).
    destruct (Hmoved eq_refl) as [Hthere Haway].
    split_and!.
    + by apply NoDup_snoc.
    + intros dst [Hdst| ->%list_elem_of_singleton]%elem_of_app;
        [by apply Hfiles''|done].
    + by apply NoDup_snoc.
    + intros src [Hsrc| ->%list_elem_of_singleton]%elem_of_app;
        [by apply Hgone''|].
      split; [by exists current, x|congruence].
  - destruct (Hmove _ _ _ _ Hfile Hmk Huniq Hmv)
      as (_ & _ & Hfiles'' & Hgone'' & _).
    by split_and!.
  - destruct (Hmkdir _ _ Hmk) as [? ?]. by split_and!.
Qed.

End apart.

(** X21: on the in-memory file system, no two [Moved] lines of a run name
    the same destination, and none names a file twice; when the run is
    over every destination named holds a regular file, and no file named
    as moved is a regular file at its old place. *)
Theorem no_two_moves_collide (w : gmap path node) (root : path)
    (dry_run include_hidden follow_symlinks : bool) (fuel : nat) :
  let final :=
    (organize_iterative fuel root dry_run include_hidden follow_symlinks w).1 in
  NoDup (omap moved_onto (stdout final))
  ∧ NoDup (omap moved_from (stdout final))
  ∧ (∀ dst, dst ∈ omap moved_onto (stdout final) →
            fs final !! dst = Some File)
  ∧ (∀ src, src ∈ omap moved_from (stdout final) →
            fs final !! src ≠ Some File).
Proof.
  apply (run_keeps root dry_run include_hidden follow_symlinks fuel
           (λ s, (∀ d, d ∈ stack s ++ visited s → enterable root d)
                 ∧ Forall (lands_in_category root) (stdout s)
                 ∧ moves_apart s)
           (λ d entry, ∃ x, entry = d // x) simple_listing_joins)
    with (P := λ s, NoDup (omap moved_onto (stdout s))
                    ∧ NoDup (omap moved_from (stdout s))
                    ∧ (∀ dst, dst ∈ omap moved_onto (stdout s) →
                              fs s !! dst = Some File)
                    ∧ (∀ src, src ∈ omap moved_from (stdout s) →
                              fs s !! src ≠ Some File)).
  - intros current entry s (Hdirs & Hlands & Hapart) Hcur [x ->].
    pose proof (handle_entry_step root dry_run include_hidden follow_symlinks
                  fuel (current // x) s) as Hstep.
    split_and!.
    + apply entry_step_stack in Hstep as [Hvis Hstack]. intros d.
      rewrite Hvis. destruct Hstack as [-> |(-> & _ & Hname)]; [apply Hdirs|].
      rewrite <-app_comm_cons. intros [-> |Hd]%elem_of_cons; [by right|].
      by apply Hdirs.
    + by apply handle_entry_lands.
    + by apply handle_entry_moves_apart.
  - intros current e s (Hdirs & Hlands & Hapart). split_and!.
    + exact Hdirs.
    + unfold caught; simpl_state. apply Forall_app. split; [exact Hlands|].
      apply Forall_singleton. destruct (is_PermissionError e); exact Logic.I.
    + red. unfold caught; simpl_state. rewrite !omap_snoc.
      destruct (is_PermissionError e); cbn [moved_onto moved_from];
        rewrite !app_nil_r; exact Hapart.
  - intros current rest s (Hdirs & Hlands & Hapart) Hstack.
    split_and!; [|exact Hlands|].
    + unfold popped; simpl_state. intros d Hd. apply Hdirs. rewrite Hstack.
      rewrite elem_of_app, elem_of_cons in Hd.
      rewrite elem_of_app, elem_of_cons. tauto.
    + destruct Hapart as (? & ? & ? & Hgone). red. unfold popped; simpl_state.
      split_and!; [done..|]. intros src Hsrc.
      destruct (Hgone _ Hsrc) as [(d & y & -> & Hd) Hnot].
      split; [|exact Hnot]. exists d, y. split; [done|by right].
  - intros _. cbn. split_and!; [constructor|constructor| |];
      by intros ? ?%elem_of_nil.
  - intros _ _. split_and!.
    + intros d Hd. left. unfold start_state in Hd; simpl_state.
      by apply list_elem_of_singleton in Hd.
    + constructor.
    + red. cbn. split_and!; [constructor| |constructor|];
        by intros ? ?%elem_of_nil.
  - intros s (_ & _ & Hdsts & Hfiles & Hsrcs & Hgone).
    assert (∀ src, src ∈ omap moved_from (stdout s) →
              fs s !! src ≠ Some File) as Hgone'
      by (intros src Hsrc; by destruct (Hgone _ Hsrc)).
    split; [by split_and!|].
    unfold reported; simpl_state. rewrite !omap_snoc.
    cbn [moved_onto moved_from]. rewrite !app_nil_r. by split_and!.
Qed.
